(** * The HA peer network: sharded storage, contribution proofs, geohash
      cells, the bencode codec and the peer-to-peer node, embedded from the
      Python sources and checked against their description. *)

From Stdlib Require Import ZArith NArith QArith Qround List String Ascii Bool.
From Stdlib Require Import Lia Lqa Sorted Permutation.
Import ListNotations.

Local Open Scope string_scope.

(** * Python primitives used by the embedded code

    A Python [str] is represented by the bytes of its UTF-8 encoding, so
    that [s.encode()] is the identity, and [bytes] values are represented
    the same way.  [time.time()] is a rational clock reading that each
    function receives as an argument. *)

Module Py.

(** Outcome of a call: a returned value or a propagated exception. *)
Inductive exn : Set :=
| AttributeError
| TypeError
| ValueError
| KeyError
| JSONDecodeError
| OverflowError.

Inductive outcome (A : Type) : Type :=
| Returned (a : A)
| Raised (e : exn).
Arguments Returned {A} a.
Arguments Raised {A} e.

Definition bind {A B : Type} (m : outcome A) (k : A -> outcome B) : outcome B :=
  match m with
  | Returned a => k a
  | Raised e => Raised e
  end.

Definition is_digit (c : ascii) : bool :=
  let n := N_of_ascii c in ((48 <=? n) && (n <=? 57))%N.

Definition digit_val (c : ascii) : N := (N_of_ascii c - 48)%N.

Definition digit_char (n : N) : ascii := ascii_of_N (48 + n).

(** [str(n)] for a natural number: the decimal digits, most significant
    first, built from the least significant one. *)
Fixpoint digits_acc (fuel : nat) (n : N) (acc : string) : string :=
  match fuel with
  | O => acc
  | S fuel' =>
      let acc' := String (digit_char (n mod 10)) acc in
      if (n <? 10)%N then acc' else digits_acc fuel' (n / 10) acc'
  end.

Definition str_of_N (n : N) : string :=
  digits_acc (S (N.to_nat (N.log2 n))) n "".

(** [str(z)], which is also [f"{z}"], for an [int]. *)
Definition str_of_Z (z : Z) : string :=
  match z with
  | Zneg p => String "-" (str_of_N (Npos p))
  | _ => str_of_N (Z.to_N z)
  end.

(** Value of a digit string read most significant digit first. *)
Fixpoint digits_val (acc : N) (s : string) : N :=
  match s with
  | EmptyString => acc
  | String c r => digits_val (10 * acc + digit_val c) r
  end.

(** Longest prefix of decimal digits and the rest of the string. *)
Fixpoint span_digits (s : string) : string * string :=
  match s with
  | EmptyString => (EmptyString, EmptyString)
  | String c r =>
      if is_digit c
      then let (d, t) := span_digits r in (String c d, t)
      else (EmptyString, s)
  end.

(** [s.startswith(p)]. *)
Definition startswith (s p : string) : bool := String.prefix p s.

(** [s[:n]] for a non-negative literal [n]. *)
Definition take (n : nat) (s : string) : string := substring 0 n s.

(** [s.rsplit(sep, 1)] unpacked into two names: the text before and
    after the last separator; [None] stands for the [ValueError] of
    unpacking a one-element list when the separator does not occur. *)
Fixpoint rsplit1 (sep : ascii) (s : string) : option (string * string) :=
  match s with
  | EmptyString => None
  | String c r =>
      match rsplit1 sep r with
      | Some (a, b) => Some (String c a, b)
      | None => if Ascii.eqb c sep then Some (EmptyString, r) else None
      end
  end.

(** [int(x)] for a float: truncation toward zero. *)
Definition int_of_Q (q : Q) : Z :=
  if (0 <=? Qnum q)%Z then Qfloor q else Qceiling q.

(** ** Insertion-ordered dictionaries with string keys *)

Definition dict (V : Type) : Type := list (string * V).

Fixpoint dict_get {V : Type} (d : dict V) (k : string) : option V :=
  match d with
  | [] => None
  | (k', v) :: r => if String.eqb k k' then Some v else dict_get r k
  end.

(** [d[k] = v]: an existing key keeps its position. *)
Fixpoint dict_set {V : Type} (d : dict V) (k : string) (v : V) : dict V :=
  match d with
  | [] => [(k, v)]
  | (k', v') :: r =>
      if String.eqb k k' then (k, v) :: r else (k', v') :: dict_set r k v
  end.

(** [del d[k]]. *)
Fixpoint dict_del {V : Type} (d : dict V) (k : string) : dict V :=
  match d with
  | [] => []
  | (k', v') :: r =>
      if String.eqb k k' then r else (k', v') :: dict_del r k
  end.

Definition dict_mem {V : Type} (d : dict V) (k : string) : bool :=
  match dict_get d k with Some _ => true | None => false end.

Definition dict_values {V : Type} (d : dict V) : list V := map snd d.

(** [l[:n]] for an [int] bound: a negative bound counts from the end. *)
Definition slice_to {A : Type} (n : Z) (l : list A) : list A :=
  if (0 <=? n)%Z
  then firstn (Z.to_nat n) l
  else firstn (Z.to_nat (Z.of_nat (List.length l) + n)) l.

End Py.

(** * SHA-256 ([hashlib.sha256]) on 32-bit words held in [N] *)

Module SHA256.
Local Open Scope N_scope.
Local Open Scope list_scope.

Definition mask32 : N := 0xffffffff.
Definition add32 (a b : N) : N := N.land (a + b) mask32.
Definition rotr (n x : N) : N :=
  N.lor (N.shiftr x n) (N.land (N.shiftl x (32 - n)) mask32).
Definition shr (n x : N) : N := N.shiftr x n.
Definition xor3 (a b c : N) : N := N.lxor (N.lxor a b) c.

Definition Ch (x y z : N) : N :=
  N.lxor (N.land x y) (N.land (N.lxor x mask32) z).
Definition Maj (x y z : N) : N :=
  xor3 (N.land x y) (N.land x z) (N.land y z).
Definition bsig0 (x : N) : N := xor3 (rotr 2 x) (rotr 13 x) (rotr 22 x).
Definition bsig1 (x : N) : N := xor3 (rotr 6 x) (rotr 11 x) (rotr 25 x).
Definition ssig0 (x : N) : N := xor3 (rotr 7 x) (rotr 18 x) (shr 3 x).
Definition ssig1 (x : N) : N := xor3 (rotr 17 x) (rotr 19 x) (shr 10 x).

(** The constants of the standard are the first 32 bits of the
    fractional parts of the cube roots, and for the initial state of the
    square roots, of the first primes. *)
Definition is_prime (n : N) : bool :=
  (2 <=? n)
  && forallb (fun d => negb (n mod N.of_nat d =? 0))
             (seq 2 (N.to_nat n - 2)).

Definition first_primes (count : nat) : list N :=
  firstn count (filter is_prime (map N.of_nat (seq 0 320))).

(** The largest [r] below [2 ^ width] with [r ^ 3 <= n]. *)
Definition cube_root (width : nat) (n : N) : N :=
  fold_left (fun r b =>
               let r' := r + N.shiftl 1 (N.of_nat b) in
               if r' * r' * r' <=? n then r' else r)
            (rev (seq 0 width)) 0.

Definition K : list N :=
  Eval vm_compute in
    map (fun p => N.land (cube_root 36 (N.shiftl p 96)) mask32) (first_primes 64).

Definition H0 : list N :=
  Eval vm_compute in
    map (fun p => N.land (N.sqrt (N.shiftl p 64)) mask32) (first_primes 8).

(** Padding: a one bit, zeros up to 56 modulo 64, the bit length on
    eight bytes. *)
Definition be_bytes (count : nat) (n : N) : list N :=
  map (fun i => N.land (N.shiftr n (8 * N.of_nat (count - 1 - i))) 0xff)
      (seq 0 count).

Definition pad (msg : list N) : list N :=
  let len := N.of_nat (List.length msg) in
  let zeros := N.to_nat ((64 + 55 - len mod 64) mod 64) in
  msg ++ [0x80] ++ repeat 0 zeros ++ be_bytes 8 (8 * len).

Fixpoint words_of (fuel : nat) (bs : list N) : list N :=
  match fuel, bs with
  | S fuel', b0 :: b1 :: b2 :: b3 :: r =>
      (N.shiftl b0 24 + N.shiftl b1 16 + N.shiftl b2 8 + b3)
        :: words_of fuel' r
  | _, _ => []
  end.

(** Message schedule: [w] holds the last sixteen words, oldest first. *)
Fixpoint schedule (count : nat) (w : list N) : list N :=
  match count with
  | O => []
  | S count' =>
      let next :=
        add32 (add32 (ssig1 (nth 14 w 0)) (nth 9 w 0))
              (add32 (ssig0 (nth 1 w 0)) (nth 0 w 0)) in
      next :: schedule count' (tl w ++ [next])
  end.

Record regs : Set := Regs { ra : N; rb : N; rc : N; rd : N;
                            re : N; rf : N; rg : N; rh : N }.

Definition round (s : regs) (kw : N * N) : regs :=
  let t1 := add32 (add32 (add32 (rh s) (bsig1 (re s)))
                         (add32 (Ch (re s) (rf s) (rg s)) (fst kw)))
                  (snd kw) in
  let t2 := add32 (bsig0 (ra s)) (Maj (ra s) (rb s) (rc s)) in
  Regs (add32 t1 t2) (ra s) (rb s) (rc s)
       (add32 (rd s) t1) (re s) (rf s) (rg s).

Definition compress (h : regs) (block : list N) : regs :=
  let w := block ++ schedule 48 block in
  let s := fold_left round (combine K w) h in
  Regs (add32 (ra h) (ra s)) (add32 (rb h) (rb s))
       (add32 (rc h) (rc s)) (add32 (rd h) (rd s))
       (add32 (re h) (re s)) (add32 (rf h) (rf s))
       (add32 (rg h) (rg s)) (add32 (rh h) (rh s)).

Fixpoint blocks (fuel : nat) (ws : list N) (h : regs) : regs :=
  match fuel, ws with
  | S fuel', _ :: _ => blocks fuel' (skipn 16 ws) (compress h (firstn 16 ws))
  | _, _ => h
  end.

Definition init : regs :=
  Regs (nth 0 H0 0) (nth 1 H0 0) (nth 2 H0 0) (nth 3 H0 0)
       (nth 4 H0 0) (nth 5 H0 0) (nth 6 H0 0) (nth 7 H0 0).

Definition digest_words (msg : string) : list N :=
  let bs := pad (map N_of_ascii (list_ascii_of_string msg)) in
  let ws := words_of (List.length bs) bs in
  let r := blocks (List.length ws) ws init in
  [ra r; rb r; rc r; rd r; re r; rf r; rg r; rh r].

Definition hex_char (n : N) : ascii :=
  match n with
  | 0 => "0" | 1 => "1" | 2 => "2" | 3 => "3" | 4 => "4" | 5 => "5"
  | 6 => "6" | 7 => "7" | 8 => "8" | 9 => "9" | 10 => "a" | 11 => "b"
  | 12 => "c" | 13 => "d" | 14 => "e" | _ => "f"
  end%char.

(** [count] hexadecimal digits of [n], most significant first. *)
Fixpoint hex_digits (count : nat) (n : N) : string :=
  match count with
  | O => EmptyString
  | S count' =>
      String (hex_char (N.land (N.shiftr n (4 * N.of_nat count')) 15))
             (hex_digits count' n)
  end.

(** [hashlib.sha256(s.encode()).hexdigest()]. *)
Definition hexdigest (msg : string) : string :=
  String.concat "" (map (hex_digits 8) (digest_words msg)).

(** [int(hashlib.sha256(s.encode()).hexdigest(), 16)]. *)
Definition digest_int (msg : string) : Z :=
  Z.of_N (fold_left (fun acc w => N.shiftl acc 32 + w) (digest_words msg) 0).

End SHA256.

(** * The JSON codec of the Python standard library ([json.loads],
      [json.dumps]) *)

Module Json.
Import Py.

(** A Python [float]: a finite value, as the rational that the double
    equals, or one of the three special values. *)
Inductive pyfloat : Set :=
| Finite (q : Q)
| NaN
| PosInf
| NegInf.

(** What [json.loads] builds: [None], [bool], [int], [float], [str],
    [list] and [dict] with string keys. *)
#[warnings="-register-all"] Inductive value : Set :=
| JNull
| JBool (b : bool)
| JInt (z : Z)
| JFloat (f : pyfloat)
| JStr (s : string)
| JArr (items : list value)
| JObj (members : list (string * value)).

Inductive result : Set :=
| Parsed (v : value) (rest : string)
| Invalid
| OutOfFuel.

Definition code (c : ascii) : N := N_of_ascii c.

Definition is_ws (c : ascii) : bool :=
  let n := code c in
  ((n =? 32) || (n =? 9) || (n =? 10) || (n =? 13))%N.

Fixpoint skip_ws (s : string) : string :=
  match s with
  | String c r => if is_ws c then skip_ws r else s
  | EmptyString => s
  end.

Fixpoint strip_prefix (p s : string) : option string :=
  match p, s with
  | EmptyString, _ => Some s
  | String a p', String b s' =>
      if Ascii.eqb a b then strip_prefix p' s' else None
  | _, _ => None
  end.

(** ** Strings *)

Definition hex_val (c : ascii) : option N :=
  let n := code c in
  if ((48 <=? n) && (n <=? 57))%N then Some (n - 48)%N
  else if ((97 <=? n) && (n <=? 102))%N then Some (n - 87)%N
  else if ((65 <=? n) && (n <=? 70))%N then Some (n - 55)%N
  else None.

Definition hex4 (a b c d : ascii) : option N :=
  match hex_val a, hex_val b, hex_val c, hex_val d with
  | Some x, Some y, Some z, Some w => Some (4096 * x + 256 * y + 16 * z + w)%N
  | _, _, _, _ => None
  end.

Definition chr (n : N) : ascii := ascii_of_N n.

(** UTF-8 bytes of a code point (a lone surrogate takes the three-byte
    form). *)
Definition utf8_encode (cp : N) : string :=
  (if cp <? 0x80 then String (chr cp) ""
   else if cp <? 0x800 then
     String (chr (0xc0 + cp / 64)) (String (chr (0x80 + cp mod 64)) "")
   else if cp <? 0x10000 then
     String (chr (0xe0 + cp / 4096))
       (String (chr (0x80 + (cp / 64) mod 64))
          (String (chr (0x80 + cp mod 64)) ""))
   else
     String (chr (0xf0 + cp / 262144))
       (String (chr (0x80 + (cp / 4096) mod 64))
          (String (chr (0x80 + (cp / 64) mod 64))
             (String (chr (0x80 + cp mod 64)) ""))))%N.

Definition is_high (u : N) : bool := ((0xd800 <=? u) && (u <=? 0xdbff))%N.
Definition is_low (u : N) : bool := ((0xdc00 <=? u) && (u <=? 0xdfff))%N.
Definition join_surrogates (u1 u2 : N) : N :=
  (0x10000 + ((u1 - 0xd800) * 1024 + (u2 - 0xdc00)))%N.

Definition simple_escape (e : ascii) : option ascii :=
  let n := code e in
  (if n =? 34 then Some (chr 34)
   else if n =? 92 then Some (chr 92)
   else if n =? 47 then Some (chr 47)
   else if n =? 98 then Some (chr 8)
   else if n =? 102 then Some (chr 12)
   else if n =? 110 then Some (chr 10)
   else if n =? 114 then Some (chr 13)
   else if n =? 116 then Some (chr 9)
   else None)%N.

Definition prepend (p : string) (r : option (string * string))
  : option (string * string) :=
  match r with
  | Some (body, rest) => Some (p ++ body, rest)
  | None => None
  end.

(** The text of a string literal from just after its opening quote:
    the decoded content and what follows the closing quote. *)
Fixpoint parse_string_body (s : string) : option (string * string) :=
  match s with
  | EmptyString => None
  | String c r =>
      if (code c =? 34)%N then Some (EmptyString, r)
      else if (code c =? 92)%N then
        match r with
        | EmptyString => None
        | String e r1 =>
            if (code e =? 117)%N then
              match r1 with
              | String a (String b (String c' (String d r2))) =>
                  match hex4 a b c' d with
                  | None => None
                  | Some u1 =>
                      match r2 with
                      | String b1 (String b2 (String a2 (String b2'
                          (String c2 (String d2 r4))))) =>
                          if is_high u1 && (code b1 =? 92)%N
                             && (code b2 =? 117)%N
                          then
                            match hex4 a2 b2' c2 d2 with
                            | None => None
                            | Some u2 =>
                                if is_low u2
                                then prepend
                                       (utf8_encode (join_surrogates u1 u2))
                                       (parse_string_body r4)
                                else prepend (utf8_encode u1)
                                             (parse_string_body r2)
                            end
                          else prepend (utf8_encode u1) (parse_string_body r2)
                      | _ => prepend (utf8_encode u1) (parse_string_body r2)
                      end
                  end
              | _ => None
              end
            else
              match simple_escape e with
              | Some x => prepend (String x "") (parse_string_body r1)
              | None => None
              end
        end
      else if (code c <? 32)%N then None
      else prepend (String c "") (parse_string_body r)
  end.

(** ** Numbers: an optional minus sign, an integer part without a
    leading zero, an optional fraction and an optional exponent *)

Definition signed (neg : bool) (n : N) : Z :=
  if neg then (- Z.of_N n)%Z else Z.of_N n.

(** [floor(log2(a))] for a positive rational. *)
Definition binade (a : Q) : Z :=
  let e := (Z.log2 (Qnum a) - Z.log2 (Zpos (Qden a)))%Z in
  if Qle_bool (Qpower 2 e) a then e else (e - 1)%Z.

(** The nearest integer, a tie going to the even one. *)
Definition round_even (q : Q) : Z :=
  let f := Qfloor q in
  match ((q - inject_Z f) ?= (1 # 2))%Q with
  | Lt => f
  | Gt => (f + 1)%Z
  | Eq => if Z.even f then f else (f + 1)%Z
  end.

(** The [float] that a real number is rounded to: the nearest number
    with a significand of 53 bits and an exponent of at least -1074
    for its last bit, a tie going to the even significand; an infinity
    from [2**1024] on. *)
Definition nearest_double (q : Q) : pyfloat :=
  if Qeq_bool q 0 then Finite 0
  else
    let a := if Qle_bool 0 q then q else - q in
    let last := Z.max (binade a - 52) (-1074) in
    let v := Qred (inject_Z (round_even (a / Qpower 2 last)) * Qpower 2 last) in
    if Qle_bool (Qpower 2 1024) v
    then if Qle_bool 0 q then PosInf else NegInf
    else Finite (if Qle_bool 0 q then v else Qred (- v)).

Definition parse_number (s : string) : option (value * string) :=
  let '(neg, s1) :=
    match s with
    | String c r => if (code c =? 45)%N then (true, r) else (false, s)
    | EmptyString => (false, s)
    end in
  match s1 with
  | EmptyString => None
  | String d r =>
      if negb (is_digit d) then None
      else
        let '(ip, s2) :=
          if (code d =? 48)%N then (String d "", r) else span_digits s1 in
        let '(frac, s3) :=
          match s2 with
          | String p r2 =>
              if (code p =? 46)%N
              then let (fd, t) := span_digits r2 in
                   match fd with
                   | EmptyString => (None, s2)
                   | _ => (Some fd, t)
                   end
              else (None, s2)
          | EmptyString => (None, s2)
          end in
        let '(ex, s4) :=
          match s3 with
          | String e r3 =>
              if ((code e =? 101) || (code e =? 69))%N
              then
                let '(eneg, r4) :=
                  match r3 with
                  | String g r5 =>
                      if (code g =? 43)%N then (false, r5)
                      else if (code g =? 45)%N then (true, r5)
                      else (false, r3)
                  | EmptyString => (false, r3)
                  end in
                let (ed, t) := span_digits r4 in
                match ed with
                | EmptyString => (None, s3)
                | _ => (Some (signed eneg (digits_val 0 ed)), t)
                end
              else (None, s3)
          | EmptyString => (None, s3)
          end in
        match frac, ex with
        | None, None => Some (JInt (signed neg (digits_val 0 ip)), s4)
        | _, _ =>
            let fd := match frac with Some f => f | None => EmptyString end in
            let e10 := match ex with Some e => e | None => 0%Z end in
            let mant := signed neg (digits_val 0 (ip ++ fd)) in
            Some (JFloat (nearest_double
                    (inject_Z mant
                     * Qpower (10 # 1) (e10 - Z.of_nat (String.length fd)))),
                  s4)
        end
  end.

(** ** Values *)

Definition literal (s : string) : option (value * string) :=
  match strip_prefix "null" s with
  | Some r => Some (JNull, r)
  | None =>
  match strip_prefix "true" s with
  | Some r => Some (JBool true, r)
  | None =>
  match strip_prefix "false" s with
  | Some r => Some (JBool false, r)
  | None =>
  match parse_number s with
  | Some vr => Some vr
  | None =>
  match strip_prefix "NaN" s with
  | Some r => Some (JFloat NaN, r)
  | None =>
  match strip_prefix "Infinity" s with
  | Some r => Some (JFloat PosInf, r)
  | None =>
  match strip_prefix "-Infinity" s with
  | Some r => Some (JFloat NegInf, r)
  | None => None
  end end end end end end end.

Fixpoint parse_value (fuel : nat) (s : string) : result :=
  match fuel with
  | O => OutOfFuel
  | S fuel' =>
      match s with
      | EmptyString => Invalid
      | String c r =>
          if (code c =? 34)%N then
            match parse_string_body r with
            | Some (body, rest) => Parsed (JStr body) rest
            | None => Invalid
            end
          else if (code c =? 123)%N then
            match skip_ws r with
            | EmptyString => Invalid
            | String c1 r1 =>
                if (code c1 =? 125)%N then Parsed (JObj []) r1
                else if (code c1 =? 34)%N then parse_members fuel' r1 []
                else Invalid
            end
          else if (code c =? 91)%N then
            match skip_ws r with
            | EmptyString => Invalid
            | String c1 r1 =>
                if (code c1 =? 93)%N then Parsed (JArr []) r1
                else parse_elements fuel' (String c1 r1) []
            end
          else
            match literal s with
            | Some (v, rest) => Parsed v rest
            | None => Invalid
            end
      end
  end

with parse_elements (fuel : nat) (s : string) (acc : list value) : result :=
  match fuel with
  | O => OutOfFuel
  | S fuel' =>
      match parse_value fuel' s with
      | Parsed v r =>
          match skip_ws r with
          | EmptyString => Invalid
          | String c1 r1 =>
              if (code c1 =? 93)%N then Parsed (JArr (rev (v :: acc))) r1
              else if (code c1 =? 44)%N
              then parse_elements fuel' (skip_ws r1) (v :: acc)
              else Invalid
          end
      | other => other
      end
  end

(** [s] starts just after the opening quote of the next key. *)
with parse_members (fuel : nat) (s : string) (acc : dict value) : result :=
  match fuel with
  | O => OutOfFuel
  | S fuel' =>
      match parse_string_body s with
      | None => Invalid
      | Some (k, r) =>
          match skip_ws r with
          | EmptyString => Invalid
          | String c1 r1 =>
              if negb (code c1 =? 58)%N then Invalid
              else
                match parse_value fuel' (skip_ws r1) with
                | Parsed v r2 =>
                    match skip_ws r2 with
                    | EmptyString => Invalid
                    | String c2 r3 =>
                        if (code c2 =? 125)%N
                        then Parsed (JObj (dict_set acc k v)) r3
                        else if (code c2 =? 44)%N then
                          match skip_ws r3 with
                          | EmptyString => Invalid
                          | String c3 r4 =>
                              if (code c3 =? 34)%N
                              then parse_members fuel' r4 (dict_set acc k v)
                              else Invalid
                          end
                        else Invalid
                    end
                | other => other
                end
          end
      end
  end.

(** [json.loads(s)]: [None] stands for [json.JSONDecodeError].  Every
    recursive call is made after at least one character was consumed or
    one level was entered, so twice the length of the text bounds the
    recursion. *)
Definition loads (s : string) : option value :=
  match parse_value (2 * String.length s + 2) (skip_ws s) with
  | Parsed v rest =>
      match skip_ws rest with
      | EmptyString => Some v
      | _ => None
      end
  | _ => None
  end.

(** ** [json.dumps(d, sort_keys=True)] for a dict of [str] and [int] *)

Inductive scalar : Set :=
| SStr (s : string)
| SInt (z : Z).

Definition to_value (x : scalar) : value :=
  match x with
  | SStr s => JStr s
  | SInt z => JInt z
  end.

Definition cont (c : ascii) : N := (code c mod 64)%N.

(** Code points of a UTF-8 text. *)
Fixpoint utf8_decode (s : string) : list N :=
  match s with
  | EmptyString => []
  | String c r =>
      let n := code c in
      if (n <? 0xc0)%N then n :: utf8_decode r
      else if (n <? 0xe0)%N then
        match r with
        | String c1 r1 => ((n - 0xc0) * 64 + cont c1)%N :: utf8_decode r1
        | _ => n :: utf8_decode r
        end
      else if (n <? 0xf0)%N then
        match r with
        | String c1 (String c2 r2) =>
            ((n - 0xe0) * 4096 + cont c1 * 64 + cont c2)%N :: utf8_decode r2
        | _ => n :: utf8_decode r
        end
      else
        match r with
        | String c1 (String c2 (String c3 r3)) =>
            ((n - 0xf0) * 262144 + cont c1 * 4096 + cont c2 * 64 + cont c3)%N
              :: utf8_decode r3
        | _ => n :: utf8_decode r
        end
  end.

Definition u_escape (n : N) : string :=
  String (chr 92) (String "u" (SHA256.hex_digits 4 n)).

(** [ensure_ascii] escaping of one code point. *)
Definition escape_cp (n : N) : string :=
  (if n =? 34 then String (chr 92) (String (chr 34) "")
   else if n =? 92 then String (chr 92) (String (chr 92) "")
   else if n =? 10 then String (chr 92) "n"
   else if n =? 13 then String (chr 92) "r"
   else if n =? 9 then String (chr 92) "t"
   else if n =? 12 then String (chr 92) "f"
   else if n =? 8 then String (chr 92) "b"
   else if (32 <=? n) && (n <=? 126) then String (chr n) ""
   else if n <? 0x10000 then u_escape n
   else u_escape (0xd800 + (n - 0x10000) / 1024)
        ++ u_escape (0xdc00 + (n - 0x10000) mod 1024))%N.

Definition dumps_str (s : string) : string :=
  String (chr 34)
    (String.concat "" (map escape_cp (utf8_decode s)) ++ String (chr 34) "").

Definition dumps_scalar (x : scalar) : string :=
  match x with
  | SStr s => dumps_str s
  | SInt z => str_of_Z z
  end.

Fixpoint insert_sorted {V : Type} (kv : string * V) (l : list (string * V))
  : list (string * V) :=
  match l with
  | [] => [kv]
  | kv' :: r =>
      if String.ltb (fst kv) (fst kv') then kv :: l
      else kv' :: insert_sorted kv r
  end.

(** [sorted(d.items())]: stable, ascending by key. *)
Definition sort_items {V : Type} (d : dict V) : list (string * V) :=
  fold_right insert_sorted [] d.

Definition dumps_member (kv : string * scalar) : string :=
  dumps_str (fst kv) ++ ": " ++ dumps_scalar (snd kv).

Definition dumps_sorted (d : dict scalar) : string :=
  "{" ++ String.concat ", " (map dumps_member (sort_items d)) ++ "}".

(** ** Operations of the decoded values used by the callers *)

(** [x.get(key, default)]: only a [dict] has the method. *)
Definition get (x : value) (key : string) (default : value) : outcome value :=
  match x with
  | JObj d =>
      Returned (match dict_get d key with Some v => v | None => default end)
  | _ => Raised AttributeError
  end.

(** The number a value stands for in arithmetic ([bool] is an [int]);
    [None] stands for the [TypeError] of the other types. *)
Definition number (x : value) : option pyfloat :=
  match x with
  | JInt z => Some (Finite (inject_Z z))
  | JBool b => Some (Finite (if b then 1 else 0))
  | JFloat f => Some f
  | _ => None
  end.

(** [float(z)], the conversion that arithmetic with a [float] applies
    to an [int]: exact up to [2**53], rounded beyond, and an
    [OverflowError] when no finite [float] is near enough. *)
Definition float_of_int (z : Z) : outcome pyfloat :=
  if (Z.abs z <=? 2 ^ 53)%Z then Returned (Finite (inject_Z z))
  else
    match nearest_double (inject_Z z) with
    | Finite q => Returned (Finite q)
    | _ => Raised OverflowError
    end.

(** The operand of an arithmetic operation with a [float] ([bool] is
    an [int]); the other types raise [TypeError]. *)
Definition to_float (x : value) : outcome pyfloat :=
  match x with
  | JInt z => float_of_int z
  | JBool b => Returned (Finite (if b then 1 else 0))
  | JFloat f => Returned f
  | _ => Raised TypeError
  end.

(** [a - x] for a finite float [a]; the difference of two finite
    numbers is taken exactly. *)
Definition rsub (a : Q) (x : value) : outcome pyfloat :=
  bind (to_float x) (fun f =>
    match f with
    | Finite q => Returned (Finite (a - q))
    | NaN => Returned NaN
    | PosInf => Returned NegInf
    | NegInf => Returned PosInf
    end).

(** [f > n] and [f >= n] against an [int]. *)
Definition gt_int (f : pyfloat) (n : Z) : bool :=
  match f with
  | Finite q => negb (Qle_bool q (inject_Z n))
  | PosInf => true
  | NaN | NegInf => false
  end.

Definition ge_int (x : value) (n : Z) : outcome bool :=
  match x with
  | JInt z => Returned (n <=? z)%Z
  | JBool b => Returned (n <=? (if b then 1 else 0))%Z
  | JFloat (Finite q) => Returned (Qle_bool (inject_Z n) q)
  | JFloat PosInf => Returned true
  | JFloat _ => Returned false
  | _ => Raised TypeError
  end.

(** Truth value of a decoded object. *)
Definition truthy (x : value) : bool :=
  match x with
  | JNull => false
  | JBool b => b
  | JInt z => negb (z =? 0)%Z
  | JFloat (Finite q) => negb (Qeq_bool q 0)
  | JFloat _ => true
  | JStr s => negb (String.eqb s "")
  | JArr l => match l with [] => false | _ => true end
  | JObj d => match d with [] => false | _ => true end
  end.

End Json.

(** * Contribution proofs ([ContributionProof] in [p2p.py]) *)

Module ContributionProof.
Import Py Json.

(** [secrets.token_hex(n)]: [n] random bytes, drawn here from [entropy],
    as [2 n] hexadecimal digits. *)
Definition token_hex (n : nat) (entropy : N) : string :=
  SHA256.hex_digits (2 * n) entropy.

Definition counter (contribution_data : dict Z) (key : string) : Z :=
  match dict_get contribution_data key with
  | Some z => z
  | None => 0%Z
  end.

Definition proof_record (peer_id : string) (contribution_data : dict Z)
           (now : Q) (entropy : N) : dict scalar :=
  [ ("peer_id_hash", SStr (take 16 (SHA256.hexdigest peer_id)));
    ("traceroutes", SInt (counter contribution_data "traceroute_count"));
    ("uptime_hours",
      SInt (counter contribution_data "uptime_seconds" / 3600)%Z);
    ("timestamp", SInt (int_of_Q now));
    ("nonce", SStr (token_hex 8 entropy)) ].

Definition signature_of (proof_string : string) : string :=
  take 32 (SHA256.hexdigest proof_string).

Definition generate (peer_id : string) (contribution_data : dict Z)
           (now : Q) (entropy : N) : string :=
  let proof_data := proof_record peer_id contribution_data now entropy in
  let proof_string := dumps_sorted proof_data in
  let signature := signature_of proof_string in
  proof_string ++ "|" ++ signature.

Definition verify (now : Q) (proof : string)
  : outcome (bool * option value) :=
  match rsplit1 "|" proof with
  | None => Returned (false, None)
  | Some (proof_string, signature) =>
      let expected_sig := signature_of proof_string in
      if negb (String.eqb signature expected_sig)
      then Returned (false, None)
      else
        match loads proof_string with
        | None => Returned (false, None)
        | Some proof_data =>
            bind (get proof_data "timestamp" (JInt 0)) (fun ts =>
            bind (rsub now ts) (fun age =>
            if gt_int age 86400
            then Returned (false, None)
            else Returned (true, Some proof_data)))
        end
  end.

Definition is_contributing (now : Q) (proof : string) (min_traceroutes : Z)
  : outcome bool :=
  bind (verify now proof) (fun r =>
    match r with
    | (true, Some data) =>
        if negb (truthy data) then Returned false
        else bind (get data "traceroutes" (JInt 0)) (fun t =>
               ge_int t min_traceroutes)
    | _ => Returned false
    end).

End ContributionProof.

(** * Geohash utilities ([sharding.py]); a [float] coordinate is the
      rational it denotes, and the bisection steps are taken exactly, as
      they are in [float] up to precision 18 *)

Module Geohash.
Import Py.

Definition BASE32 : string := "0123456789bcdefghjkmnpqrstuvwxyz".

(** [BASE32[bits]]; [bits] stays below 32 on every path. *)
Definition base32_at (bits : N) : ascii :=
  match String.get (N.to_nat bits) BASE32 with
  | Some c => c
  | None => "000"%char
  end.

Definition lower (c : ascii) : ascii :=
  let n := N_of_ascii c in
  if ((65 <=? n) && (n <=? 90))%N then ascii_of_N (n + 32) else c.

(** [BASE32.index(c)]; [None] stands for [ValueError]. *)
Fixpoint index_in (c : ascii) (s : string) (pos : N) : option N :=
  match s with
  | EmptyString => None
  | String x r => if Ascii.eqb c x then Some pos else index_in c r (pos + 1)%N
  end.

Definition midpoint (range : Q * Q) : Q := (fst range + snd range) / 2.

(** One bisection: the half of [range] that holds [x], and whether it
    is the upper one. *)
Definition bisect (x : Q) (range : Q * Q) : bool * (Q * Q) :=
  let mid := midpoint range in
  if Qle_bool mid x then (true, (mid, snd range)) else (false, (fst range, mid)).

(** The half of [range] named by [bit]. *)
Definition narrow (bit : bool) (range : Q * Q) : Q * Q :=
  let mid := midpoint range in
  if bit then (mid, snd range) else (fst range, mid).

Record encoder : Set := Encoder {
  geohash : string;
  bits : N;
  bit_count : N;
  is_lon : bool;
  lat_range : Q * Q;
  lon_range : Q * Q
}.

Definition push_bit (bits : N) (b : bool) : N :=
  if b then N.lor (N.shiftl bits 1) 1 else N.shiftl bits 1.

(** Body of the [while] loop of [encode_geohash]. *)
Definition encode_step (lat lon : Q) (st : encoder) : encoder :=
  let '(b, lat_range', lon_range') :=
    if is_lon st
    then let (b, r) := bisect lon (lon_range st) in (b, lat_range st, r)
    else let (b, r) := bisect lat (lat_range st) in (b, r, lon_range st) in
  let bits' := push_bit (bits st) b in
  let bit_count' := (bit_count st + 1)%N in
  if (bit_count' =? 5)%N
  then Encoder (geohash st ++ String (base32_at bits') "") 0 0
               (negb (is_lon st)) lat_range' lon_range'
  else Encoder (geohash st) bits' bit_count'
               (negb (is_lon st)) lat_range' lon_range'.

Fixpoint encode_loop (fuel : nat) (lat lon : Q) (precision : Z) (st : encoder)
  : encoder :=
  match fuel with
  | O => st
  | S fuel' =>
      if (Z.of_nat (String.length (geohash st)) <? precision)%Z
      then encode_loop fuel' lat lon precision (encode_step lat lon st)
      else st
  end.

Definition encode_init : encoder :=
  Encoder "" 0 0 true (-90, 90) (-180, 180).

(** [encode_geohash(lat, lon, precision)]: five turns of the loop per
    character. *)
Definition encode_geohash (lat lon : Q) (precision : Z) : string :=
  geohash (encode_loop (5 * Z.to_nat precision) lat lon precision encode_init).

Record decoder : Set := Decoder {
  d_is_lon : bool;
  d_lat_range : Q * Q;
  d_lon_range : Q * Q
}.

Definition decode_bit (st : decoder) (bit : bool) : decoder :=
  if d_is_lon st
  then Decoder false (d_lat_range st) (narrow bit (d_lon_range st))
  else Decoder true (narrow bit (d_lat_range st)) (d_lon_range st).

(** The bits [(idx >> i) & 1] for [i] from 4 down to 0. *)
Definition bits_of (idx : N) : list bool :=
  map (fun i => N.testbit idx i) [4; 3; 2; 1; 0]%N.

Definition decode_char (st : option decoder) (c : ascii) : option decoder :=
  match st with
  | None => None
  | Some st =>
      match index_in (lower c) BASE32 0 with
      | None => None
      | Some idx => Some (fold_left decode_bit (bits_of idx) st)
      end
  end.

Definition decode_init : decoder := Decoder true (-90, 90) (-180, 180).

(** [decode_geohash(geohash)]: the centre [(lat, lon)] of the cell;
    [None] stands for the [ValueError] of a character outside
    [BASE32]. *)
Definition decode_geohash (geohash : string) : option (Q * Q) :=
  match fold_left decode_char (list_ascii_of_string geohash)
                  (Some decode_init) with
  | None => None
  | Some st => Some (midpoint (d_lat_range st), midpoint (d_lon_range st))
  end.

Definition pow2 (n : Z) : Q := inject_Z (2 ^ n).

Definition wrap_lon (nlon : Q) : Q :=
  if negb (Qle_bool nlon 180) then nlon - 360
  else if negb (Qle_bool (-180) nlon) then nlon + 360
  else nlon.

(** [min(a, b)] and [max(a, b)]: the first argument wins a tie. *)
Definition min (a b : Q) : Q := if negb (Qle_bool a b) then b else a.
Definition max (a b : Q) : Q := if negb (Qle_bool b a) then b else a.

Definition clamp_lat (nlat : Q) : Q := max (-90) (min 90 nlat).

Definition get_geohash_neighbors (geohash : string) : option (list string) :=
  match decode_geohash geohash with
  | None => None
  | Some (lat, lon) =>
      let precision := Z.of_nat (String.length geohash) in
      let lat_delta := 180 / pow2 (precision * 5 / 2) in
      let lon_delta := 360 / pow2 ((precision * 5 + 1) / 2) in
      Some
        (flat_map (fun dlat =>
           flat_map (fun dlon =>
             if Qeq_bool dlat 0 && Qeq_bool dlon 0 then []
             else
               let nlat := lat + dlat in
               let nlon := lon + dlon in
               [encode_geohash (clamp_lat nlat) (wrap_lon nlon) precision])
             [- lon_delta; 0; lon_delta])
           [- lat_delta; 0; lat_delta])
  end.

End Geohash.

(** * Routing in the keyspace ([DHTRouter]) *)

Module DHTRouter.
Import Py.

Record t : Set := Router {
  _node_id : string;
  _node_id_int : Z
}.

Definition init (node_id : string) : t :=
  Router node_id (SHA256.digest_int node_id).

Definition get_distance (self : t) (key : string) : Z :=
  let key_int := SHA256.digest_int key in
  Z.lxor (_node_id_int self) key_int.

Definition should_store (self : t) (shard_key : string)
           (total_nodes replication : Z) : bool :=
  if (total_nodes <=? replication)%Z then true
  else
    let distance := get_distance self shard_key in
    let threshold := (2 ^ 256 * replication / Z.max total_nodes 1)%Z in
    (distance <? threshold)%Z.

Fixpoint insert_by {A : Type} (key : A -> Z) (x : A) (l : list A) : list A :=
  match l with
  | [] => [x]
  | y :: r => if (key x <=? key y)%Z then x :: l else y :: insert_by key x r
  end.

(** [sorted(l, key=key)]: ascending and stable. *)
Definition sorted {A : Type} (key : A -> Z) (l : list A) : list A :=
  fold_right (insert_by key) [] l.

Definition peer_distance (key_int : Z) (peer : string * string) : Z :=
  let peer_int := SHA256.digest_int (fst peer) in
  Z.lxor peer_int key_int.

Definition get_responsible_nodes (self : t) (shard_key : string)
           (all_peers : list (string * string)) (replication : Z)
  : list (string * string) :=
  match all_peers with
  | [] => []
  | _ =>
      let key_int := SHA256.digest_int shard_key in
      let sorted_peers := sorted (peer_distance key_int) all_peers in
      slice_to replication sorted_peers
  end.

End DHTRouter.

(** * Sharded storage ([ShardedStorage]) *)

Module Sharding.
Import Py.

Definition GEOHASH_PRECISION_REGION : nat := 3.

Inductive DataType : Set :=
| TRACEROUTE
| PEER_LOCATION
| INFRASTRUCTURE
| CELL_TOWER
| MOBILE_TRACE.

Definition DataType_value (ty : DataType) : string :=
  match ty with
  | TRACEROUTE => "traceroute"
  | PEER_LOCATION => "peer"
  | INFRASTRUCTURE => "infrastructure"
  | CELL_TOWER => "cell_tower"
  | MOBILE_TRACE => "mobile_trace"
  end.

Definition DataType_eqb (a b : DataType) : bool :=
  match a, b with
  | TRACEROUTE, TRACEROUTE
  | PEER_LOCATION, PEER_LOCATION
  | INFRASTRUCTURE, INFRASTRUCTURE
  | CELL_TOWER, CELL_TOWER
  | MOBILE_TRACE, MOBILE_TRACE => true
  | _, _ => false
  end.

Record ShardedData : Set := {
  data_id : string;
  data_type : DataType;
  geohash : string;
  data : Json.value;
  timestamp : Q;
  ttl : Z;
  replication_factor : Z;
  is_permanent : bool;
  source_peer_id : string
}.

(** The property [is_expired], read at clock value [now]. *)
Definition is_expired (now : Q) (d : ShardedData) : bool :=
  if is_permanent d then false
  else negb (Qle_bool now (timestamp d + inject_Z (ttl d))).

Definition shard_key (d : ShardedData) : string :=
  let prefix :=
    if String.eqb (geohash d) "" then "global"
    else take GEOHASH_PRECISION_REGION (geohash d) in
  prefix ++ ":" ++ DataType_value (data_type d).

Record Stats : Set := {
  local_items : nat;
  infrastructure_items : nat;
  shards_responsible : nat;
  shards_viewing : nat
}.

(** The fields of a [ShardedStorage] that the operations below read or
    write.  Both caches are keyed by [data_id].  [delivered] records
    the calls made to [on_data_received], oldest first, and
    [_on_data_received] tells whether a callback was given. *)
Record ShardedStorage : Type := {
  _peer_id : string;
  _on_data_received : bool;
  _router : DHTRouter.t;
  _local_data : dict ShardedData;
  _viewed_shards : list string;
  _infrastructure_cache : dict ShardedData;
  _peer_addresses : dict string;
  _stats : Stats;
  delivered : list ShardedData
}.

Definition init (peer_id : string) (on_data_received : bool) : ShardedStorage :=
  {| _peer_id := peer_id;
     _on_data_received := on_data_received;
     _router := DHTRouter.init peer_id;
     _local_data := [];
     _viewed_shards := [];
     _infrastructure_cache := [];
     _peer_addresses := [];
     _stats := {| local_items := 0; infrastructure_items := 0;
                  shards_responsible := 0; shards_viewing := 0 |};
     delivered := [] |}.

Definition with_local (self : ShardedStorage) (l : dict ShardedData)
  : ShardedStorage :=
  {| _peer_id := _peer_id self;
     _on_data_received := _on_data_received self;
     _router := _router self;
     _local_data := l;
     _viewed_shards := _viewed_shards self;
     _infrastructure_cache := _infrastructure_cache self;
     _peer_addresses := _peer_addresses self;
     _stats := _stats self;
     delivered := delivered self |}.

Definition with_infrastructure (self : ShardedStorage) (c : dict ShardedData)
  : ShardedStorage :=
  {| _peer_id := _peer_id self;
     _on_data_received := _on_data_received self;
     _router := _router self;
     _local_data := _local_data self;
     _viewed_shards := _viewed_shards self;
     _infrastructure_cache := c;
     _peer_addresses := _peer_addresses self;
     _stats := _stats self;
     delivered := delivered self |}.

Definition with_stats (self : ShardedStorage) (st : Stats) : ShardedStorage :=
  {| _peer_id := _peer_id self;
     _on_data_received := _on_data_received self;
     _router := _router self;
     _local_data := _local_data self;
     _viewed_shards := _viewed_shards self;
     _infrastructure_cache := _infrastructure_cache self;
     _peer_addresses := _peer_addresses self;
     _stats := st;
     delivered := delivered self |}.

Definition with_viewed (self : ShardedStorage) (v : list string)
  : ShardedStorage :=
  {| _peer_id := _peer_id self;
     _on_data_received := _on_data_received self;
     _router := _router self;
     _local_data := _local_data self;
     _viewed_shards := v;
     _infrastructure_cache := _infrastructure_cache self;
     _peer_addresses := _peer_addresses self;
     _stats := _stats self;
     delivered := delivered self |}.

Definition with_delivered (self : ShardedStorage) (l : list ShardedData)
  : ShardedStorage :=
  {| _peer_id := _peer_id self;
     _on_data_received := _on_data_received self;
     _router := _router self;
     _local_data := _local_data self;
     _viewed_shards := _viewed_shards self;
     _infrastructure_cache := _infrastructure_cache self;
     _peer_addresses := _peer_addresses self;
     _stats := _stats self;
     delivered := l |}.

Definition update_peers (self : ShardedStorage) (peers : dict string)
  : ShardedStorage :=
  {| _peer_id := _peer_id self;
     _on_data_received := _on_data_received self;
     _router := _router self;
     _local_data := _local_data self;
     _viewed_shards := _viewed_shards self;
     _infrastructure_cache := _infrastructure_cache self;
     _peer_addresses := peers;
     _stats := _stats self;
     delivered := delivered self |}.

Definition set_local_items (st : Stats) (n : nat) : Stats :=
  {| local_items := n;
     infrastructure_items := infrastructure_items st;
     shards_responsible := shards_responsible st;
     shards_viewing := shards_viewing st |}.

Definition set_infrastructure_items (st : Stats) (n : nat) : Stats :=
  {| local_items := local_items st;
     infrastructure_items := n;
     shards_responsible := shards_responsible st;
     shards_viewing := shards_viewing st |}.

Definition set_shards_viewing (st : Stats) (n : nat) : Stats :=
  {| local_items := local_items st;
     infrastructure_items := infrastructure_items st;
     shards_responsible := shards_responsible st;
     shards_viewing := n |}.

Definition is_infrastructure_type (ty : DataType) : bool :=
  match ty with
  | INFRASTRUCTURE | CELL_TOWER => true
  | _ => false
  end.

(** [store(data)]: the new state and the returned flag. *)
Definition store (self : ShardedStorage) (data : ShardedData)
  : ShardedStorage * bool :=
  if is_permanent data || is_infrastructure_type (data_type data) then
    let cache := dict_set (_infrastructure_cache self) (data_id data) data in
    let self := with_infrastructure self cache in
    (with_stats self (set_infrastructure_items (_stats self) (List.length cache)),
     true)
  else
    let total_nodes := (Z.of_nat (List.length (_peer_addresses self)) + 1)%Z in
    if DHTRouter.should_store (_router self) (shard_key data) total_nodes
                              (replication_factor data)
    then
      let local := dict_set (_local_data self) (data_id data) data in
      let self := with_local self local in
      let self := with_stats self (set_local_items (_stats self) (List.length local)) in
      let self :=
        if _on_data_received self
        then with_delivered self (delivered self ++ [data])%list
        else self in
      (self, true)
    else (self, false).

(** [get(data_id)]. *)
Definition get (now : Q) (self : ShardedStorage) (id : string)
  : ShardedStorage * option ShardedData :=
  match dict_get (_infrastructure_cache self) id with
  | Some d => (self, Some d)
  | None =>
      match dict_get (_local_data self) id with
      | Some d =>
          if negb (is_expired now d) then (self, Some d)
          else (with_local self (dict_del (_local_data self) id), None)
      | None => (self, None)
      end
  end.

(** [cleanup_expired()]: the new state and the number of removed items. *)
Definition cleanup_expired (now : Q) (self : ShardedStorage)
  : ShardedStorage * nat :=
  let expired_ids :=
    map fst (filter (fun kv => is_expired now (snd kv)) (_local_data self)) in
  let local := fold_left (fun d id => dict_del d id) expired_ids (_local_data self) in
  let self := with_local self local in
  (with_stats self (set_local_items (_stats self) (List.length local)),
   List.length expired_ids).

(** A peer's answer to [GET /p2p/shard/query]: no usable answer (an
    exception or a status other than 200), or the items decoded before
    the reply ended ([complete]) or before [from_dict] raised. *)
Inductive reply : Set :=
| NoAnswer
| Items (items : list ShardedData) (complete : bool).

Definition network : Type := string -> string -> option DataType -> reply.

Definition type_matches (data_type : option DataType) (d : ShardedData) : bool :=
  match data_type with
  | None => true
  | Some ty => DataType_eqb (Sharding.data_type d) ty
  end.

Definition has_id (results : list ShardedData) (id : string) : bool :=
  existsb (fun r => String.eqb (data_id r) id) results.

(** The loop over the peers asked by [_fetch_from_network]. *)
Fixpoint ask_peers (net : network) (geohash_prefix : string)
         (data_type : option DataType) (peers : list (string * string))
         (results : list ShardedData) : list ShardedData :=
  match peers with
  | [] => results
  | (_, address) :: rest =>
      match net address geohash_prefix data_type with
      | NoAnswer => ask_peers net geohash_prefix data_type rest results
      | Items items complete =>
          let results := (results ++ items)%list in
          if complete
          then match results with
               | [] => ask_peers net geohash_prefix data_type rest results
               | _ => results
               end
          else ask_peers net geohash_prefix data_type rest results
      end
  end.

Definition _fetch_from_network (net : network) (self : ShardedStorage)
           (geohash_prefix : string) (data_type : option DataType)
  : list ShardedData :=
  let shard_key :=
    geohash_prefix ++ ":" ++
    match data_type with Some ty => DataType_value ty | None => "all" end in
  let all_peers := _peer_addresses self in
  let responsible :=
    DHTRouter.get_responsible_nodes (_router self) shard_key all_peers 3 in
  match responsible with
  | [] => []
  | _ => ask_peers net geohash_prefix data_type (slice_to 3 responsible) []
  end.

(** First loop of [get_by_geohash]: the scan of a snapshot of the
    transient cache. *)
Definition scan_local (now : Q) (geohash_prefix : string)
           (data_type : option DataType)
           (acc : dict ShardedData * list ShardedData) (d : ShardedData)
  : dict ShardedData * list ShardedData :=
  let (local, results) := acc in
  if is_expired now d then (dict_del local (data_id d), results)
  else if startswith (geohash d) geohash_prefix && type_matches data_type d
  then (local, results ++ [d])%list
  else (local, results).

(** Second loop: the permanent cache. *)
Definition scan_infrastructure (geohash_prefix : string)
           (data_type : option DataType)
           (results : list ShardedData) (d : ShardedData) : list ShardedData :=
  if startswith (geohash d) geohash_prefix && type_matches data_type d
     && negb (has_id results (data_id d))
  then (results ++ [d])%list
  else results.

(** Third loop: the merge of what the network returned. *)
Definition merge_fetched (acc : ShardedStorage * list ShardedData)
           (d : ShardedData) : ShardedStorage * list ShardedData :=
  let (self, results) := acc in
  if negb (has_id results (data_id d))
  then (fst (store self d), (results ++ [d])%list)
  else (self, results).

Definition set_add (x : string) (s : list string) : list string :=
  if existsb (String.eqb x) s then s else (s ++ [x])%list.

Definition get_by_geohash (now : Q) (net : network) (self : ShardedStorage)
           (geohash_prefix : string) (data_type : option DataType)
  : ShardedStorage * list ShardedData :=
  let (local, results) :=
    fold_left (scan_local now geohash_prefix data_type)
              (dict_values (_local_data self)) (_local_data self, []) in
  let self := with_local self local in
  let results :=
    fold_left (scan_infrastructure geohash_prefix data_type)
              (dict_values (_infrastructure_cache self)) results in
  let viewed := set_add geohash_prefix (_viewed_shards self) in
  let self := with_viewed self viewed in
  let self := with_stats self (set_shards_viewing (_stats self) (List.length viewed)) in
  if (List.length results <? 10)%nat
     && match _peer_addresses self with [] => false | _ => true end
  then
    let fetched := _fetch_from_network net self geohash_prefix data_type in
    fold_left merge_fetched fetched (self, results)
  else (self, results).

End Sharding.

(** * The bencode codec of the DHT client ([BitTorrentDHT] in
      [discovery.py]) *)

Module Bencode.
Import Py.

(** Hashable keys that the encoder accepts. *)
Inductive bkey : Set :=
| KInt (z : Z)
| KBytes (b : string)
| KStr (s : string).

(** The values the encoder has a branch for: [int], [bytes], [str],
    [list] and [dict]. *)
#[warnings="-register-all"] Inductive bval : Set :=
| BInt (z : Z)
| BBytes (b : string)
| BStr (s : string)
| BList (items : list bval)
| BDict (entries : list (bkey * bval)).

Definition key_value (k : bkey) : bval :=
  match k with
  | KInt z => BInt z
  | KBytes b => BBytes b
  | KStr s => BStr s
  end.

Definition key_eqb (a b : bkey) : bool :=
  match a, b with
  | KInt x, KInt y => (x =? y)%Z
  | KBytes x, KBytes y => String.eqb x y
  | KStr x, KStr y => String.eqb x y
  | _, _ => false
  end.

(** [a <= b] for two keys of one type; [None] stands for the
    [TypeError] of comparing keys of different types. *)
Definition key_leb (a b : bkey) : option bool :=
  match a, b with
  | KInt x, KInt y => Some (x <=? y)%Z
  | KBytes x, KBytes y => Some (String.leb x y)
  | KStr x, KStr y => Some (String.leb x y)
  | _, _ => None
  end.

Fixpoint insert_item {V : Type} (kv : bkey * V) (l : list (bkey * V))
  : option (list (bkey * V)) :=
  match l with
  | [] => Some [kv]
  | kv' :: r =>
      match key_leb (fst kv) (fst kv') with
      | None => None
      | Some true => Some (kv :: l)
      | Some false =>
          match insert_item kv r with
          | Some r' => Some (kv' :: r')
          | None => None
          end
      end
  end.

(** [sorted(items, key=lambda x: x[0])]. *)
Fixpoint sort_items {V : Type} (l : list (bkey * V)) : option (list (bkey * V)) :=
  match l with
  | [] => Some []
  | kv :: r =>
      match sort_items r with
      | Some r' => insert_item kv r'
      | None => None
      end
  end.

Definition same_kind (a b : bkey) : bool :=
  match key_leb a b with Some _ => true | None => false end.

Definition encode_bytes (b : string) : string :=
  str_of_N (N.of_nat (String.length b)) ++ ":" ++ b.

Definition encode_int (z : Z) : string := "i" ++ str_of_Z z ++ "e".

Definition encode_key (k : bkey) : string :=
  match k with
  | KInt z => encode_int z
  | KBytes b => encode_bytes b
  | KStr s => encode_bytes s
  end.

(** [_bencode_encode(data)].  The entries of a dict are encoded and
    then put in key order, which yields the bytes of encoding them in
    key order; a dict whose keys cannot be ordered raises, and no other
    exception can come from the values. *)
Fixpoint _bencode_encode (data : bval) : outcome string :=
  match data with
  | BInt z => Returned (encode_int z)
  | BBytes b => Returned (encode_bytes b)
  | BStr s => Returned (encode_bytes s)
  | BList items =>
      bind
        ((fix encode_items (l : list bval) : outcome string :=
            match l with
            | [] => Returned ""
            | x :: r =>
                bind (_bencode_encode x) (fun a =>
                bind (encode_items r) (fun b => Returned (a ++ b)))
            end) items)
        (fun body => Returned ("l" ++ body ++ "e"))
  | BDict entries =>
      bind
        ((fix encode_entries (l : list (bkey * bval))
            : outcome (list (bkey * string)) :=
            match l with
            | [] => Returned []
            | (k, v) :: r =>
                bind (_bencode_encode v) (fun a =>
                bind (encode_entries r) (fun b =>
                Returned ((k, encode_key k ++ a) :: b)))
            end) entries)
        (fun encoded =>
           match sort_items encoded with
           | Some items =>
               Returned ("d" ++ String.concat "" (map snd items) ++ "e")
           | None => Raised TypeError
           end)
  end.

(** ** Decoding *)

Definition is_space (c : ascii) : bool :=
  let n := N_of_ascii c in
  ((n =? 32) || ((9 <=? n) && (n <=? 13)))%N.

Fixpoint lstrip (s : string) : string :=
  match s with
  | String c r => if is_space c then lstrip r else s
  | EmptyString => s
  end.

Fixpoint all_space (s : string) : bool :=
  match s with
  | String c r => is_space c && all_space r
  | EmptyString => true
  end.

(** Digits with single underscores between them, then optional
    trailing white space. *)
Fixpoint int_digits (s : string) (acc : N) (after_digit : bool) : option N :=
  match s with
  | EmptyString => if after_digit then Some acc else None
  | String c r =>
      if is_digit c then int_digits r (10 * acc + digit_val c) true
      else if Ascii.eqb c "_" && after_digit then
        match r with
        | String c' _ => if is_digit c' then int_digits r acc false else None
        | EmptyString => None
        end
      else if is_space c && after_digit && all_space r then Some acc
      else None
  end.

(** [int(b)] for a [bytes] argument; [None] stands for [ValueError]. *)
Definition int_of_bytes (b : string) : option Z :=
  match lstrip b with
  | String c r =>
      if Ascii.eqb c "-" then option_map (fun n => (- Z.of_N n)%Z) (int_digits r 0 false)
      else if Ascii.eqb c "+" then option_map Z.of_N (int_digits r 0 false)
      else option_map Z.of_N (int_digits (String c r) 0 false)
  | EmptyString => None
  end.

(** [data.index(c, start)]; [None] stands for [ValueError]. *)
Fixpoint index_from (c : ascii) (start : nat) (data : string) : option nat :=
  match data with
  | EmptyString => None
  | String x r =>
      match start with
      | O => if Ascii.eqb x c then Some O
             else option_map S (index_from c O r)
      | S start' => option_map S (index_from c start' r)
      end
  end.

(** [data[a:b]] for [a <= b]. *)
Definition slice (a b : nat) (data : string) : string := substring a (b - a) data.

Inductive decoded : Set :=
| Decoded (v : bval) (idx : nat)
| Error (e : exn)
| OutOfFuel.

(** A decoded value used as a dict key. *)
Definition as_key (v : bval) : option bkey :=
  match v with
  | BInt z => Some (KInt z)
  | BBytes b => Some (KBytes b)
  | BStr s => Some (KStr s)
  | BList _ | BDict _ => None
  end.

(** [result[key] = value]. *)
Fixpoint entries_set (d : list (bkey * bval)) (k : bkey) (v : bval)
  : list (bkey * bval) :=
  match d with
  | [] => [(k, v)]
  | (k', v') :: r =>
      if key_eqb k k' then (k, v) :: r else (k', v') :: entries_set r k v
  end.

Fixpoint entries_get (d : list (bkey * bval)) (k : bkey) : option bval :=
  match d with
  | [] => None
  | (k', v) :: r => if key_eqb k k' then Some v else entries_get r k
  end.

Fixpoint _bencode_decode_recursive (fuel : nat) (data : string) (idx : nat)
  : decoded :=
  match fuel with
  | O => OutOfFuel
  | S fuel' =>
      match String.get idx data with
      | None => Error ValueError
      | Some c =>
          if Ascii.eqb c "i" then
            match index_from "e" idx data with
            | None => Error ValueError
            | Some end_ =>
                match int_of_bytes (slice (idx + 1) end_ data) with
                | None => Error ValueError
                | Some z => Decoded (BInt z) (end_ + 1)
                end
            end
          else if Ascii.eqb c "l" then decode_list fuel' data (idx + 1) []
          else if Ascii.eqb c "d" then decode_dict fuel' data (idx + 1) []
          else if is_digit c then
            match index_from ":" idx data with
            | None => Error ValueError
            | Some colon =>
                match int_of_bytes (slice idx colon data) with
                | None => Error ValueError
                | Some length =>
                    let n := Z.to_nat length in
                    Decoded (BBytes (slice (colon + 1) (colon + 1 + n) data))
                            (colon + 1 + n)
                end
            end
          else Error ValueError
      end
  end

(** The [while] loop of the list branch; [result] is kept newest first. *)
with decode_list (fuel : nat) (data : string) (idx : nat) (result : list bval)
  : decoded :=
  match fuel with
  | O => OutOfFuel
  | S fuel' =>
      if match String.get idx data with
         | Some c => Ascii.eqb c "e"
         | None => false
         end
      then Decoded (BList (rev result)) (idx + 1)
      else
        match _bencode_decode_recursive fuel' data idx with
        | Decoded item idx' => decode_list fuel' data idx' (item :: result)
        | other => other
        end
  end

(** The [while] loop of the dict branch. *)
with decode_dict (fuel : nat) (data : string) (idx : nat)
                 (result : list (bkey * bval)) : decoded :=
  match fuel with
  | O => OutOfFuel
  | S fuel' =>
      if match String.get idx data with
         | Some c => Ascii.eqb c "e"
         | None => false
         end
      then Decoded (BDict result) (idx + 1)
      else
        match _bencode_decode_recursive fuel' data idx with
        | Decoded key idx' =>
            match _bencode_decode_recursive fuel' data idx' with
            | Decoded value idx'' =>
                match as_key key with
                | Some k => decode_dict fuel' data idx'' (entries_set result k value)
                | None => Error TypeError
                end
            | other => other
            end
        | other => other
        end
  end.

(** [_bencode_decode(data)].  Every call consumes a byte or enters a
    loop turn that does, so twice the length bounds the recursion. *)
Definition _bencode_decode (data : string) : decoded :=
  _bencode_decode_recursive (2 * String.length data + 2) data 0.

(** ** Python's [==] on these values *)

Fixpoint py_equal (a b : bval) : bool :=
  match a, b with
  | BInt x, BInt y => (x =? y)%Z
  | BBytes x, BBytes y => String.eqb x y
  | BStr x, BStr y => String.eqb x y
  | BList l1, BList l2 =>
      (fix equal_items (l1 l2 : list bval) : bool :=
         match l1, l2 with
         | [], [] => true
         | x :: r1, y :: r2 => py_equal x y && equal_items r1 r2
         | _, _ => false
         end) l1 l2
  | BDict d1, BDict d2 =>
      (List.length d1 =? List.length d2)%nat
      && (fix equal_entries (d : list (bkey * bval)) : bool :=
            match d with
            | [] => true
            | (k, v) :: r =>
                match entries_get d2 k with
                | Some w => py_equal v w && equal_entries r
                | None => false
                end
            end) d1
  | _, _ => false
  end.

(** ** The values of the round-trip property *)

Fixpoint keys_distinct (keys : list bkey) : bool :=
  match keys with
  | [] => true
  | k :: r => negb (existsb (key_eqb k) r) && keys_distinct r
  end.

Definition key_has_str (k : bkey) : bool :=
  match k with KStr _ => true | _ => false end.

(** A dict holds each key once. *)
Fixpoint well_formed (v : bval) : bool :=
  match v with
  | BList items => forallb well_formed items
  | BDict entries =>
      keys_distinct (map fst entries)
      && forallb (fun kv => well_formed (snd kv)) entries
  | _ => true
  end.

(** Built from ints, byte strings, lists and dicts only. *)
Fixpoint without_str (v : bval) : bool :=
  match v with
  | BStr _ => false
  | BList items => forallb without_str items
  | BDict entries =>
      forallb (fun kv => negb (key_has_str (fst kv)) && without_str (snd kv))
              entries
  | _ => true
  end.

End Bencode.

(** * The node ([P2PNode] in [p2p.py])

    The payload dicts that travel between nodes are records of the
    fields the code reads.  A handler takes the request headers and body
    as arguments, and returns the new state of the node, the messages
    and callbacks it emitted in order, and its response or the
    exception it raised. *)

Module P2P.
Import Py.

Definition P2P_PEER_TIMEOUT : Z := 600.
Definition P2P_DHT_REPLICATION : nat := 3.

Record Hop : Set := {
  hop_number : Z;
  ip : string;
  hostname : option string;
  asn : option Z;
  geo : option (Q * Q)
}.

(** The [traceroute_data] dict of a finished trace. *)
Record TracerouteData : Set := {
  target : string;
  target_name : option string;
  hops : list Hop;
  total_time_ms : option Q;
  success : bool;
  trace_timestamp : option Q
}.

Record SharedTraceroute : Set := {
  traceroute_id : string;
  source_peer_id : string;
  source_display_name : option string;
  target_peer_id : option string;
  target_ip : string;
  target_display_name : option string;
  timestamp : Q;
  tr_hops : list Hop;
  tr_total_time_ms : option Q;
  tr_success : bool;
  is_mobile : bool
}.

Record P2PPeer : Set := {
  peer_id : string;
  host : string;
  port : Z;
  last_seen : Q
}.

Definition address (p : P2PPeer) : string :=
  host p ++ ":" ++ str_of_Z (port p).

Definition is_stale (now : Q) (p : P2PPeer) : bool :=
  negb (Qle_bool (now - last_seen p) (inject_Z P2P_PEER_TIMEOUT)).

Record Link : Set := {
  link_source : string;
  link_target : string;
  latency_ms : option Q;
  hop_count : nat;
  link_hops : list Hop;
  link_timestamp : option Q
}.

Record MobileToken : Set := {
  token_peer_id : string;
  device_name : Json.value;
  created : Q;
  expires : Q;
  home_peer_id : string
}.

(** The dict posted to [/p2p/traceroute]. *)
Record Submission : Set := {
  sub_source_peer_id : string;
  sub_source_display_name : string;
  sub_target_peer_id : string;
  sub_traceroute : TracerouteData
}.

Inductive message : Set :=
| LegacyTraceroute (data : Submission)
| Broadcast (traceroute : SharedTraceroute).

Inductive effect : Set :=
| HttpPost (url : string) (body : message)
| WsSend (client : nat) (traceroute : SharedTraceroute)
| TracerouteReceived (traceroute : SharedTraceroute).

Record P2PNode : Type := {
  _peer_id : string;
  _host : string;
  _actual_port : Z;
  _display_name : string;
  _share_data : bool;
  _on_traceroute_received : bool;
  _peers : dict P2PPeer;
  _traceroute_count : Z;
  _total_hops : Z;
  _topology_links : list Link;
  _sharded_storage : Sharding.ShardedStorage;
  _shared_traceroutes : dict SharedTraceroute;
  _traceroute_max_age : Z;
  _mobile_tokens : dict MobileToken;
  _ws_clients : list nat
}.

(** [P2PNode(peer_id, host, display_name=..., share_data=...)]. *)
Definition init (peer_id host display_name : string) (share_data : bool)
  : P2PNode :=
  {| _peer_id := peer_id;
     _host := host;
     _actual_port := 0;
     _display_name := display_name;
     _share_data := share_data;
     _on_traceroute_received := false;
     _peers := [];
     _traceroute_count := 0;
     _total_hops := 0;
     _topology_links := [];
     _sharded_storage := Sharding.init peer_id true;
     _shared_traceroutes := [];
     _traceroute_max_age := 86400;
     _mobile_tokens := [];
     _ws_clients := [] |}.

Definition with_peers (self : P2PNode) (peers : dict P2PPeer) : P2PNode :=
  {| _peer_id := _peer_id self;
     _host := _host self;
     _actual_port := _actual_port self;
     _display_name := _display_name self;
     _share_data := _share_data self;
     _on_traceroute_received := _on_traceroute_received self;
     _peers := peers;
     _traceroute_count := _traceroute_count self;
     _total_hops := _total_hops self;
     _topology_links := _topology_links self;
     _sharded_storage := _sharded_storage self;
     _shared_traceroutes := _shared_traceroutes self;
     _traceroute_max_age := _traceroute_max_age self;
     _mobile_tokens := _mobile_tokens self;
     _ws_clients := _ws_clients self |}.

Definition with_topology (self : P2PNode) (links : list Link)
           (traceroute_count total_hops : Z) : P2PNode :=
  {| _peer_id := _peer_id self;
     _host := _host self;
     _actual_port := _actual_port self;
     _display_name := _display_name self;
     _share_data := _share_data self;
     _on_traceroute_received := _on_traceroute_received self;
     _peers := _peers self;
     _traceroute_count := traceroute_count;
     _total_hops := total_hops;
     _topology_links := links;
     _sharded_storage := _sharded_storage self;
     _shared_traceroutes := _shared_traceroutes self;
     _traceroute_max_age := _traceroute_max_age self;
     _mobile_tokens := _mobile_tokens self;
     _ws_clients := _ws_clients self |}.

Definition with_storage (self : P2PNode) (st : Sharding.ShardedStorage)
  : P2PNode :=
  {| _peer_id := _peer_id self;
     _host := _host self;
     _actual_port := _actual_port self;
     _display_name := _display_name self;
     _share_data := _share_data self;
     _on_traceroute_received := _on_traceroute_received self;
     _peers := _peers self;
     _traceroute_count := _traceroute_count self;
     _total_hops := _total_hops self;
     _topology_links := _topology_links self;
     _sharded_storage := st;
     _shared_traceroutes := _shared_traceroutes self;
     _traceroute_max_age := _traceroute_max_age self;
     _mobile_tokens := _mobile_tokens self;
     _ws_clients := _ws_clients self |}.

Definition with_shared (self : P2PNode) (d : dict SharedTraceroute)
  : P2PNode :=
  {| _peer_id := _peer_id self;
     _host := _host self;
     _actual_port := _actual_port self;
     _display_name := _display_name self;
     _share_data := _share_data self;
     _on_traceroute_received := _on_traceroute_received self;
     _peers := _peers self;
     _traceroute_count := _traceroute_count self;
     _total_hops := _total_hops self;
     _topology_links := _topology_links self;
     _sharded_storage := _sharded_storage self;
     _shared_traceroutes := d;
     _traceroute_max_age := _traceroute_max_age self;
     _mobile_tokens := _mobile_tokens self;
     _ws_clients := _ws_clients self |}.

Definition with_tokens (self : P2PNode) (d : dict MobileToken) : P2PNode :=
  {| _peer_id := _peer_id self;
     _host := _host self;
     _actual_port := _actual_port self;
     _display_name := _display_name self;
     _share_data := _share_data self;
     _on_traceroute_received := _on_traceroute_received self;
     _peers := _peers self;
     _traceroute_count := _traceroute_count self;
     _total_hops := _total_hops self;
     _topology_links := _topology_links self;
     _sharded_storage := _sharded_storage self;
     _shared_traceroutes := _shared_traceroutes self;
     _traceroute_max_age := _traceroute_max_age self;
     _mobile_tokens := d;
     _ws_clients := _ws_clients self |}.

(** [set_sharing_enabled(enabled)]. *)
Definition set_sharing_enabled (self : P2PNode) (enabled : bool) : P2PNode :=
  {| _peer_id := _peer_id self;
     _host := _host self;
     _actual_port := _actual_port self;
     _display_name := _display_name self;
     _share_data := enabled;
     _on_traceroute_received := _on_traceroute_received self;
     _peers := _peers self;
     _traceroute_count := _traceroute_count self;
     _total_hops := _total_hops self;
     _topology_links := _topology_links self;
     _sharded_storage := _sharded_storage self;
     _shared_traceroutes := _shared_traceroutes self;
     _traceroute_max_age := _traceroute_max_age self;
     _mobile_tokens := _mobile_tokens self;
     _ws_clients := _ws_clients self |}.

(** ** Topology *)

Definition has_link (links : list Link) (source target : string) : bool :=
  existsb (fun l => String.eqb (link_source l) source
                    && String.eqb (link_target l) target) links.

Definition _merge_topology_links (self : P2PNode) (links : list Link)
  : list Link :=
  fold_left (fun existing link =>
               if has_link existing (link_source link) (link_target link)
               then existing else (existing ++ [link])%list)
            links (_topology_links self).

Definition _add_traceroute_to_topology (self : P2PNode) (data : Submission)
  : P2PNode :=
  let traceroute := sub_traceroute data in
  let source := sub_source_peer_id data in
  let target := sub_target_peer_id data in
  if String.eqb source "" || String.eqb target "" then self
  else
    let link := {| link_source := source;
                   link_target := target;
                   latency_ms := total_time_ms traceroute;
                   hop_count := List.length (hops traceroute);
                   link_hops := hops traceroute;
                   link_timestamp := trace_timestamp traceroute |} in
    with_topology self (_merge_topology_links self [link])
                  (_traceroute_count self + 1)
                  (_total_hops self + Z.of_nat (List.length (hops traceroute))).

(** ** Storing and broadcasting *)

Section Collaborators.

(** [classify_infrastructure(ip, asn, hostname)["is_permanent"]], the
    verdict of the enrichment collaborator. *)
Variable classify_infrastructure : string -> option Z -> option string -> bool.

Definition option_str (o : option string) : Json.value :=
  match o with Some s => Json.JStr s | None => Json.JNull end.

(** The dict of a hop; it has no ["source_peer_id"] entry. *)
Definition hop_dict (h : Hop) : Json.value :=
  Json.JObj [ ("hop_number", Json.JInt (hop_number h));
              ("ip", Json.JStr (ip h));
              ("hostname", option_str (hostname h)) ].

(** A hop whose ["geo"] entry has a latitude and a longitude that are
    both true, that is, present and not zero. *)
Definition located (h : Hop) : option (Q * Q) :=
  match geo h with
  | Some (lat, lon) =>
      if negb (Qeq_bool lat 0) && negb (Qeq_bool lon 0)
      then Some (lat, lon) else None
  | None => None
  end.

Fixpoint first_located (l : list Hop) : option (Hop * (Q * Q)) :=
  match l with
  | [] => None
  | h :: r =>
      match located h with
      | Some p => Some (h, p)
      | None => first_located r
      end
  end.

Definition _broadcast_to_ws_clients (self : P2PNode) (tr : SharedTraceroute)
  : list effect :=
  map (fun ws => WsSend ws tr) (_ws_clients self).

Definition _broadcast_to_peers (now : Q) (self : P2PNode)
           (tr : SharedTraceroute) : list effect :=
  match _peers self with
  | [] => []
  | _ =>
      if negb (_share_data self) then []
      else
        map (fun peer =>
               HttpPost ("http://" ++ address peer ++ "/p2p/broadcast")
                        (Broadcast tr))
            (filter (fun peer => negb (is_stale now peer))
                    (dict_values (_peers self)))
  end.

(** [_on_sharded_data_received(data)] for an item made from a hop:
    [SharedTraceroute.from_dict] reads ["source_peer_id"], which a
    hop dict lacks. *)
Definition _on_sharded_data_received (data : Sharding.ShardedData)
  : outcome unit :=
  if Sharding.DataType_eqb (Sharding.data_type data) Sharding.TRACEROUTE
  then
    match Json.get (Sharding.data data) "source_peer_id" Json.JNull with
    | Returned Json.JNull => Raised KeyError
    | Returned _ => Returned tt
    | Raised e => Raised e
    end
  else Returned tt.

Definition _store_and_broadcast_traceroute (now : Q) (self : P2PNode)
           (tr : SharedTraceroute)
  : P2PNode * list effect * outcome unit :=
  let self :=
    with_shared self
      (dict_set (_shared_traceroutes self) (traceroute_id tr) tr) in
  let '(self, stored) :=
    match first_located (tr_hops tr) with
    | None => (self, Returned tt)
    | Some (hop, (lat, lon)) =>
        let geohash :=
          Geohash.encode_geohash lat lon
            (Z.of_nat Sharding.GEOHASH_PRECISION_REGION) in
        let permanent :=
          classify_infrastructure (ip hop) (asn hop) (hostname hop) in
        let sharded :=
          {| Sharding.data_id :=
               "tr_" ++ traceroute_id tr ++ "_" ++ str_of_Z (hop_number hop);
             Sharding.data_type :=
               if permanent then Sharding.INFRASTRUCTURE
               else Sharding.TRACEROUTE;
             Sharding.geohash := geohash;
             Sharding.data := hop_dict hop;
             Sharding.timestamp := now;
             Sharding.ttl := 86400;
             Sharding.replication_factor := if permanent then 5 else 3;
             Sharding.is_permanent := permanent;
             Sharding.source_peer_id := _peer_id self |} in
        let before := List.length (Sharding.delivered (_sharded_storage self)) in
        let (storage, _) := Sharding.store (_sharded_storage self) sharded in
        (with_storage self storage,
         if (before <? List.length (Sharding.delivered storage))%nat
         then _on_sharded_data_received sharded
         else Returned tt)
    end in
  match stored with
  | Raised e => (self, [], Raised e)
  | Returned _ =>
      let callback :=
        if _on_traceroute_received self then [TracerouteReceived tr] else [] in
      (self,
       (callback ++ _broadcast_to_ws_clients self tr
          ++ _broadcast_to_peers now self tr)%list,
       Returned tt)
  end.

(** [submit_traceroute(target_peer_id, traceroute_data)];
    [entropy] feeds [secrets.token_hex]. *)
Definition submit_traceroute (now : Q) (entropy : N) (self : P2PNode)
           (target_peer_id : string) (traceroute_data : TracerouteData)
  : P2PNode * list effect * outcome unit :=
  let data := {| sub_source_peer_id := _peer_id self;
                 sub_source_display_name := _display_name self;
                 sub_target_peer_id := target_peer_id;
                 sub_traceroute := traceroute_data |} in
  let self := _add_traceroute_to_topology self data in
  let '(self, effects, shared) :=
    if _share_data self then
      let shared :=
        {| traceroute_id := ContributionProof.token_hex 8 entropy;
           source_peer_id := _peer_id self;
           source_display_name := Some (_display_name self);
           target_peer_id := Some target_peer_id;
           target_ip := target traceroute_data;
           target_display_name := target_name traceroute_data;
           timestamp := now;
           tr_hops := hops traceroute_data;
           tr_total_time_ms := total_time_ms traceroute_data;
           tr_success := success traceroute_data;
           is_mobile := false |} in
      _store_and_broadcast_traceroute now self shared
    else (self, [], Returned tt) in
  match shared with
  | Raised e => (self, effects, Raised e)
  | Returned _ =>
      let legacy :=
        map (fun peer =>
               HttpPost ("http://" ++ address peer ++ "/p2p/traceroute")
                        (LegacyTraceroute data))
            (firstn P2P_DHT_REPLICATION (dict_values (_peers self))) in
      (self, (effects ++ legacy)%list, Returned tt)
  end.

(** ** Handlers *)

Inductive response : Type :=
| SyncRefused (traceroute_count : nat)
| SyncData (traceroutes : list SharedTraceroute) (peer_count : nat)
           (timestamp : Q)
| BroadcastReply (accepted : bool)
| Unauthorized (error : string)
| MobileAccepted (traceroute_id : string)
| Registered (token : string) (home_peer_id home_display_name home_host : string)
             (home_port : Z) (expires_in : Z).

(** The HTTP status of a response. *)
Definition status (r : response) : Z :=
  match r with
  | Unauthorized _ => 401
  | _ => 200
  end.

Definition _cleanup_old_traceroutes (now : Q) (self : P2PNode) : P2PNode :=
  let cutoff := now - inject_Z (_traceroute_max_age self) in
  with_shared self
    (filter (fun kv => negb (Qle_bool (timestamp (snd kv)) cutoff))
            (_shared_traceroutes self)).

(** [_handle_full_sync]; [proof] is the [X-Contribution-Proof] header,
    or the empty string without one. *)
Definition _handle_full_sync (now : Q) (self : P2PNode) (proof : string)
  : P2PNode * outcome response :=
  match ContributionProof.is_contributing now proof 1 with
  | Raised e => (self, Raised e)
  | Returned false =>
      (self, Returned (SyncRefused (List.length (_shared_traceroutes self))))
  | Returned true =>
      let self := _cleanup_old_traceroutes now self in
      (self,
       Returned (SyncData (dict_values (_shared_traceroutes self))
                          (List.length (_peers self)) now))
  end.

(** [_handle_broadcast] for a body with a ["traceroute"] entry. *)
Definition _handle_broadcast (self : P2PNode) (traceroute : SharedTraceroute)
  : P2PNode * list effect * response :=
  if negb (_share_data self) then (self, [], BroadcastReply false)
  else
    let self :=
      with_shared self
        (dict_set (_shared_traceroutes self) (traceroute_id traceroute)
                  traceroute) in
    let callback :=
      if _on_traceroute_received self
      then [TracerouteReceived traceroute] else [] in
    (self, (callback ++ _broadcast_to_ws_clients self traceroute)%list,
     BroadcastReply true).

(** [_handle_mobile_traceroute]; [token] is the [X-Mobile-Token]
    header and [data] the decoded body. *)
Definition _handle_mobile_traceroute (now : Q) (entropy : N) (self : P2PNode)
           (token : string) (data : TracerouteData)
  : P2PNode * list effect * outcome response :=
  match dict_get (_mobile_tokens self) token with
  | None => (self, [], Returned (Unauthorized "Invalid token"))
  | Some token_data =>
      if negb (Qle_bool now (expires token_data))
      then (with_tokens self (dict_del (_mobile_tokens self) token), [],
            Returned (Unauthorized "Token expired"))
      else
        let traceroute :=
          {| traceroute_id := ContributionProof.token_hex 8 entropy;
             source_peer_id := token_peer_id token_data;
             source_display_name :=
               match device_name token_data with
               | Json.JStr s => Some s
               | _ => None
               end;
             target_peer_id := Some (home_peer_id token_data);
             target_ip := target data;
             target_display_name := Some (_display_name self);
             timestamp := now;
             tr_hops := hops data;
             tr_total_time_ms := total_time_ms data;
             tr_success := success data;
             is_mobile := true |} in
        if _share_data self then
          let '(self, effects, stored) :=
            _store_and_broadcast_traceroute now self traceroute in
          match stored with
          | Raised e => (self, effects, Raised e)
          | Returned _ =>
              (self, effects,
               Returned (MobileAccepted (traceroute_id traceroute)))
          end
        else
          (with_shared self
             (dict_set (_shared_traceroutes self)
                       (traceroute_id traceroute) traceroute),
           [], Returned (MobileAccepted (traceroute_id traceroute)))
  end.

(** [_handle_mobile_register].  [authorization] is the header of that
    name if the request has one, [body] the raw request body,
    [created_at] and [expires_from] the two successive clock readings
    of the handler, [mobile_token] the result of
    [secrets.token_urlsafe(32)]. *)
Definition _handle_mobile_register (created_at expires_from : Q)
           (mobile_token : string) (entropy : N) (self : P2PNode)
           (authorization : option string) (body : string)
  : P2PNode * outcome response :=
  match Json.loads body with
  | None => (self, Raised JSONDecodeError)
  | Some data =>
      let auth_token :=
        match authorization with Some a => a | None => "" end in
      if String.eqb auth_token ""
      then (self, Returned (Unauthorized "Authorization required"))
      else
        match Json.get data "device_name" (Json.JStr "Mobile Device") with
        | Raised e => (self, Raised e)
        | Returned name =>
            let entry :=
              {| token_peer_id :=
                   "mobile_" ++ ContributionProof.token_hex 8 entropy;
                 device_name := name;
                 created := created_at;
                 expires := expires_from + inject_Z (86400 * 30);
                 home_peer_id := _peer_id self |} in
            (with_tokens self
               (dict_set (_mobile_tokens self) mobile_token entry),
             Returned (Registered mobile_token (_peer_id self)
                         (_display_name self) (_host self)
                         (_actual_port self) (86400 * 30)))
        end
  end.

End Collaborators.

End P2P.

(** * Vocabulary of the properties *)

Module Spec.
Import Py.

(** Every character of [s] satisfies [p]. *)
Fixpoint all (p : ascii -> bool) (s : string) : bool :=
  match s with
  | EmptyString => true
  | String c r => p c && all p r
  end.

(** The first character of a text, if any, is the digit zero. *)
Definition leading_zero (s : string) : bool :=
  match s with
  | String c _ => Ascii.eqb c "0"
  | EmptyString => false
  end.

(** A printable ASCII character other than the double quote and the
    backslash: JSON writes it and reads it as itself. *)
Definition plain (c : ascii) : bool :=
  let n := N_of_ascii c in
  ((32 <=? n) && (n <=? 126) && negb (n =? 34) && negb (n =? 92))%N.

(** A lower-case hexadecimal digit. *)
Definition is_hex (c : ascii) : bool :=
  let n := N_of_ascii c in
  (((48 <=? n) && (n <=? 57)) || ((97 <=? n) && (n <=? 102)))%N.


(** A character that ends a number and is neither a fraction nor an
    exponent mark: here the comma and the closing brace. *)
Definition closes (c : ascii) : bool :=
  Ascii.eqb c "," || Ascii.eqb c "}".

Definition sign_text (neg : bool) : string := if neg then "-" else "".

(** A scalar whose text the decoder reads back: any [int], and a [str]
    of plain characters. *)
Definition scalar_ok (x : Json.scalar) : Prop :=
  match x with
  | Json.SStr s => all plain s = true
  | Json.SInt _ => True
  end.

Definition member_ok (kv : string * Json.scalar) : Prop :=
  all plain (fst kv) = true /\ scalar_ok (snd kv).

Definition set_member (acc : dict Json.value) (kv : string * Json.scalar)
  : dict Json.value :=
  dict_set acc (fst kv) (Json.to_value (snd kv)).

(** The text of the members of an object from just after the first
    opening quote to the closing brace. *)
Fixpoint members_text (l : list (string * Json.scalar)) : string :=
  match l with
  | [] => ""
  | (k, x) :: r =>
      match r with
      | [] => k ++ String "034" (": " ++ Json.dumps_scalar x ++ "}")
      | _ => k ++ String "034"
               (": " ++ Json.dumps_scalar x ++ ", "
                ++ String "034" (members_text r))
      end
  end.

(** What [json.loads] builds from the text of a dict of scalars. *)
Definition loaded (d : dict Json.scalar) : Json.value :=
  Json.JObj (fold_left set_member (Json.sort_items d) []).

(** A proof string for a record of one's own choosing, made with the
    public digest alone. *)
Definition forge (record : dict Json.scalar) : string :=
  let proof_string := Json.dumps_sorted record in
  proof_string ++ "|" ++ take 32 (SHA256.hexdigest proof_string).

(** A record in the form that [generate] writes, and the value that
    [json.loads] builds from its text. *)
Definition record (peer_id_hash nonce : string)
           (traceroutes uptime_hours timestamp : Z) : dict Json.scalar :=
  [ ("peer_id_hash", Json.SStr peer_id_hash);
    ("traceroutes", Json.SInt traceroutes);
    ("uptime_hours", Json.SInt uptime_hours);
    ("timestamp", Json.SInt timestamp);
    ("nonce", Json.SStr nonce) ].

Definition record_value (peer_id_hash nonce : string)
           (traceroutes uptime_hours timestamp : Z) : Json.value :=
  Json.JObj [ ("nonce", Json.JStr nonce);
              ("peer_id_hash", Json.JStr peer_id_hash);
              ("timestamp", Json.JInt timestamp);
              ("traceroutes", Json.JInt traceroutes);
              ("uptime_hours", Json.JInt uptime_hours) ].

(** The entry that [verify] reads as the issue time of a proof: the
    value under ["timestamp"] in the record before the last bar, the
    [int] 0 without such an entry. *)
Definition issue_entry (proof : string) : option Json.value :=
  match rsplit1 "|" proof with
  | Some (proof_string, _) =>
      match Json.loads proof_string with
      | Some (Json.JObj d) =>
          Some (match dict_get d "timestamp" with
                | Some t => t
                | None => Json.JInt 0
                end)
      | _ => None
      end
  | None => None
  end.

(** The issue time as [verify] computes with it: the entry as a
    [float]. *)
Definition issue_time (proof : string) : option Json.pyfloat :=
  match issue_entry proof with
  | Some t =>
      match Json.to_float t with
      | Returned f => Some f
      | Raised _ => None
      end
  | None => None
  end.



(** An [int] that a [float] holds exactly, as the whole part of a
    [float] is, and every [int] up to [2**53]. *)
Definition exact_int (z : Z) : Prop :=
  Json.float_of_int z = Returned (Json.Finite (inject_Z z)).


(** Ascending order of a list under a key. *)
Definition ascending {A : Type} (key : A -> Z) : list A -> Prop :=
  StronglySorted (fun a b => (key a <= key b)%Z).

(** The geohash of an item starts with the prefix. *)
Definition in_region (geohash_prefix : string) (d : Sharding.ShardedData)
  : bool :=
  startswith (Sharding.geohash d) geohash_prefix.

(** The peers that [_fetch_from_network] asks about a prefix and a
    type: the first three of the three known peers closest to the
    shard key. *)
Definition queried_peers (self : Sharding.ShardedStorage)
           (geohash_prefix : string) (data_type : option Sharding.DataType)
  : list (string * string) :=
  let shard_key :=
    geohash_prefix ++ ":" ++
    match data_type with
    | Some ty => Sharding.DataType_value ty
    | None => "all"
    end in
  slice_to 3 (DHTRouter.get_responsible_nodes
                (Sharding._router self) shard_key
                (Sharding._peer_addresses self) 3).

(** An item that one of [peers] returned in its answer to the query. *)
Definition returned_by (net : Sharding.network)
           (peers : list (string * string)) (geohash_prefix : string)
           (data_type : option Sharding.DataType) (d : Sharding.ShardedData)
  : Prop :=
  exists peer_id address items complete,
    In (peer_id, address) peers
    /\ net address geohash_prefix data_type = Sharding.Items items complete
    /\ In d items.

(** An item that one of the queried peers returned in its answer to
    the query. *)
Definition from_peer (net : Sharding.network) (self : Sharding.ShardedStorage)
           (geohash_prefix : string)
           (data_type : option Sharding.DataType) (d : Sharding.ShardedData)
  : Prop :=
  returned_by net (queried_peers self geohash_prefix data_type)
              geohash_prefix data_type d.

(** The response is a rejection with status 401. *)
Definition rejected (r : outcome P2P.response) : Prop :=
  match r with
  | Returned resp => P2P.status resp = 401%Z
  | Raised _ => False
  end.

End Spec.

(** * Concrete nodes, items and requests used by the examples *)

(** * Vocabulary of the geohash facts *)

Module GeohashSpec.
Import Py Geohash.

(** The loop body with the outcome of its comparison given. *)
Definition step_bit (b : bool) (st : encoder) : encoder :=
  let lat_range' := if is_lon st then lat_range st else narrow b (lat_range st) in
  let lon_range' := if is_lon st then narrow b (lon_range st) else lon_range st in
  let bits' := push_bit (bits st) b in
  let bit_count' := (bit_count st + 1)%N in
  if (bit_count' =? 5)%N
  then Encoder (geohash st ++ String (base32_at bits') "") 0 0
               (negb (is_lon st)) lat_range' lon_range'
  else Encoder (geohash st) bits' bit_count'
               (negb (is_lon st)) lat_range' lon_range'.

(** The comparison that the loop body makes in state [st]. *)
Definition next_bit (lat lon : Q) (st : encoder) : bool :=
  if is_lon st then Qle_bool (midpoint (lon_range st)) lon
  else Qle_bool (midpoint (lat_range st)) lat.

Definition decoder_of (st : encoder) : decoder :=
  Decoder (is_lon st) (lat_range st) (lon_range st).

Section Point.

Variables lat lon : Q.

(** Five turns of the loop: one character. *)
Definition block (st : encoder) : encoder :=
  encode_step lat lon (encode_step lat lon (encode_step lat lon
    (encode_step lat lon (encode_step lat lon st)))).

(** The state when [encode_geohash] leaves its loop. *)
Definition final (precision : Z) : encoder :=
  Nat.iter (Z.to_nat precision) block encode_init.

(** After [j] turns of the loop: whose turn it is, the widths of the
    two ranges, and that they lie in the world and hold the point if
    the world does. *)
Definition cell (j : nat) (st : encoder) : Prop :=
  is_lon st = Nat.even j
  /\ (snd (lon_range st) - fst (lon_range st))
     * pow2 (Z.of_nat ((j + 1) / 2)) == 360
  /\ (snd (lat_range st) - fst (lat_range st))
     * pow2 (Z.of_nat (j / 2)) == 180
  /\ (-180 <= fst (lon_range st) /\ fst (lon_range st) < snd (lon_range st)
      /\ snd (lon_range st) <= 180)
  /\ (-90 <= fst (lat_range st) /\ fst (lat_range st) < snd (lat_range st)
      /\ snd (lat_range st) <= 90)
  /\ (-180 <= lon /\ lon <= 180 ->
      fst (lon_range st) <= lon /\ lon <= snd (lon_range st))
  /\ (-90 <= lat /\ lat <= 90 ->
      fst (lat_range st) <= lat /\ lat <= snd (lat_range st)).

End Point.

Definition lat_delta (precision : Z) : Q := 180 / pow2 (precision * 5 / 2).
Definition lon_delta (precision : Z) : Q := 360 / pow2 ((precision * 5 + 1) / 2).

(** The cell is neither in the top nor in the bottom row: one cell
    height above and below its centre is still on the map, so the
    latitude clamp of [get_geohash_neighbors] does not act. *)
Definition clamp_free (geohash : string) : Prop :=
  match decode_geohash geohash with
  | Some (lat, _) =>
      -90 <= lat - lat_delta (Z.of_nat (String.length geohash))
      /\ lat + lat_delta (Z.of_nat (String.length geohash)) <= 90
  | None => False
  end.

End GeohashSpec.

(** * Vocabulary of the bencode facts *)

Module BencodeSpec.
Import Py Bencode.

(** The decoder reads a text in the same way wherever the text starts. *)
Definition shift (n : nat) (r : decoded) : decoded :=
  match r with
  | Decoded v idx => Decoded v (n + idx)
  | other => other
  end.

Definition encode_items : list bval -> outcome string :=
  fix encode_items (l : list bval) : outcome string :=
    match l with
    | [] => Returned ""
    | x :: r =>
        bind (_bencode_encode x) (fun a =>
        bind (encode_items r) (fun b => Returned (a ++ b)))
    end.

Definition encode_entries : list (bkey * bval) -> outcome (list (bkey * string)) :=
  fix encode_entries (l : list (bkey * bval)) : outcome (list (bkey * string)) :=
    match l with
    | [] => Returned []
    | (k, v) :: r =>
        bind (_bencode_encode v) (fun a =>
        bind (encode_entries r) (fun b =>
        Returned ((k, encode_key k ++ a) :: b)))
    end.

(** What the decoder makes of a well-encoded text of [v]. *)
Definition reads_back (v : bval) (bs : string) : Prop :=
  forall fuel post,
    (String.length bs <= fuel)%nat ->
    exists v',
      _bencode_decode_recursive fuel (bs ++ post) 0
      = Decoded v' (String.length bs)
      /\ py_equal v' v = true.

Definition round_trips (v : bval) : Prop :=
  well_formed v = true -> without_str v = true ->
  forall bs, _bencode_encode v = Returned bs -> reads_back v bs.

Definition entry_encoded (kv : bkey * bval) (ke : bkey * string) : Prop :=
  fst ke = fst kv
  /\ exists a, _bencode_encode (snd kv) = Returned a
               /\ snd ke = encode_key (fst kv) ++ a.

Definition entry_good (kv : bkey * bval) : Prop :=
  key_has_str (fst kv) = false
  /\ forall a, _bencode_encode (snd kv) = Returned a -> reads_back (snd kv) a.

Definition entry_equal (a b : bkey * bval) : Prop :=
  fst a = fst b /\ py_equal (snd a) (snd b) = true.

Definition set_entry (acc : list (bkey * bval)) (kv : bkey * bval) :=
  entries_set acc (fst kv) (snd kv).

End BencodeSpec.

Module Fixtures.
Import Py.

Definition tower : Sharding.ShardedData :=
  {| Sharding.data_id := "tower-1";
     Sharding.data_type := Sharding.CELL_TOWER;
     Sharding.geohash := "gcpvj";
     Sharding.data := Json.JNull;
     Sharding.timestamp := 1000;
     Sharding.ttl := 86400;
     Sharding.replication_factor := 3;
     Sharding.is_permanent := false;
     Sharding.source_peer_id := "node-b" |}.

(** A mast that is marked permanent. *)
Definition landmark : Sharding.ShardedData :=
  {| Sharding.data_id := "mast-7";
     Sharding.data_type := Sharding.INFRASTRUCTURE;
     Sharding.geohash := "gcpvj";
     Sharding.data := Json.JNull;
     Sharding.timestamp := 1000;
     Sharding.ttl := 60;
     Sharding.replication_factor := 3;
     Sharding.is_permanent := true;
     Sharding.source_peer_id := "node-b" |}.

(** An item of another region. *)
Definition stray : Sharding.ShardedData :=
  {| Sharding.data_id := "stray-1";
     Sharding.data_type := Sharding.TRACEROUTE;
     Sharding.geohash := "u10";
     Sharding.data := Json.JNull;
     Sharding.timestamp := 1000;
     Sharding.ttl := 86400;
     Sharding.replication_factor := 3;
     Sharding.is_permanent := false;
     Sharding.source_peer_id := "node-b" |}.

(** A storage that knows one peer, and a peer that answers every query
    with [stray]. *)
Definition storage_with_peer : Sharding.ShardedStorage :=
  Sharding.update_peers (Sharding.init "node-a" false)
                        [("node-b", "10.0.0.2:8123")].

Definition stray_network : Sharding.network :=
  fun _ _ _ => Sharding.Items [stray] true.

Definition silent_network : Sharding.network :=
  fun _ _ _ => Sharding.NoAnswer.

Definition peer_b : P2P.P2PPeer :=
  {| P2P.peer_id := "peer-b";
     P2P.host := "10.0.0.2";
     P2P.port := 8123;
     P2P.last_seen := 1000 |}.

(** A node that knows [peer_b] and has data sharing disabled. *)
Definition private_home : P2P.P2PNode :=
  P2P.with_peers (P2P.init "home" "10.0.0.1" "Home" false)
                 [("peer-b", peer_b)].

Definition first_hop : P2P.Hop :=
  {| P2P.hop_number := 1;
     P2P.ip := "192.0.2.1";
     P2P.hostname := None;
     P2P.asn := None;
     P2P.geo := Some (51.5, -0.12) |}.

Definition trace : P2P.TracerouteData :=
  {| P2P.target := "10.0.0.2";
     P2P.target_name := None;
     P2P.hops := [first_hop];
     P2P.total_time_ms := Some 12;
     P2P.success := true;
     P2P.trace_timestamp := Some 1000 |}.

(** [private_home] after a mobile device registered with it. *)
Definition home_with_device : P2P.P2PNode :=
  fst (P2P._handle_mobile_register 1000 1000 "device-token" 5 private_home
         (Some "secret") "{}").

(** A proof that any caller can produce for itself. *)
Definition caller_proof : string :=
  ContributionProof.generate "caller" [("traceroute_count", 1%Z)] 1002 3.

End Fixtures.

(** * Visibility decay of nodes ([NodeDecay] and [NodeDecayManager] in
      [sharding.py]) *)

Module NodeDecay.
Import Py.

Record t : Set := {
  peer_id : string;
  last_seen : Q;
  decay_start : option Q;
  is_infrastructure : bool
}.

Definition DECAY_START_AFTER : Z := 300.
Definition FULL_DECAY_TIME : Z := 3600.

(** The property [decay_factor], read at clock value [now]. *)
Definition decay_factor (now : Q) (self : t) : Q :=
  if is_infrastructure self then 1
  else
    let time_since_seen := now - last_seen self in
    if negb (Qle_bool (inject_Z DECAY_START_AFTER) time_since_seen) then 1
    else
      let decay_progress :=
        (time_since_seen - inject_Z DECAY_START_AFTER)
        / inject_Z FULL_DECAY_TIME in
      Geohash.max 0 (1 - decay_progress).

(** The property [should_remove]. *)
Definition should_remove (now : Q) (self : t) : bool :=
  Qle_bool (decay_factor now self) 0.

End NodeDecay.

Module NodeDecayManager.
Import Py.

Record t : Type := { _nodes : dict NodeDecay.t }.

Definition init : t := {| _nodes := [] |}.

(** [update_node(peer_id, is_infrastructure)]: a known node is touched
    in place, and the flag given is read for a new node only. *)
Definition update_node (now : Q) (self : t) (peer_id : string)
           (is_infrastructure : bool) : t :=
  match dict_get (_nodes self) peer_id with
  | Some node =>
      {| _nodes :=
           dict_set (_nodes self) peer_id
             {| NodeDecay.peer_id := NodeDecay.peer_id node;
                NodeDecay.last_seen := now;
                NodeDecay.decay_start := None;
                NodeDecay.is_infrastructure :=
                  NodeDecay.is_infrastructure node |} |}
  | None =>
      {| _nodes :=
           dict_set (_nodes self) peer_id
             {| NodeDecay.peer_id := peer_id;
                NodeDecay.last_seen := now;
                NodeDecay.decay_start := None;
                NodeDecay.is_infrastructure := is_infrastructure |} |}
  end.

Definition mark_infrastructure (self : t) (peer_id : string) : t :=
  match dict_get (_nodes self) peer_id with
  | Some node =>
      {| _nodes :=
           dict_set (_nodes self) peer_id
             {| NodeDecay.peer_id := NodeDecay.peer_id node;
                NodeDecay.last_seen := NodeDecay.last_seen node;
                NodeDecay.decay_start := NodeDecay.decay_start node;
                NodeDecay.is_infrastructure := true |} |}
  | None => self
  end.

(** The clock during [get_visible_nodes]: for the node visited, the
    reading that its [should_remove] takes and the reading that its
    [decay_factor] takes afterwards. *)
Definition readings : Type := string -> Q * Q.

(** One turn of the loop of [get_visible_nodes]. *)
Definition visit (clock : readings)
           (acc : list (string * Q) * list string) (kv : string * NodeDecay.t)
  : list (string * Q) * list string :=
  let (visible, to_remove) := acc in
  if NodeDecay.should_remove (fst (clock (fst kv))) (snd kv)
  then (visible, (to_remove ++ [fst kv])%list)
  else ((visible
         ++ [(fst kv, NodeDecay.decay_factor (snd (clock (fst kv))) (snd kv))])%list,
        to_remove).

(** [get_visible_nodes()]: the new state and the list returned. *)
Definition get_visible_nodes (clock : readings) (self : t)
  : t * list (string * Q) :=
  let (visible, to_remove) := fold_left (visit clock) (_nodes self) ([], []) in
  ({| _nodes := fold_left (fun d id => dict_del d id) to_remove (_nodes self) |},
   visible).

Definition get_decay_factor (now : Q) (self : t) (peer_id : string) : Q :=
  match dict_get (_nodes self) peer_id with
  | Some node => NodeDecay.decay_factor now node
  | None => 0
  end.

End NodeDecayManager.

(** * Vocabulary of the decay facts *)

Module DecaySpec.
Import Py.

(** The calls that change a [NodeDecayManager]. *)
Inductive call : Type :=
| Update (now : Q) (peer_id : string) (is_infrastructure : bool)
| Mark (peer_id : string)
| Visible (clock : NodeDecayManager.readings).

Definition step (self : NodeDecayManager.t) (c : call) : NodeDecayManager.t :=
  match c with
  | Update now peer_id flag => NodeDecayManager.update_node now self peer_id flag
  | Mark peer_id => NodeDecayManager.mark_infrastructure self peer_id
  | Visible clock => fst (NodeDecayManager.get_visible_nodes clock self)
  end.

Definition run (calls : list call) (self : NodeDecayManager.t)
  : NodeDecayManager.t :=
  fold_left step calls self.

(** A dict holds each key once. *)
Definition keys_once {V : Type} (d : dict V) : Prop := NoDup (map fst d).

End DecaySpec.

(** * More of the sharded storage ([sharding.py]) *)

Module Replication.
Import Py Sharding.

(** What a peer answers to [POST /p2p/shard/store], by address: the
    status of the response, or [None] for an exception. *)
Definition poster : Type := string -> ShardedData -> option Z.

(** One turn of the loop over the responsible nodes: the requests made
    so far, oldest first, and the count. *)
Definition replicate (post : poster) (self_id : string) (data : ShardedData)
           (acc : list (string * ShardedData) * Z) (peer : string * string)
  : list (string * ShardedData) * Z :=
  let (posts, stored_count) := acc in
  let (peer_id, address) := peer in
  if String.eqb peer_id self_id then acc
  else
    let url := "http://" ++ address ++ "/p2p/shard/store" in
    let posts := (posts ++ [(url, data)])%list in
    match post address data with
    | Some 200%Z => (posts, (stored_count + 1)%Z)
    | _ => (posts, stored_count)
    end.

(** [store_and_replicate(data)]: the new state, the requests made and
    the count returned. *)
Definition store_and_replicate (post : poster) (self : ShardedStorage)
           (data : ShardedData)
  : ShardedStorage * list (string * ShardedData) * Z :=
  let (self, stored) := store self data in
  let stored_count := if stored then 1%Z else 0%Z in
  let all_peers := _peer_addresses self in
  let responsible :=
    DHTRouter.get_responsible_nodes (_router self) (shard_key data) all_peers
                                    (replication_factor data) in
  match responsible with
  | [] => (self, [], stored_count)
  | _ =>
      let (posts, stored_count) :=
        fold_left (replicate post (_peer_id self) data) responsible
                  ([], stored_count) in
      (self, posts, stored_count)
  end.

Definition get_all_infrastructure (self : ShardedStorage) : list ShardedData :=
  dict_values (_infrastructure_cache self).

End Replication.

(** The part of a [ShardedStorage] that [set_my_location] and
    [_update_shard_responsibility] read and write. *)
Module ShardResponsibility.
Import Py Sharding.

Definition GEOHASH_PRECISION_LOCAL : Z := 5.

Record t : Set := {
  geohash_prefix : string;
  data_types : list DataType;
  peer_count : Z;
  last_sync : Q
}.

(** [list(DataType)]: the members in the order of their definition. *)
Definition all_data_types : list DataType :=
  [TRACEROUTE; PEER_LOCATION; INFRASTRUCTURE; CELL_TOWER; MOBILE_TRACE].

Record location : Type := {
  _my_geohash : string;
  _my_shards : dict t;
  shards_responsible : nat
}.

(** One turn of the loop over the neighbouring cells. *)
Definition add_neighbor (shards : dict t) (neighbor : string) : dict t :=
  if dict_mem shards neighbor then shards
  else dict_set shards neighbor
         {| geohash_prefix := neighbor;
            data_types := [INFRASTRUCTURE; CELL_TOWER];
            peer_count := 0;
            last_sync := 0 |}.

(** [_update_shard_responsibility()]; a geohash that
    [get_geohash_neighbors] cannot decode makes it raise after the own
    region is entered and before the counter is written. *)
Definition _update_shard_responsibility (self : location)
  : location * outcome unit :=
  if String.eqb (_my_geohash self) "" then (self, Returned tt)
  else
    let local_prefix := take GEOHASH_PRECISION_REGION (_my_geohash self) in
    let shards :=
      dict_set (_my_shards self) local_prefix
        {| geohash_prefix := local_prefix;
           data_types := all_data_types;
           peer_count := 0;
           last_sync := 0 |} in
    match Geohash.get_geohash_neighbors local_prefix with
    | None =>
        ({| _my_geohash := _my_geohash self;
            _my_shards := shards;
            shards_responsible := shards_responsible self |},
         Raised ValueError)
    | Some neighbors =>
        let shards := fold_left add_neighbor neighbors shards in
        ({| _my_geohash := _my_geohash self;
            _my_shards := shards;
            shards_responsible := List.length shards |},
         Returned tt)
    end.

Definition set_my_location (lat lon : Q) (self : location)
  : location * outcome unit :=
  _update_shard_responsibility
    {| _my_geohash := Geohash.encode_geohash lat lon GEOHASH_PRECISION_LOCAL;
       _my_shards := _my_shards self;
       shards_responsible := shards_responsible self |}.

End ShardResponsibility.

(** [ShardedData.to_dict] and [ShardedData.from_dict]. *)
Module ShardedDataDict.
Import Py Sharding.

Definition to_dict (self : ShardedData) : dict Json.value :=
  [ ("data_id", Json.JStr (data_id self));
    ("data_type", Json.JStr (DataType_value (data_type self)));
    ("geohash", Json.JStr (geohash self));
    ("data", data self);
    ("timestamp", Json.JFloat (Json.Finite (timestamp self)));
    ("ttl", Json.JInt (ttl self));
    ("replication_factor", Json.JInt (replication_factor self));
    ("is_permanent", Json.JBool (is_permanent self));
    ("source_peer_id", Json.JStr (source_peer_id self)) ].

(** [DataType(v)]; [None] stands for the [ValueError] of a value that
    no member has. *)
Definition DataType_of (v : Json.value) : option DataType :=
  match v with
  | Json.JStr s =>
      find (fun ty => String.eqb (DataType_value ty) s)
           [TRACEROUTE; PEER_LOCATION; INFRASTRUCTURE; CELL_TOWER; MOBILE_TRACE]
  | _ => None
  end.

(** What [from_dict] gives: the object, an exception, or an object
    with a field of another type than the dataclass declares, which the
    record type here does not hold. *)
Inductive built : Set :=
| Built (d : ShardedData)
| Fails (e : exn)
| Untyped.

(** [d.get(key, default)]. *)
Definition field (d : dict Json.value) (key : string) (default : Json.value)
  : Json.value :=
  match dict_get d key with Some v => v | None => default end.

(** [from_dict(d)]; [now] is the clock reading taken for the default
    of the timestamp. *)
Definition from_dict (now : Q) (d : dict Json.value) : built :=
  match dict_get d "data_id" with
  | None => Fails KeyError
  | Some id =>
      match dict_get d "data_type" with
      | None => Fails KeyError
      | Some ty =>
          match DataType_of ty with
          | None => Fails ValueError
          | Some data_type =>
              match id,
                    field d "geohash" (Json.JStr ""),
                    Json.number (field d "timestamp"
                                   (Json.JFloat (Json.Finite now))),
                    field d "ttl" (Json.JInt 86400),
                    field d "replication_factor" (Json.JInt 3),
                    field d "is_permanent" (Json.JBool false),
                    field d "source_peer_id" (Json.JStr "")
              with
              | Json.JStr id, Json.JStr geohash, Some (Json.Finite timestamp),
                Json.JInt ttl, Json.JInt replication_factor,
                Json.JBool is_permanent, Json.JStr source_peer_id =>
                  Built {| data_id := id;
                           data_type := data_type;
                           geohash := geohash;
                           data := field d "data" (Json.JObj []);
                           timestamp := timestamp;
                           ttl := ttl;
                           replication_factor := replication_factor;
                           is_permanent := is_permanent;
                           source_peer_id := source_peer_id |}
              | _, _, _, _, _, _, _ => Untyped
              end
          end
      end
  end.

End ShardedDataDict.

(** * Vocabulary of the storage facts *)

Module StorageSpec.
Import Py Sharding DecaySpec.

(** A cache holds each key once, and files every item under its own
    id. *)
Definition keyed (d : dict ShardedData) : Prop :=
  keys_once d /\ Forall (fun kv => fst kv = data_id (snd kv)) d.

Definition caches_keyed (self : ShardedStorage) : Prop :=
  keyed (_local_data self) /\ keyed (_infrastructure_cache self).

(** The item passes the filters of a region query. *)
Definition matches (geohash_prefix : string) (data_type : option DataType)
           (d : ShardedData) : bool :=
  startswith (geohash d) geohash_prefix && type_matches data_type d.

End StorageSpec.

(** * The DHT client, further ([BitTorrentDHT] in [discovery.py]) *)

Module DHTClient.
Import Py.

(** The value of the byte at position [i]. *)
Definition byte_at (i : nat) (b : string) : N :=
  match String.get i b with
  | Some c => N_of_ascii c
  | None => 0
  end.

(** [socket.inet_ntoa(packed)] for four bytes. *)
Definition inet_ntoa (packed : string) : string :=
  str_of_N (byte_at 0 packed) ++ "." ++ str_of_N (byte_at 1 packed) ++ "."
  ++ str_of_N (byte_at 2 packed) ++ "." ++ str_of_N (byte_at 3 packed).

(** [struct.unpack("!H", b)[0]] for two bytes, and
    [struct.pack("!H", n)] for [n] from 0 to 65535. *)
Definition unpack_H (b : string) : Z :=
  Z.of_N (256 * byte_at 0 b + byte_at 1 b).

Definition pack_H (n : Z) : string :=
  String (ascii_of_N (Z.to_N (n / 256)))
         (String (ascii_of_N (Z.to_N (n mod 256))) "").

(** [_next_transaction_id()]: the new counter and the bytes returned. *)
Definition _next_transaction_id (_transaction_id : Z) : Z * string :=
  let _transaction_id := ((_transaction_id + 1) mod 65536)%Z in
  (_transaction_id, pack_H _transaction_id).

(** A node or a peer of the DHT: [(ip, port)]. *)
Definition endpoint : Set := (string * Z)%type.

Definition endpoint_eqb (a b : endpoint) : bool :=
  String.eqb (fst a) (fst b) && (snd a =? snd b)%Z.

(** [x in l] for a list of endpoints. *)
Definition known (l : list endpoint) (x : endpoint) : bool :=
  existsb (endpoint_eqb x) l.

(** [range(0, n, step)]. *)
Definition range_step (n step : nat) : list nat :=
  map (fun j => j * step)%nat (seq 0 ((n + step - 1) / step)).

(** Body of the loop of [_parse_nodes]. *)
Definition parse_node (nodes_data : string) (_known_nodes : list endpoint)
           (i : nat) : list endpoint :=
  if (i + 26 <=? String.length nodes_data)%nat then
    let node_info := Bencode.slice i (i + 26) nodes_data in
    let ip := inet_ntoa (Bencode.slice 20 24 node_info) in
    let port := unpack_H (Bencode.slice 24 26 node_info) in
    if negb (known _known_nodes (ip, port))
    then (_known_nodes ++ [(ip, port)])%list
    else _known_nodes
  else _known_nodes.

(** [_parse_nodes(nodes_data)] for a [bytes] argument: the new
    [_known_nodes]. *)
Definition _parse_nodes (_known_nodes : list endpoint) (nodes_data : string)
  : list endpoint :=
  fold_left (parse_node nodes_data)
            (range_step (String.length nodes_data) 26) _known_nodes.

(** Body of the loop of [_parse_peers]. *)
Definition parse_peer (_peers_found : list endpoint) (peer_info : string)
  : list endpoint :=
  if (6 <=? String.length peer_info)%nat then
    let ip := inet_ntoa (Bencode.slice 0 4 peer_info) in
    let port := unpack_H (Bencode.slice 4 6 peer_info) in
    if negb (known _peers_found (ip, port))
    then (_peers_found ++ [(ip, port)])%list
    else _peers_found
  else _peers_found.

(** [_parse_peers(peers_data)] for a list of [bytes]: the new
    [_peers_found]. *)
Definition _parse_peers (_peers_found : list endpoint)
           (peers_data : list string) : list endpoint :=
  fold_left parse_peer peers_data _peers_found.

End DHTClient.

(** * The discovery coordinator ([AutoDiscovery] in [discovery.py]) *)

Module AutoDiscovery.
Import Py.

Record DiscoveredPeer : Set := {
  host : string;
  port : Z;
  discovery_method : string;
  discovered_at : Q;
  peer_id : option string
}.

(** The property [address]. *)
Definition address (p : DiscoveredPeer) : string :=
  host p ++ ":" ++ str_of_Z (port p).

(** The fields that [_add_discovered_peer] reads and writes;
    [notified] records the calls of [on_peer_discovered], oldest first,
    and [_on_peer_discovered] tells whether a callback was given. *)
Record t : Type := {
  _discovered_peers : dict DiscoveredPeer;
  _on_peer_discovered : bool;
  notified : list DiscoveredPeer
}.

(** The verdict of [_verify_ham_peer(host, port)]. *)
Definition verifier : Type := string -> Z -> bool.

Definition _add_discovered_peer (now : Q) (verify : verifier) (self : t)
           (host : string) (port : Z) (method : string)
           (peer_id : option string) : t :=
  let address := host ++ ":" ++ str_of_Z port in
  if dict_mem (_discovered_peers self) address then self
  else if verify host port then
    let peer := {| host := host; port := port; discovery_method := method;
                   discovered_at := now; peer_id := peer_id |} in
    {| _discovered_peers := dict_set (_discovered_peers self) address peer;
       _on_peer_discovered := _on_peer_discovered self;
       notified := if _on_peer_discovered self
                   then (notified self ++ [peer])%list
                   else notified self |}
  else self.

Definition get_discovered_peers (self : t) : list DiscoveredPeer :=
  dict_values (_discovered_peers self).

Definition get_bootstrap_addresses (self : t) : list string :=
  map address (dict_values (_discovered_peers self)).

End AutoDiscovery.

(** * Vocabulary of the discovery facts *)

Module DiscoverySpec.
Import Py DHTClient.

(** Append unless present. *)
Definition add_new (l : list endpoint) (x : endpoint) : list endpoint :=
  if negb (known l x) then (l ++ [x])%list else l.

(** The endpoint that a 26-byte node record and a compact peer record
    stand for. *)
Definition node_of (node_info : string) : endpoint :=
  (inet_ntoa (Bencode.slice 20 24 node_info),
   unpack_H (Bencode.slice 24 26 node_info)).

Definition peer_of (peer_info : string) : endpoint :=
  (inet_ntoa (Bencode.slice 0 4 peer_info),
   unpack_H (Bencode.slice 4 6 peer_info)).

(** The endpoints of the complete records of a compact node list, in
    order. *)
Definition node_records (nodes_data : string) : list endpoint :=
  map (fun i => node_of (Bencode.slice i (i + 26) nodes_data))
      (filter (fun i => (i + 26 <=? String.length nodes_data)%nat)
              (range_step (String.length nodes_data) 26)).

(** The endpoints of the entries of a compact peer list that are long
    enough, in order. *)
Definition peer_records (peers_data : list string) : list endpoint :=
  map peer_of (filter (fun e => (6 <=? String.length e)%nat) peers_data).

(** The dotted text of four bytes. *)
Definition dotted (a b c d : ascii) : string :=
  str_of_N (N_of_ascii a) ++ "." ++ str_of_N (N_of_ascii b) ++ "."
  ++ str_of_N (N_of_ascii c) ++ "." ++ str_of_N (N_of_ascii d).

(** The counter after [n] calls of [_next_transaction_id]. *)
Definition nth_transaction (start : Z) (n : nat) : Z :=
  Nat.iter n (fun tid => fst (_next_transaction_id tid)) start.

(** Every peer is filed under its address, once. *)
Definition filed_by_address (self : AutoDiscovery.t) : Prop :=
  DecaySpec.keys_once (AutoDiscovery._discovered_peers self)
  /\ Forall (fun kv => fst kv = AutoDiscovery.address (snd kv))
            (AutoDiscovery._discovered_peers self).

End DiscoverySpec.

(** * Vocabulary of the order of bencode keys *)

Module KeyOrder.
Import Py Bencode.

(** The type of a key: [int], [bytes] or [str]. *)
Definition kind (k : bkey) : nat :=
  match k with
  | KInt _ => 0
  | KBytes _ => 1
  | KStr _ => 2
  end.

(** [a <= b] holds for the keys of two entries. *)
Definition key_le {V : Type} (x y : bkey * V) : Prop :=
  key_leb (fst x) (fst y) = Some true.

(** All keys of the entries are of one type. *)
Definition uniform {V : Type} (l : list (bkey * V)) : Prop :=
  forall x y, In x l -> In y l -> kind (fst x) = kind (fst y).

End KeyOrder.

(** * Vocabulary of the node's handlers *)

Module NodeSpec.
Import Py P2P.

(** The pair by which [_merge_topology_links] tells links apart. *)
Definition link_key (l : Link) : string * string :=
  (link_source l, link_target l).

(** [t.timestamp > cutoff] at the clock reading [now]. *)
Definition recent (now : Q) (self : P2PNode) (t : SharedTraceroute) : Prop :=
  now - inject_Z (_traceroute_max_age self) < timestamp t.

End NodeSpec.

(** * Further sample values *)

Module NodeFixtures.
Import Py.

Definition trace_at (id : string) (t : Q) : P2P.SharedTraceroute :=
  {| P2P.traceroute_id := id;
     P2P.source_peer_id := "peer-b";
     P2P.source_display_name := None;
     P2P.target_peer_id := Some "home";
     P2P.target_ip := "10.0.0.1";
     P2P.target_display_name := None;
     P2P.timestamp := t;
     P2P.tr_hops := [];
     P2P.tr_total_time_ms := None;
     P2P.tr_success := true;
     P2P.is_mobile := false |}.

(** A sharing node that holds a trace of the first hour and one of
    the twenty-eighth. *)
Definition busy_home : P2P.P2PNode :=
  P2P.with_shared (P2P.set_sharing_enabled Fixtures.private_home true)
                  [("t-old", trace_at "t-old" 1000);
                   ("t-new", trace_at "t-new" 99000)].

(** A proof made at the second 100000. *)
Definition late_proof : string :=
  ContributionProof.generate "caller" [("traceroute_count", 1%Z)] 100000 3.

Definition link_of (source target : string) (ms : Q) : P2P.Link :=
  {| P2P.link_source := source;
     P2P.link_target := target;
     P2P.latency_ms := Some ms;
     P2P.hop_count := 0;
     P2P.link_hops := [];
     P2P.link_timestamp := None |}.

(** A node that knows one link. *)
Definition mapped_home : P2P.P2PNode :=
  P2P.with_topology Fixtures.private_home [link_of "home" "peer-b" 12] 1 3.

End NodeFixtures.

(** * Facts about the Python primitives *)

Module PyFacts.
Import Py.

Lemma dict_get_set_same {V : Type} (d : dict V) (k : string) (v : V) :
  dict_get (dict_set d k v) k = Some v.
Proof.
  induction d as [|[k' v'] r IH]; simpl.
  - now rewrite String.eqb_refl.
  - destruct (String.eqb k k') eqn:E; simpl.
    + now rewrite String.eqb_refl.
    + now rewrite E.
Qed.

Lemma firstn_length_le_Z {A : Type} (n : Z) (l : list A) :
  (0 <= n)%Z -> (Z.of_nat (List.length (firstn (Z.to_nat n) l)) <= n)%Z.
Proof.
  intros Hn. rewrite length_firstn. lia.
Qed.

Lemma firstn_In {A : Type} (n : nat) (l : list A) (x : A) :
  In x (firstn n l) -> In x l.
Proof.
  intros H. rewrite <- (firstn_skipn n l). apply in_or_app. now left.
Qed.

Lemma slice_to_incl {A : Type} (n : Z) (l : list A) :
  incl (slice_to n l) l.
Proof.
  unfold slice_to. destruct (0 <=? n)%Z; intros x Hx;
    eapply firstn_In; eassumption.
Qed.

End PyFacts.

(** * The router *)

Module RouterFacts.
Import Py DHTRouter Spec.

Lemma insert_by_perm {A : Type} (key : A -> Z) (x : A) (l : list A) :
  Permutation (insert_by key x l) (x :: l).
Proof.
  induction l as [|y r IH]; simpl.
  - apply Permutation_refl.
  - destruct (key x <=? key y)%Z.
    + apply Permutation_refl.
    + eapply perm_trans; [apply perm_skip, IH | apply perm_swap].
Qed.

Lemma sorted_perm {A : Type} (key : A -> Z) (l : list A) :
  Permutation (sorted key l) l.
Proof.
  induction l as [|x r IH]; simpl.
  - apply perm_nil.
  - eapply perm_trans; [apply insert_by_perm | apply perm_skip, IH].
Qed.

Lemma insert_by_ascending {A : Type} (key : A -> Z) (x : A) (l : list A) :
  ascending key l -> ascending key (insert_by key x l).
Proof.
  unfold ascending.
  induction l as [|y r IH]; simpl; intros Hs.
  - constructor; [constructor | constructor].
  - apply StronglySorted_inv in Hs as [Hr Hy].
    destruct (key x <=? key y)%Z eqn:E.
    + apply Z.leb_le in E.
      constructor.
      * constructor; assumption.
      * constructor; [assumption |].
        eapply Forall_impl; [| exact Hy].
        intros a Ha. simpl in Ha. lia.
    + apply Z.leb_gt in E.
      constructor; [apply IH, Hr |].
      eapply Permutation_Forall.
      * apply Permutation_sym, insert_by_perm.
      * constructor; [lia | assumption].
Qed.

Lemma sorted_ascending {A : Type} (key : A -> Z) (l : list A) :
  ascending key (sorted key l).
Proof.
  induction l as [|x r IH]; simpl.
  - constructor.
  - apply insert_by_ascending, IH.
Qed.

Lemma firstn_ascending {A : Type} (key : A -> Z) (n : nat) (l : list A) :
  ascending key l -> ascending key (firstn n l).
Proof.
  unfold ascending. revert l.
  induction n as [|n IH]; intros [|x r] Hs; simpl; try constructor.
  - apply IH. now apply StronglySorted_inv in Hs.
  - apply StronglySorted_inv in Hs as [_ Hx].
    rewrite Forall_forall in *. intros y Hy.
    apply Hx. eapply PyFacts.firstn_In; eassumption.
Qed.

Lemma slice_to_ascending {A : Type} (key : A -> Z) (n : Z) (l : list A) :
  ascending key l -> ascending key (slice_to n l).
Proof.
  intros Hs. unfold slice_to.
  destruct (0 <=? n)%Z; now apply firstn_ascending.
Qed.

(** The nodes returned for a shard key are known peers. *)
Lemma get_responsible_nodes_incl self shard_key all_peers replication :
  incl (get_responsible_nodes self shard_key all_peers replication) all_peers.
Proof.
  unfold get_responsible_nodes.
  destruct all_peers as [|p r]; [apply incl_refl |].
  intros x Hx. apply PyFacts.slice_to_incl in Hx.
  eapply Permutation_in; [apply sorted_perm | exact Hx].
Qed.

(** C6.  On a swarm no larger than the replication count [should_store]
    answers yes for every shard key; [get_responsible_nodes] returns at
    most [replication] peers, for a replication count that is not
    negative, in ascending order of the XOR distance between the hash of
    the peer id and the hash of the shard key. *)
Theorem replication_bounds
        (self : t) (shard_key : string) (all_peers : list (string * string))
        (total_nodes replication : Z) :
  ((total_nodes <= replication)%Z ->
   should_store self shard_key total_nodes replication = true)
  /\ ((0 <= replication)%Z ->
      (Z.of_nat (List.length
                   (get_responsible_nodes self shard_key all_peers replication))
       <= replication)%Z)
  /\ ascending (peer_distance (SHA256.digest_int shard_key))
               (get_responsible_nodes self shard_key all_peers replication).
Proof.
  split; [| split].
  - intros H. unfold should_store.
    apply Z.leb_le in H. now rewrite H.
  - intros H. unfold get_responsible_nodes.
    destruct all_peers as [|p r]; [simpl; lia |].
    unfold slice_to. apply Z.leb_le in H as Hb. rewrite Hb.
    now apply PyFacts.firstn_length_le_Z.
  - unfold get_responsible_nodes.
    destruct all_peers as [|p r]; [constructor |].
    apply slice_to_ascending, sorted_ascending.
Qed.

Lemma replication_bounds_witness :
  let peers := [("a", "10.0.0.1"); ("b", "10.0.0.2"); ("c", "10.0.0.3")] in
  should_store (init "node-a") "gcp:traceroute" 2 2 = true
  /\ (Z.of_nat (List.length
                  (get_responsible_nodes (init "node-a") "gcp:traceroute"
                                         peers 2))
      <= 2)%Z
  /\ ascending (peer_distance (SHA256.digest_int "gcp:traceroute"))
               (get_responsible_nodes (init "node-a") "gcp:traceroute" peers 2).
Proof.
  intros peers.
  destruct (replication_bounds (init "node-a") "gcp:traceroute" peers 2 2)
    as (H1 & H2 & H3).
  split; [apply H1; lia |]. split; [apply H2; lia | exact H3].
Defined.

End RouterFacts.

(** * The sharded storage *)

Module ShardingFacts.
Import Py Sharding Spec.

(** C7.  [store] of a permanent item, or of an infrastructure or
    cell-tower item, puts it in the permanent cache and returns true,
    whatever the router would answer; a permanent item is not expired at
    any clock reading; [cleanup_expired] leaves the permanent cache as it
    was. *)
Theorem permanent_data_retained
        (now : Q) (self : ShardedStorage) (data : ShardedData) :
  (is_permanent data = true
   \/ data_type data = INFRASTRUCTURE \/ data_type data = CELL_TOWER ->
   snd (store self data) = true
   /\ dict_get (_infrastructure_cache (fst (store self data))) (data_id data)
      = Some data)
  /\ (is_permanent data = true -> is_expired now data = false)
  /\ _infrastructure_cache (fst (cleanup_expired now self))
     = _infrastructure_cache self.
Proof.
  split; [| split].
  - intros H. unfold store.
    assert (E : is_permanent data || is_infrastructure_type (data_type data)
                = true).
    { destruct H as [H | [H | H]]; rewrite H; simpl;
        [reflexivity | apply orb_true_r | apply orb_true_r]. }
    rewrite E. simpl. split; [reflexivity |].
    apply PyFacts.dict_get_set_same.
  - intros H. unfold is_expired. now rewrite H.
  - reflexivity.
Qed.

Lemma permanent_data_retained_witness :
  (snd (store Fixtures.storage_with_peer Fixtures.landmark) = true
   /\ dict_get (_infrastructure_cache
                  (fst (store Fixtures.storage_with_peer Fixtures.landmark)))
               "mast-7"
      = Some Fixtures.landmark)
  /\ is_expired 99999999 Fixtures.landmark = false
  /\ _infrastructure_cache
       (fst (cleanup_expired 99999999 Fixtures.storage_with_peer))
     = _infrastructure_cache Fixtures.storage_with_peer.
Proof.
  destruct (permanent_data_retained
              99999999 Fixtures.storage_with_peer Fixtures.landmark)
    as (H1 & H2 & H3).
  split; [| split].
  - apply H1. left. reflexivity.
  - apply H2. reflexivity.
  - exact H3.
Defined.

(** ** Region queries *)

Lemma scan_local_in_region now geohash_prefix data_type l local results :
  Forall (fun d => in_region geohash_prefix d = true) results ->
  Forall (fun d => in_region geohash_prefix d = true)
         (snd (fold_left (scan_local now geohash_prefix data_type) l
                         (local, results))).
Proof.
  revert local results.
  induction l as [|d r IH]; intros local results H; simpl; [exact H |].
  destruct (is_expired now d); [now apply IH |].
  destruct (startswith (geohash d) geohash_prefix && type_matches data_type d)
           eqn:E; [| now apply IH].
  apply IH. apply Forall_app. split; [exact H |].
  constructor; [| constructor].
  apply andb_true_iff in E. apply E.
Qed.

Lemma scan_infrastructure_in_region geohash_prefix data_type l results :
  Forall (fun d => in_region geohash_prefix d = true) results ->
  Forall (fun d => in_region geohash_prefix d = true)
         (fold_left (scan_infrastructure geohash_prefix data_type) l results).
Proof.
  revert results.
  induction l as [|d r IH]; intros results H; simpl; [exact H |].
  apply IH. unfold scan_infrastructure.
  destruct (startswith (geohash d) geohash_prefix && type_matches data_type d
            && negb (has_id results (data_id d))) eqn:E; [| exact H].
  apply Forall_app. split; [exact H |].
  constructor; [| constructor].
  apply andb_true_iff in E as [E _]. apply andb_true_iff in E. apply E.
Qed.

Lemma merge_fetched_origin (P : ShardedData -> Prop) fetched self results :
  Forall P results -> Forall P fetched ->
  Forall P (snd (fold_left merge_fetched fetched (self, results))).
Proof.
  revert self results.
  induction fetched as [|d r IH]; intros self results Hr Hf; simpl;
    [exact Hr |].
  inversion Hf as [|? ? Hd Hrest]; subst.
  destruct (negb (has_id results (data_id d))).
  - apply IH; [| exact Hrest].
    apply Forall_app. split; [exact Hr | now constructor].
  - now apply IH.
Qed.

Lemma ask_peers_origin net geohash_prefix data_type asked peers results :
  incl peers asked ->
  Forall (returned_by net asked geohash_prefix data_type) results ->
  Forall (returned_by net asked geohash_prefix data_type)
         (ask_peers net geohash_prefix data_type peers results).
Proof.
  revert results.
  induction peers as [|[pid address] r IH]; intros results Hin H; simpl;
    [exact H |].
  assert (Hr : incl r asked) by (intros x Hx; apply Hin; now right).
  destruct (net address geohash_prefix data_type) as [|items complete] eqn:E;
    [now apply IH |].
  assert (H' : Forall (returned_by net asked geohash_prefix data_type)
                      (results ++ items)).
  { apply Forall_app. split; [exact H |].
    apply Forall_forall. intros d Hd.
    exists pid, address, items, complete.
    split; [apply Hin; now left | now split]. }
  destruct complete; [| now apply IH].
  destruct (results ++ items)%list eqn:E'; [now apply IH | exact H'].
Qed.

Lemma fetch_origin net self geohash_prefix data_type :
  Forall (from_peer net self geohash_prefix data_type)
         (_fetch_from_network net self geohash_prefix data_type).
Proof.
  unfold from_peer, queried_peers, _fetch_from_network.
  destruct (DHTRouter.get_responsible_nodes _ _ _ _) eqn:E; [constructor |].
  apply ask_peers_origin; [apply incl_refl | constructor].
Qed.

(** The peers asked are known peers, three at most. *)
Lemma queried_peers_known self geohash_prefix data_type :
  incl (queried_peers self geohash_prefix data_type) (_peer_addresses self)
  /\ (List.length (queried_peers self geohash_prefix data_type) <= 3)%nat.
Proof.
  unfold queried_peers. split.
  - eapply incl_tran; [apply PyFacts.slice_to_incl |].
    apply RouterFacts.get_responsible_nodes_incl.
  - unfold slice_to. change (0 <=? 3)%Z with true. cbv iota.
    rewrite length_firstn. apply Nat.le_min_l.
Qed.

(** C2, as stated, fails: a storage with one known peer and nothing
    stored asks that peer about the prefix [gcp]; the peer answers with
    an item of cell [u10], and the item is in the list returned. *)
Lemma fetched_item_outside_region :
  snd (get_by_geohash 2000 Fixtures.stray_network
         Fixtures.storage_with_peer "gcp" None)
  = [Fixtures.stray]
  /\ geohash Fixtures.stray = "u10"
  /\ startswith (geohash Fixtures.stray) "gcp" = false.
Proof. vm_compute. repeat split. Qed.

(** C2, as the code has it.  Every item that [get_by_geohash] returns
    either has a geohash that starts with the queried prefix or is an
    item that one of the peers asked returned in its answer, and the
    peers asked are at most three of the known peers: the first three
    of the peers that the router names for the shard key.  What they
    return is merged without a look at its geohash. *)
Theorem get_by_geohash_origin
        (now : Q) (net : network) (self : ShardedStorage)
        (geohash_prefix : string) (data_type : option DataType) :
  Forall (fun d => in_region geohash_prefix d = true
                   \/ from_peer net self geohash_prefix data_type d)
         (snd (get_by_geohash now net self geohash_prefix data_type))
  /\ incl (queried_peers self geohash_prefix data_type) (_peer_addresses self)
  /\ (List.length (queried_peers self geohash_prefix data_type) <= 3)%nat.
Proof.
  split; [| apply queried_peers_known].
  unfold get_by_geohash.
  pose proof (scan_local_in_region now geohash_prefix data_type
                (dict_values (_local_data self)) (_local_data self) []
                (Forall_nil _)) as Hl.
  destruct (fold_left (scan_local now geohash_prefix data_type)
                      (dict_values (_local_data self)) (_local_data self, []))
    as [local results]. simpl in Hl.
  pose proof (scan_infrastructure_in_region geohash_prefix data_type
                (dict_values (_infrastructure_cache (with_local self local)))
                results Hl) as Hi.
  set (results' := fold_left (scan_infrastructure geohash_prefix data_type) _ _)
    in *.
  assert (Hr : Forall (fun d => in_region geohash_prefix d = true
                                \/ from_peer net self geohash_prefix data_type d)
                      results').
  { eapply Forall_impl; [| exact Hi]. intros d Hd. now left. }
  match goal with
  | |- context [if ?c then _ else _] => destruct c
  end; [| exact Hr].
  apply merge_fetched_origin; [exact Hr |].
  eapply Forall_impl; [| apply fetch_origin].
  intros d Hd. right. exact Hd.
Qed.

(** Without known peers nothing is fetched, and the whole result lies
    in the queried region. *)
Lemma get_by_geohash_no_peers now net self geohash_prefix data_type :
  _peer_addresses self = [] ->
  Forall (fun d => in_region geohash_prefix d = true)
         (snd (get_by_geohash now net self geohash_prefix data_type)).
Proof.
  intros Hp. unfold get_by_geohash.
  pose proof (scan_local_in_region now geohash_prefix data_type
                (dict_values (_local_data self)) (_local_data self) []
                (Forall_nil _)) as Hl.
  destruct (fold_left (scan_local now geohash_prefix data_type)
                      (dict_values (_local_data self)) (_local_data self, []))
    as [local results]. simpl in Hl.
  pose proof (scan_infrastructure_in_region geohash_prefix data_type
                (dict_values (_infrastructure_cache (with_local self local)))
                results Hl) as Hi.
  simpl. rewrite Hp. rewrite andb_false_r. exact Hi.
Qed.

End ShardingFacts.

(** * The node *)

Module P2PFacts.
Import Py P2P Spec.

(** With sharing disabled a submitted trace is not put in the shared
    set, and the only messages sent are the posts to [/p2p/traceroute]
    of the first peers, each of which carries the trace. *)
Lemma submit_traceroute_private classify now entropy self target_peer_id data :
  _share_data self = false ->
  let '(self', effects, result) :=
    submit_traceroute classify now entropy self target_peer_id data in
  _shared_traceroutes self' = _shared_traceroutes self
  /\ result = Returned tt
  /\ effects =
     map (fun peer =>
            HttpPost ("http://" ++ address peer ++ "/p2p/traceroute")
              (LegacyTraceroute
                 {| sub_source_peer_id := _peer_id self;
                    sub_source_display_name := _display_name self;
                    sub_target_peer_id := target_peer_id;
                    sub_traceroute := data |}))
         (firstn P2P_DHT_REPLICATION (dict_values (_peers self))).
Proof.
  intros Hs. unfold submit_traceroute, _add_traceroute_to_topology.
  cbn [sub_source_peer_id sub_target_peer_id sub_traceroute].
  destruct (String.eqb (_peer_id self) "" || String.eqb target_peer_id "");
    cbn; rewrite Hs; cbn; auto.
Qed.

(** C1, evaluated.  [Fixtures.private_home] has sharing disabled and
    knows one peer.  A trace submitted to it is posted to that peer;
    and a trace that a registered mobile device submits to it is
    returned to a caller of the full sync. *)
Theorem sharing_disabled_still_discloses
        (classify : string -> option Z -> option string -> bool) :
  _share_data Fixtures.private_home = false
  /\ snd (fst (submit_traceroute classify 1000 7 Fixtures.private_home
                 "peer-b" Fixtures.trace))
     = [HttpPost "http://10.0.0.2:8123/p2p/traceroute"
          (LegacyTraceroute
             {| sub_source_peer_id := "home";
                sub_source_display_name := "Home";
                sub_target_peer_id := "peer-b";
                sub_traceroute := Fixtures.trace |})]
  /\ _share_data Fixtures.home_with_device = false
  /\ (let '(home, effects, reply) :=
        _handle_mobile_traceroute classify 1001 9 Fixtures.home_with_device
          "device-token" Fixtures.trace in
      effects = []
      /\ reply = Returned (MobileAccepted "0000000000000009")
      /\ exists traceroute,
          snd (_handle_full_sync 1002 home Fixtures.caller_proof)
          = Returned (SyncData [traceroute] 1 1002)
          /\ traceroute_id traceroute = "0000000000000009"
          /\ tr_hops traceroute = P2P.hops Fixtures.trace).
Proof.
  split; [reflexivity |].
  split; [vm_compute; reflexivity |].
  split; [reflexivity |].
  vm_compute.
  split; [reflexivity |]. split; [reflexivity |].
  eexists. split; [reflexivity |]. split; reflexivity.
Qed.

(** ** Mobile registration *)

(** C10, as stated, fails: a request without an [Authorization] header
    whose body is not JSON makes the handler raise while it decodes the
    body, before it looks at the header, so the answer is not a 401. *)
Lemma mobile_register_without_json :
  snd (_handle_mobile_register 1000 1000 "device-token" 5
         Fixtures.private_home None "")
  = Raised JSONDecodeError
  /\ ~ rejected (snd (_handle_mobile_register 1000 1000 "device-token" 5
                        Fixtures.private_home None "")).
Proof.
  split; [vm_compute; reflexivity |].
  vm_compute. intros H. exact H.
Qed.

(** C10, as the code has it.  For a request whose body decodes as
    JSON, the response is a 401 exactly when the [Authorization] header
    is absent or empty.  When the header is not empty and the body is
    a JSON object, the handler records the fresh token with an expiry
    thirty days after the clock reading taken for it, answers with
    that token, and does the same for any other non-empty header
    value. *)
Theorem mobile_register_gate
        (created_at expires_from : Q) (mobile_token : string) (entropy : N)
        (self : P2PNode) (authorization : option string) (body : string)
        (data : Json.value) :
  Json.loads body = Some data ->
  let run := _handle_mobile_register created_at expires_from mobile_token
               entropy self in
  (rejected (snd (run authorization body))
   <-> authorization = None \/ authorization = Some "")
  /\ (forall a members,
         authorization = Some a -> a <> "" -> data = Json.JObj members ->
         snd (run authorization body)
         = Returned (Registered mobile_token (_peer_id self)
                       (_display_name self) (_host self) (_actual_port self)
                       2592000)
         /\ (exists entry,
                dict_get (_mobile_tokens (fst (run authorization body)))
                         mobile_token = Some entry
                /\ created entry = created_at
                /\ expires entry = expires_from + 2592000
                /\ home_peer_id entry = _peer_id self)
         /\ (forall a', a' <> "" -> run (Some a') body = run authorization body)).
Proof.
  intros Hbody run. subst run. unfold _handle_mobile_register.
  rewrite Hbody. split.
  - destruct authorization as [a|].
    + destruct (String.eqb a "") eqn:E.
      * apply String.eqb_eq in E. subst a. simpl. split; auto.
      * apply String.eqb_neq in E. split.
        -- intros H.
           destruct (Json.get data "device_name" (Json.JStr "Mobile Device"));
             simpl in H; [discriminate | contradiction].
        -- intros [H | H]; [discriminate | congruence].
    + simpl. split; auto.
  - intros a members Ha Hne Hd. subst authorization data.
    apply String.eqb_neq in Hne. rewrite Hne.
    cbn [Json.get snd fst].
    split; [reflexivity |]. split.
    + eexists. split; [apply PyFacts.dict_get_set_same |].
      cbn. repeat split; reflexivity.
    + intros a' Hne'. apply String.eqb_neq in Hne'. now rewrite Hne'.
Qed.

Lemma mobile_register_gate_witness :
  Json.loads "{}" = Some (Json.JObj [])
  /\ snd (_handle_mobile_register 1000 1001 "device-token" 5
            Fixtures.private_home (Some "anything at all") "{}")
     = Returned (Registered "device-token" "home" "Home" "10.0.0.1" 0 2592000).
Proof.
  split; [vm_compute; reflexivity |].
  apply (proj2 (mobile_register_gate 1000 1001 "device-token" 5
                  Fixtures.private_home (Some "anything at all") "{}"
                  (Json.JObj []) eq_refl)
           "anything at all" []);
    [reflexivity | discriminate | reflexivity].
Defined.

End P2PFacts.

(** * Contribution proofs *)

Module ProofErrors.
Import Py Json ContributionProof.

(** C4, evaluated.  The text before the bar is the JSON number 5 and
    the text after it is the start of its SHA-256 digest, so the
    signature check passes and the decoded value is an [int], which
    has no [get]: the [AttributeError] is not among the exceptions that
    [verify] catches, and it leaves [verify] and [is_contributing]. *)
Theorem verify_raises_on_non_object (now : Q) :
  verify now "5|ef2d127de37b942baad06145e54b0c61" = Raised AttributeError
  /\ is_contributing now "5|ef2d127de37b942baad06145e54b0c61" 1
     = Raised AttributeError.
Proof.
  split; vm_compute; reflexivity.
Qed.

(** A proof without a bar, or with a wrong signature, is refused
    without an exception. *)
Lemma verify_refuses_malformed (now : Q) :
  verify now "no bar here" = Returned (false, None)
  /\ verify now "{}|0000" = Returned (false, None)
  /\ is_contributing now "" 1 = Returned false.
Proof.
  repeat split; vm_compute; reflexivity.
Qed.

End ProofErrors.

(** * Strings and decimal numerals *)

Module StringFacts.
Import Py Spec.

Lemma append_assoc (a b c : string) : (a ++ b) ++ c = a ++ (b ++ c).
Proof. induction a as [|x a IH]; simpl; [reflexivity | now rewrite IH]. Qed.

Lemma append_nil_r (a : string) : a ++ "" = a.
Proof. induction a as [|x a IH]; simpl; [reflexivity | now rewrite IH]. Qed.

Lemma length_append (a b : string) :
  String.length (a ++ b) = (String.length a + String.length b)%nat.
Proof. induction a as [|x a IH]; simpl; [reflexivity | now rewrite IH]. Qed.

Lemma all_append p a b : all p (a ++ b) = all p a && all p b.
Proof.
  induction a as [|x a IH]; simpl; [reflexivity |].
  now rewrite IH, andb_assoc.
Qed.

Lemma all_impl (p q : ascii -> bool) s :
  (forall c, p c = true -> q c = true) -> all p s = true -> all q s = true.
Proof.
  intros H. induction s as [|x s IH]; simpl; [reflexivity |].
  intros E. apply andb_true_iff in E as [E1 E2].
  now rewrite (H _ E1), IH.
Qed.

Lemma all_substring p n m s : all p s = true -> all p (substring n m s) = true.
Proof.
  revert n m. induction s as [|x s IH]; intros n m H.
  - destruct n, m; reflexivity.
  - simpl in H. apply andb_true_iff in H as [H1 H2].
    destruct n as [|n].
    + destruct m as [|m]; simpl; [reflexivity |].
      now rewrite H1, IH.
    + simpl. now apply IH.
Qed.

Lemma length_substring_le n m s : (String.length (substring n m s) <= m)%nat.
Proof.
  revert n m. induction s as [|x s IH]; intros n m.
  - destruct n, m; simpl; lia.
  - destruct n as [|n].
    + destruct m as [|m]; simpl; [lia |]. specialize (IH 0%nat m). lia.
    + simpl. apply IH.
Qed.

Lemma length_take n s :
  (n <= String.length s)%nat -> String.length (take n s) = n.
Proof.
  unfold take. revert n. induction s as [|x s IH]; intros n H.
  - simpl in H. assert (n = 0%nat) by lia. subst. reflexivity.
  - destruct n as [|n]; simpl; [reflexivity |].
    simpl in H. rewrite IH; [reflexivity | lia].
Qed.

(** ** Digits *)

Lemma digit_char_facts (m : N) :
  (m < 10)%N ->
  is_digit (digit_char m) = true
  /\ digit_val (digit_char m) = m
  /\ (Ascii.eqb (digit_char m) "0" = true <-> m = 0%N).
Proof.
  intros H.
  assert (E : (m = 0 \/ m = 1 \/ m = 2 \/ m = 3 \/ m = 4 \/ m = 5 \/ m = 6
               \/ m = 7 \/ m = 8 \/ m = 9)%N) by lia.
  repeat (destruct E as [E | E]; [subst m; repeat split; intros; try reflexivity; try discriminate |]).
  subst m; repeat split; intros; try reflexivity; try discriminate.
Qed.

Lemma digits_val_append a ds c :
  digits_val a (ds ++ String c "") = (10 * digits_val a ds + digit_val c)%N.
Proof.
  revert a. induction ds as [|x ds IH]; intros a; simpl; [reflexivity |].
  apply IH.
Qed.

(** What [digits_acc] puts in front of its accumulator. *)
Lemma digits_acc_S fuel n acc :
  digits_acc (S fuel) n acc
  = if (n <? 10)%N then String (digit_char (n mod 10)) acc
    else digits_acc fuel (n / 10) (String (digit_char (n mod 10)) acc).
Proof. reflexivity. Qed.

Lemma digits_acc_spec fuel :
  forall n acc,
    (n < 10 ^ N.of_nat (S fuel))%N ->
    exists ds,
      digits_acc (S fuel) n acc = ds ++ acc
      /\ all is_digit ds = true
      /\ (0 < String.length ds)%nat
      /\ (forall a, digits_val a ds
                    = a * 10 ^ N.of_nat (String.length ds) + n)%N
      /\ (leading_zero ds = true <-> n = 0%N)
      /\ (n = 0%N -> ds = "0").
Proof.
  induction fuel as [|fuel IH]; intros n acc Hn;
    rewrite digits_acc_S;
    assert (Hm : (n mod 10 < 10)%N) by (apply N.mod_lt; lia);
    destruct (digit_char_facts _ Hm) as (Hd & Hv & Hz);
    (destruct (n <? 10)%N eqn:E;
     [ apply N.ltb_lt in E;
       exists (String (digit_char (n mod 10)) "");
       rewrite N.mod_small in * by exact E;
       repeat split;
       [ simpl; now rewrite Hd
       | simpl; lia
       | intros a; cbn [digits_val String.length]; rewrite Hv;
         change (N.of_nat 1) with 1%N; rewrite N.pow_1_r; lia
       | simpl; apply Hz
       | simpl; apply Hz
       | intros ->; reflexivity ]
     | apply N.ltb_ge in E ]).
  - simpl in Hn. lia.
  - assert (Hq : (n / 10 < 10 ^ N.of_nat (S fuel))%N).
    { apply N.Div0.div_lt_upper_bound.
      replace (N.of_nat (S (S fuel))) with (N.succ (N.of_nat (S fuel)))
        in Hn by lia.
      rewrite N.pow_succ_r' in Hn. exact Hn. }
    destruct (IH (n / 10)%N (String (digit_char (n mod 10)) acc) Hq)
      as (ds & E1 & E2 & E3 & E4 & E5 & E6).
    exists (ds ++ String (digit_char (n mod 10)) "").
    assert (Hq0 : (n / 10 <> 0)%N).
    { intros Hq0. apply N.div_small_iff in Hq0; lia. }
    repeat split.
    + rewrite E1, append_assoc. reflexivity.
    + rewrite all_append, E2. simpl. now rewrite Hd.
    + rewrite length_append. simpl. lia.
    + intros a. rewrite digits_val_append, E4, Hv, length_append.
      cbn [String.length].
      replace (N.of_nat (String.length ds + 1))
        with (N.succ (N.of_nat (String.length ds))) by lia.
      rewrite N.pow_succ_r'.
      pose proof (N.div_mod n 10 ltac:(lia)). nia.
    + intros Hl. destruct ds as [|x ds]; [simpl in E3; lia |].
      simpl in Hl. exfalso. apply Hq0. apply E5. exact Hl.
    + intros ->. simpl in E. lia.
    + intros ->. simpl in E. lia.
Qed.

Lemma str_of_N_spec (n : N) :
  all is_digit (str_of_N n) = true
  /\ (0 < String.length (str_of_N n))%nat
  /\ digits_val 0 (str_of_N n) = n
  /\ (leading_zero (str_of_N n) = true <-> n = 0%N)
  /\ (n = 0%N -> str_of_N n = "0").
Proof.
  unfold str_of_N.
  assert (Hn : (n < 10 ^ N.of_nat (S (N.to_nat (N.log2 n))))%N).
  { destruct n as [|p]; [reflexivity |].
    pose proof (N.log2_spec (N.pos p) ltac:(lia)) as [_ H].
    eapply N.lt_le_trans; [exact H |].
    replace (N.of_nat (S (N.to_nat (N.log2 (N.pos p)))))
      with (N.succ (N.log2 (N.pos p))) by lia.
    apply N.pow_le_mono_l. lia. }
  destruct (digits_acc_spec _ n "" Hn) as (ds & E1 & E2 & E3 & E4 & E5 & E6).
  rewrite E1, append_nil_r.
  repeat split; try assumption.
  - rewrite E4. lia.
  - apply E5.
  - apply E5.
Qed.

Lemma span_digits_append ds tail :
  all is_digit ds = true ->
  match tail with
  | String c _ => is_digit c = false
  | EmptyString => True
  end ->
  span_digits (ds ++ tail) = (ds, tail).
Proof.
  intros Hd Ht. induction ds as [|x ds IH]; simpl.
  - destruct tail as [|c t]; [reflexivity |]. simpl. now rewrite Ht.
  - simpl in Hd. apply andb_true_iff in Hd as [H1 H2].
    now rewrite H1, IH.
Qed.

End StringFacts.

(** * The JSON codec on the texts that [generate] writes *)

Module JsonFacts.
Import Py Json Spec StringFacts.

Ltac by_cases c :=
  destruct c as [[] [] [] [] [] [] [] []]; try discriminate; reflexivity.

Lemma parse_string_body_plain c r :
  plain c = true ->
  parse_string_body (String c r) = prepend (String c "") (parse_string_body r).
Proof. by_cases c. Qed.

Lemma parse_string_body_append s rest :
  all plain s = true ->
  parse_string_body (s ++ String "034" rest) = Some (s, rest).
Proof.
  induction s as [|c s IH]; intros H.
  - reflexivity.
  - simpl in H. apply andb_true_iff in H as [H1 H2].
    change (String c s ++ String "034" rest)
      with (String c (s ++ String "034" rest)).
    rewrite (parse_string_body_plain _ _ H1), (IH H2). reflexivity.
Qed.

Lemma utf8_decode_plain c r :
  plain c = true -> utf8_decode (String c r) = code c :: utf8_decode r.
Proof. by_cases c. Qed.

Lemma escape_cp_plain c :
  plain c = true -> escape_cp (code c) = String c "".
Proof. by_cases c. Qed.

Lemma dumps_str_plain s :
  all plain s = true ->
  dumps_str s = String "034" (s ++ String "034" "").
Proof.
  intros H. unfold dumps_str. f_equal. f_equal.
  induction s as [|c s IH]; [reflexivity |].
  simpl in H. apply andb_true_iff in H as [H1 H2].
  rewrite (utf8_decode_plain _ _ H1).
  cbn [map String.concat]. rewrite (escape_cp_plain _ H1).
  destruct (map escape_cp (utf8_decode s)) eqn:E.
  - simpl in IH. rewrite <- IH by exact H2. reflexivity.
  - rewrite IH by exact H2. reflexivity.
Qed.

(** ** Numbers *)

Lemma digit_not_minus d : is_digit d = true -> (code d =? 45)%N = false.
Proof. by_cases d. Qed.

Lemma digit_zero_code d :
  is_digit d = true -> (code d =? 48)%N = Ascii.eqb d "0".
Proof. by_cases d. Qed.

Lemma closes_cases c :
  closes c = true ->
  is_digit c = false /\ (code c =? 46)%N = false
  /\ ((code c =? 101) || (code c =? 69))%N = false
  /\ is_ws c = false.
Proof.
  destruct c as [[] [] [] [] [] [] [] []]; try discriminate;
    repeat split; reflexivity.
Qed.

(** The integer part that [parse_number] takes from a digit string. *)
Lemma integer_part {R : Type} d ds' c t (r : string -> string -> R) :
  all is_digit (String d ds') = true ->
  (leading_zero (String d ds') = true -> String d ds' = "0") ->
  is_digit c = false ->
  (let '(ip, s2) :=
     if (code d =? 48)%N then (String d "", ds' ++ String c t)
     else span_digits (String d (ds' ++ String c t)) in
   r ip s2) = r (String d ds') (String c t).
Proof.
  intros Hd Hz C1.
  assert (Hd1 : is_digit d = true).
  { simpl in Hd. now apply andb_true_iff in Hd. }
  rewrite (digit_zero_code _ Hd1).
  destruct (Ascii.eqb d "0") eqn:E0.
  - specialize (Hz E0). injection Hz as -> ->. reflexivity.
  - change (String d (ds' ++ String c t)) with (String d ds' ++ String c t).
    rewrite span_digits_append; [reflexivity | exact Hd | exact C1].
Qed.

Lemma parse_unsigned neg ds c t :
  all is_digit ds = true ->
  (0 < String.length ds)%nat ->
  (leading_zero ds = true -> ds = "0") ->
  closes c = true ->
  parse_number (sign_text neg ++ ds ++ String c t)
  = Some (JInt (signed neg (digits_val 0 ds)), String c t).
Proof.
  intros Hd Hl Hz Hc.
  destruct (closes_cases _ Hc) as (C1 & C2 & C3 & C4).
  destruct ds as [|d ds']; [simpl in Hl; lia |].
  assert (Hd1 : is_digit d = true).
  { simpl in Hd. now apply andb_true_iff in Hd. }
  destruct neg.
  - change (sign_text true ++ String d ds' ++ String c t)
      with (String "-" (String d (ds' ++ String c t))).
    unfold parse_number.
    change (code "-" =? 45)%N with true. cbv iota.
    rewrite Hd1. cbn [negb].
    rewrite (integer_part d ds' c t _ Hd Hz C1).
    rewrite C2, C3. reflexivity.
  - change (sign_text false ++ String d ds' ++ String c t)
      with (String d (ds' ++ String c t)).
    unfold parse_number. rewrite (digit_not_minus _ Hd1), Hd1.
    cbn [negb].
    rewrite (integer_part d ds' c t _ Hd Hz C1).
    rewrite C2, C3. reflexivity.
Qed.

Lemma parse_number_str_of_Z z c t :
  closes c = true ->
  parse_number (str_of_Z z ++ String c t) = Some (JInt z, String c t).
Proof.
  intros Hc.
  assert (G : forall n, parse_number (sign_text false
                                      ++ str_of_N n ++ String c t)
                        = Some (JInt (Z.of_N n), String c t)).
  { intros n. destruct (str_of_N_spec n) as (S1 & S2 & S3 & S4 & S5).
    rewrite (parse_unsigned false); try assumption.
    - unfold signed. now rewrite S3.
    - intros H. apply S5, S4, H. }
  destruct z as [|p|p].
  - apply (G 0%N).
  - apply (G (N.pos p)).
  - destruct (str_of_N_spec (N.pos p)) as (S1 & S2 & S3 & S4 & S5).
    change (str_of_Z (Z.neg p) ++ String c t)
      with (sign_text true ++ str_of_N (N.pos p) ++ String c t).
    rewrite (parse_unsigned true); try assumption.
    + unfold signed. now rewrite S3.
    + intros H. apply S5, S4, H.
Qed.

(** The first character of a decimal numeral. *)
Lemma str_of_Z_head z :
  exists d r, str_of_Z z = String d r
              /\ (is_digit d = true \/ d = "-"%char).
Proof.
  destruct z as [|p|p].
  - exists "0"%char, "". split; [reflexivity | now left].
  - destruct (str_of_N_spec (N.pos p)) as (S1 & S2 & _).
    change (str_of_Z (Z.pos p)) with (str_of_N (N.pos p)).
    destruct (str_of_N (N.pos p)) as [|d r]; [simpl in S2; lia |].
    exists d, r. split; [reflexivity |].
    simpl in S1. apply andb_true_iff in S1. now left.
  - exists "-"%char, (str_of_N (N.pos p)). split; [reflexivity | now right].
Qed.

Lemma parse_value_number_head fuel d r v rest :
  is_digit d = true \/ d = "-"%char ->
  parse_number (String d r) = Some (v, rest) ->
  parse_value (S fuel) (String d r) = Parsed v rest.
Proof.
  intros [H | ->] Hp.
  - destruct d as [[] [] [] [] [] [] [] []]; try discriminate;
      cbn -[parse_number]; rewrite Hp; reflexivity.
  - cbn -[parse_number]. rewrite Hp. reflexivity.
Qed.

Lemma parse_value_int fuel z c t :
  closes c = true ->
  parse_value (S fuel) (str_of_Z z ++ String c t) = Parsed (JInt z) (String c t).
Proof.
  intros Hc. pose proof (parse_number_str_of_Z z c t Hc) as Hp.
  destruct (str_of_Z_head z) as (d & r & E & Hd).
  rewrite E in *.
  change (String d r ++ String c t) with (String d (r ++ String c t)) in *.
  now apply parse_value_number_head.
Qed.

Lemma parse_value_str fuel s rest :
  all plain s = true ->
  parse_value (S fuel) (dumps_str s ++ rest) = Parsed (JStr s) rest.
Proof.
  intros H. rewrite (dumps_str_plain _ H).
  change (String "034" (s ++ String "034" "") ++ rest)
    with (String "034" ((s ++ String "034" "") ++ rest)).
  rewrite append_assoc.
  change (String "034" "" ++ rest) with (String "034" rest).
  cbn [parse_value]. change (code "034" =? 34)%N with true. cbv iota.
  now rewrite parse_string_body_append.
Qed.

(** ** Members of an object *)

Lemma parse_value_scalar fuel x c t :
  scalar_ok x -> closes c = true ->
  parse_value (S fuel) (dumps_scalar x ++ String c t)
  = Parsed (to_value x) (String c t).
Proof.
  intros Hx Hc. destruct x as [s | z]; simpl dumps_scalar.
  - now apply parse_value_str.
  - now apply parse_value_int.
Qed.

Lemma skip_ws_scalar x rest :
  scalar_ok x -> skip_ws (dumps_scalar x ++ rest) = dumps_scalar x ++ rest.
Proof.
  intros Hx. destruct x as [s | z]; simpl dumps_scalar.
  - rewrite (dumps_str_plain _ Hx). reflexivity.
  - destruct (str_of_Z_head z) as (d & r & -> & [Hd | ->]).
    + change (String d r ++ rest) with (String d (r ++ rest)).
      cbn [skip_ws].
      assert (is_ws d = false) as -> by (clear - Hd; by_cases d).
      reflexivity.
    + reflexivity.
Qed.

Lemma parse_members_S fuel s acc :
  parse_members (S fuel) s acc
  = match parse_string_body s with
    | None => Invalid
    | Some (k, r) =>
        match skip_ws r with
        | EmptyString => Invalid
        | String c1 r1 =>
            if negb (code c1 =? 58)%N then Invalid
            else
              match parse_value fuel (skip_ws r1) with
              | Parsed v r2 =>
                  match skip_ws r2 with
                  | EmptyString => Invalid
                  | String c2 r3 =>
                      if (code c2 =? 125)%N
                      then Parsed (JObj (dict_set acc k v)) r3
                      else if (code c2 =? 44)%N then
                        match skip_ws r3 with
                        | EmptyString => Invalid
                        | String c3 r4 =>
                            if (code c3 =? 34)%N
                            then parse_members fuel r4 (dict_set acc k v)
                            else Invalid
                        end
                      else Invalid
                  end
              | other => other
              end
        end
    end.
Proof. reflexivity. Qed.

(** The text of a member that is followed by another one. *)
Lemma parse_members_more fuel k x rest acc :
  all plain k = true -> scalar_ok x ->
  parse_members (S (S fuel))
    (k ++ String "034" (": " ++ dumps_scalar x ++ ", " ++ String "034" rest))
    acc
  = parse_members (S fuel) rest (dict_set acc k (to_value x)).
Proof.
  intros Hk Hx.
  rewrite parse_members_S, (parse_string_body_append _ _ Hk).
  change (": " ++ dumps_scalar x ++ ", " ++ String "034" rest)
    with (String ":" (String " " (dumps_scalar x ++ ", " ++ String "034" rest))).
  change (skip_ws (String ":" ?r)) with (String ":" r).
  cbv iota. change (negb (code ":" =? 58)%N) with false. cbv iota.
  change (skip_ws (String " " ?r)) with (skip_ws r).
  rewrite (skip_ws_scalar _ _ Hx).
  change (", " ++ String "034" rest)
    with (String "," (String " " (String "034" rest))).
  rewrite (parse_value_scalar fuel x "," _ Hx eq_refl).
  reflexivity.
Qed.

(** The text of the last member, with the closing brace. *)
Lemma parse_members_last fuel k x rest acc :
  all plain k = true -> scalar_ok x ->
  parse_members (S (S fuel))
    (k ++ String "034" (": " ++ dumps_scalar x ++ String "}" rest)) acc
  = Parsed (JObj (dict_set acc k (to_value x))) rest.
Proof.
  intros Hk Hx.
  rewrite parse_members_S, (parse_string_body_append _ _ Hk).
  change (": " ++ dumps_scalar x ++ String "}" rest)
    with (String ":" (String " " (dumps_scalar x ++ String "}" rest))).
  change (skip_ws (String ":" ?r)) with (String ":" r).
  cbv iota. change (negb (code ":" =? 58)%N) with false. cbv iota.
  change (skip_ws (String " " ?r)) with (skip_ws r).
  rewrite (skip_ws_scalar _ _ Hx).
  rewrite (parse_value_scalar fuel x "}" _ Hx eq_refl).
  reflexivity.
Qed.

(** ** A whole object *)

Lemma members_text_length l :
  (List.length l <= String.length (members_text l))%nat.
Proof.
  induction l as [|[k x] r IH]; [simpl; lia |].
  destruct r as [|kv r'].
  - cbn [members_text]. rewrite length_append. simpl. lia.
  - change (members_text ((k, x) :: kv :: r'))
      with (k ++ String "034"
              (": " ++ dumps_scalar x ++ ", "
               ++ String "034" (members_text (kv :: r')))).
    rewrite length_append. cbn [String.length].
    change (": " ++ ?a) with (String ":" (String " " a)).
    cbn [String.length]. rewrite length_append.
    change (", " ++ ?a) with (String "," (String " " a)).
    cbn [String.length]. cbn [List.length] in *. lia.
Qed.

Lemma dumps_members_text l :
  l <> [] -> Forall member_ok l ->
  String.concat ", " (map dumps_member l) ++ "}"
  = String "034" (members_text l).
Proof.
  induction l as [|[k x] r IH]; intros Hne Hok; [congruence |].
  inversion Hok as [|? ? [Hk Hx] Hr]; subst. simpl in Hk, Hx.
  destruct r as [|kv r'].
  - cbn [map String.concat members_text]. unfold dumps_member.
    cbn [fst snd]. rewrite (dumps_str_plain _ Hk).
    cbn [append]. f_equal. rewrite !append_assoc. reflexivity.
  - change (String.concat ", " (map dumps_member ((k, x) :: kv :: r')))
      with (dumps_member (k, x) ++ ", "
            ++ String.concat ", " (map dumps_member (kv :: r'))).
    rewrite !append_assoc, IH by (congruence || assumption).
    unfold dumps_member. cbn [fst snd].
    rewrite (dumps_str_plain _ Hk).
    change (members_text ((k, x) :: kv :: r'))
      with (k ++ String "034"
              (": " ++ dumps_scalar x ++ ", "
               ++ String "034" (members_text (kv :: r')))).
    cbn [append]. f_equal. rewrite !append_assoc. reflexivity.
Qed.

Lemma parse_members_text l :
  forall acc extra,
    l <> [] -> Forall member_ok l ->
    parse_members (S (List.length l) + extra) (members_text l) acc
    = Parsed (JObj (fold_left set_member l acc)) "".
Proof.
  induction l as [|[k x] r IH]; intros acc extra Hne Hok; [congruence |].
  inversion Hok as [|? ? [Hk Hx] Hr]; subst. simpl in Hk, Hx.
  destruct r as [|kv r'].
  - change (parse_members (S (S extra))
              (k ++ String "034" (": " ++ dumps_scalar x ++ String "}" "")) acc
            = Parsed (JObj (set_member acc (k, x))) "").
    now rewrite parse_members_last.
  - change (members_text ((k, x) :: kv :: r'))
      with (k ++ String "034"
              (": " ++ dumps_scalar x ++ ", "
               ++ String "034" (members_text (kv :: r')))).
    change (S (List.length ((k, x) :: kv :: r')) + extra)%nat
      with (S (S (List.length (kv :: r') + extra))).
    rewrite parse_members_more by assumption.
    change (S (List.length (kv :: r') + extra))
      with (S (List.length (kv :: r')) + extra)%nat.
    rewrite IH by (congruence || assumption). reflexivity.
Qed.

Lemma insert_sorted_ok kv l :
  member_ok kv -> Forall member_ok l -> Forall member_ok (insert_sorted kv l).
Proof.
  intros Hkv Hl. induction Hl as [|kv' l' Hkv' Hl' IH]; cbn [insert_sorted].
  - constructor; [exact Hkv | constructor].
  - destruct (String.ltb (fst kv) (fst kv')).
    + constructor; [exact Hkv |]. constructor; assumption.
    + constructor; assumption.
Qed.

Lemma sort_items_ok d : Forall member_ok d -> Forall member_ok (sort_items d).
Proof.
  intros Hok. induction Hok as [|kv l Hkv Hl IH]; [constructor |].
  now apply insert_sorted_ok.
Qed.

(** What [loads] reads from what [dumps_sorted] wrote. *)
Lemma loads_dumps_sorted (d : dict scalar) :
  Forall member_ok d ->
  loads (dumps_sorted d) = Some (loaded d).
Proof.
  intros Hok. unfold dumps_sorted, loads, loaded.
  pose proof (sort_items_ok d Hok) as Hs.
  destruct (sort_items d) as [|kv l] eqn:E.
  - reflexivity.
  - change ("{" ++ ?a) with (String "{" a).
    rewrite dumps_members_text by (congruence || assumption).
    cbn [skip_ws is_ws]. change (is_ws "{") with false. cbv iota.
    pose proof (members_text_length (kv :: l)) as Hlen.
    set (text := members_text (kv :: l)) in *.
    cbn [String.length].
    replace (2 * S (S (String.length text)) + 2)%nat
      with (S (S (List.length (kv :: l))
               + (2 * String.length text + 4 - List.length (kv :: l))))%nat
      by lia.
    set (extra := (2 * String.length text + 4 - List.length (kv :: l))%nat).
    change (parse_value (S ?f) (String "{" (String "034" text)))
      with (parse_members f text []).
    subst text. rewrite parse_members_text by (congruence || assumption).
    reflexivity.
Qed.

End JsonFacts.

(** * Contribution proofs: what [verify] accepts *)

Module ProofFacts.
Import Py Json ContributionProof Spec StringFacts JsonFacts.

(** ** Hexadecimal digests *)

Lemma hex_char_is_hex (m : N) : (m < 16)%N -> is_hex (SHA256.hex_char m) = true.
Proof.
  intros H.
  assert (E : (m = 0 \/ m = 1 \/ m = 2 \/ m = 3 \/ m = 4 \/ m = 5 \/ m = 6
               \/ m = 7 \/ m = 8 \/ m = 9 \/ m = 10 \/ m = 11 \/ m = 12
               \/ m = 13 \/ m = 14 \/ m = 15)%N) by lia.
  repeat (destruct E as [E | E]; [subst m; reflexivity |]).
  subst m. reflexivity.
Qed.

Lemma hex_digits_spec count n :
  all is_hex (SHA256.hex_digits count n) = true
  /\ String.length (SHA256.hex_digits count n) = count.
Proof.
  induction count as [|count [IH1 IH2]]; [split; reflexivity |].
  cbn [SHA256.hex_digits all String.length]. rewrite IH1, IH2.
  split; [| reflexivity].
  rewrite hex_char_is_hex; [reflexivity |].
  change 15%N with (N.ones 4). rewrite N.land_ones.
  apply N.mod_lt. discriminate.
Qed.

Lemma hexdigest_spec msg :
  all is_hex (SHA256.hexdigest msg) = true
  /\ String.length (SHA256.hexdigest msg) = 64%nat.
Proof.
  unfold SHA256.hexdigest, SHA256.digest_words. cbv zeta.
  set (r := SHA256.blocks _ _ _).
  cbn [map String.concat].
  rewrite !all_append, !length_append.
  repeat match goal with
         | |- context [SHA256.hex_digits 8 ?w] =>
             let H1 := fresh in let H2 := fresh in
             destruct (hex_digits_spec 8 w) as [H1 H2];
             rewrite H1, H2; clear H1 H2
         end.
  split; reflexivity.
Qed.

Lemma is_hex_plain c : is_hex c = true -> plain c = true.
Proof. by_cases c. Qed.

Lemma is_hex_not_bar c : is_hex c = true -> Ascii.eqb c "|" = false.
Proof. by_cases c. Qed.

Lemma signature_of_spec ps :
  all is_hex (signature_of ps) = true
  /\ String.length (signature_of ps) = 32%nat.
Proof.
  destruct (hexdigest_spec ps) as [H1 H2]. unfold signature_of. split.
  - unfold take. now apply all_substring.
  - apply length_take. rewrite H2. lia.
Qed.

(** ** Splitting at the last bar *)

Lemma rsplit1_none sep s :
  all (fun c => negb (Ascii.eqb c sep)) s = true -> rsplit1 sep s = None.
Proof.
  induction s as [|c s IH]; intros H; [reflexivity |].
  simpl in H. apply andb_true_iff in H as [H1 H2].
  cbn [rsplit1]. rewrite (IH H2).
  apply negb_true_iff in H1. now rewrite H1.
Qed.

Lemma rsplit1_append sep a b :
  rsplit1 sep (a ++ String sep b)
  = match rsplit1 sep b with
    | Some (b1, b2) => Some (a ++ String sep b1, b2)
    | None => Some (a, b)
    end.
Proof.
  induction a as [|c a IH].
  - cbn [append rsplit1]. destruct (rsplit1 sep b) as [[b1 b2]|];
      [reflexivity |]. now rewrite Ascii.eqb_refl.
  - change (String c a ++ String sep b) with (String c (a ++ String sep b)).
    cbn [rsplit1]. rewrite IH.
    destruct (rsplit1 sep b) as [[b1 b2]|]; reflexivity.
Qed.


Lemma rsplit1_signed ps sig :
  all is_hex sig = true -> rsplit1 "|" (ps ++ "|" ++ sig) = Some (ps, sig).
Proof.
  intros H. change (ps ++ "|" ++ sig) with (ps ++ String "|" sig).
  rewrite rsplit1_append, rsplit1_none; [reflexivity |].
  eapply all_impl; [| exact H].
  intros c Hc. now rewrite (is_hex_not_bar _ Hc).
Qed.

(** ** Verification of a signed record *)

Lemma verify_signed now ps :
  verify now (ps ++ "|" ++ signature_of ps)
  = match loads ps with
    | None => Returned (false, None)
    | Some proof_data =>
        bind (get proof_data "timestamp" (JInt 0)) (fun ts =>
        bind (rsub now ts) (fun age =>
        if gt_int age 86400
        then Returned (false, None)
        else Returned (true, Some proof_data)))
    end.
Proof.
  unfold verify.
  rewrite rsplit1_signed by apply signature_of_spec.
  now rewrite String.eqb_refl.
Qed.

Lemma loads_record h n t u ts :
  all plain h = true -> all plain n = true ->
  loads (dumps_sorted (record h n t u ts)) = Some (record_value h n t u ts).
Proof.
  intros Hh Hn. rewrite loads_dumps_sorted; [reflexivity |].
  unfold record, member_ok.
  repeat (constructor; [split; [reflexivity | simpl; auto] |]).
  constructor.
Qed.


Lemma verify_record now h n t u ts :
  all plain h = true -> all plain n = true ->
  exact_int ts ->
  now - inject_Z ts <= 86400 ->
  verify now (forge (record h n t u ts))
  = Returned (true, Some (record_value h n t u ts)).
Proof.
  intros Hh Hn Hts Hage. unfold forge. cbv zeta.
  change (take 32 (SHA256.hexdigest ?s)) with (signature_of s).
  rewrite verify_signed, loads_record by assumption.
  cbn [get record_value dict_get String.eqb Ascii.eqb Bool.eqb bind].
  unfold rsub. cbn [to_float]. rewrite Hts. cbn [bind gt_int].
  apply Qle_bool_iff in Hage.
  change (inject_Z 86400) with 86400%Q. now rewrite Hage.
Qed.


(** [generate] signs with the public digest and nothing else. *)
Lemma generate_forge peer_id contribution_data now entropy :
  generate peer_id contribution_data now entropy
  = forge (record (take 16 (SHA256.hexdigest peer_id))
                  (token_hex 8 entropy)
                  (counter contribution_data "traceroute_count")
                  (counter contribution_data "uptime_seconds" / 3600)
                  (int_of_Q now)).
Proof. reflexivity. Qed.

Lemma hex_all_plain s : all is_hex s = true -> all plain s = true.
Proof. apply all_impl, is_hex_plain. Qed.




(** ** Fresh proofs, altered signatures, old proofs *)

Lemma int_of_Q_near (q : Q) : q - 1 <= inject_Z (int_of_Q q).
Proof.
  unfold int_of_Q. destruct (0 <=? Qnum q)%Z.
  - pose proof (Qlt_floor q) as H.
    rewrite inject_Z_plus in H. apply Qlt_le_weak in H.
    change (inject_Z 1) with 1 in H. lra.
  - pose proof (Qle_ceiling q) as H. lra.
Qed.

Lemma verify_generate peer_id contribution_data now entropy now' :
  exact_int (int_of_Q now) ->
  now' <= now + 86399 ->
  verify now' (generate peer_id contribution_data now entropy)
  = Returned (true,
              Some (record_value (take 16 (SHA256.hexdigest peer_id))
                                 (token_hex 8 entropy)
                                 (counter contribution_data "traceroute_count")
                                 (counter contribution_data "uptime_seconds"
                                  / 3600)
                                 (int_of_Q now))).
Proof.
  intros Hts Hage. rewrite generate_forge. apply verify_record.
  - apply hex_all_plain. unfold take. apply all_substring, hexdigest_spec.
  - apply hex_all_plain. unfold token_hex. apply hex_digits_spec.
  - exact Hts.
  - pose proof (int_of_Q_near now). lra.
Qed.












(** A [float] issue time is the double that [json.loads] rounds the
    literal to: a proof dated [1699913599.9999999] carries the issue
    time [1699913600.0], exactly 24 hours before the clock reading
    [1700000000], and is accepted. *)
Lemma verify_rounds_float_timestamp :
  let proof_string :=
    "{" ++ dumps_str "timestamp" ++ ": 1699913599.9999999}" in
  let proof := proof_string ++ "|" ++ signature_of proof_string in
  issue_time proof = Some (Finite 1699913600)
  /\ verify 1700000000 proof
     = Returned (true,
                 Some (JObj [("timestamp", JFloat (Finite 1699913600))])).
Proof. vm_compute. split; reflexivity. Qed.

(** Scenario C of the specification: a proof built with no traceroute
    does not pass the threshold of one, a proof built with five does. *)
Lemma contribution_threshold (now : Q) (entropy : N) :
  exact_int (int_of_Q now) ->
  is_contributing now
    (generate "node-a" [("traceroute_count", 0%Z)] now entropy) 1
  = Returned false
  /\ is_contributing now
       (generate "node-a" [("traceroute_count", 5%Z)] now entropy) 1
     = Returned true.
Proof.
  intros Hts. unfold is_contributing.
  rewrite !verify_generate by (exact Hts || lra). split; reflexivity.
Qed.

End ProofFacts.

(** * Geohash cells *)

Module GeohashFacts.
Import Py Geohash Spec GeohashSpec StringFacts.

Lemma encode_step_bit lat lon st :
  encode_step lat lon st = step_bit (next_bit lat lon st) st.
Proof.
  unfold encode_step, step_bit, next_bit, bisect, narrow.
  destruct (is_lon st).
  - destruct (Qle_bool (midpoint (lon_range st)) lon); reflexivity.
  - destruct (Qle_bool (midpoint (lat_range st)) lat); reflexivity.
Qed.

Lemma five_bits b1 b2 b3 b4 b5 st :
  bit_count st = 0%N -> bits st = 0%N ->
  let st' := step_bit b5 (step_bit b4 (step_bit b3 (step_bit b2 (step_bit b1 st)))) in
  bit_count st' = 0%N
  /\ bits st' = 0%N
  /\ is_lon st' = negb (is_lon st)
  /\ exists ch,
      geohash st' = geohash st ++ String ch ""
      /\ decode_char (Some (decoder_of st)) ch = Some (decoder_of st').
Proof.
  destruct st as [g b n l rlat rlon]. cbn [bit_count bits].
  intros -> ->.
  destruct b1, b2, b3, b4, b5, l;
    (split; [reflexivity |]; split; [reflexivity |]; split; [reflexivity |];
     eexists; split; reflexivity).
Qed.

Section Point.

Variables lat lon : Q.

Lemma block_spec (st : encoder) :
  bit_count st = 0%N -> bits st = 0%N ->
  bit_count (block lat lon st) = 0%N
  /\ bits (block lat lon st) = 0%N
  /\ is_lon (block lat lon st) = negb (is_lon st)
  /\ exists ch,
      geohash (block lat lon st) = geohash st ++ String ch ""
      /\ decode_char (Some (decoder_of st)) ch
         = Some (decoder_of (block lat lon st)).
Proof.
  intros Hc Hb. unfold block. rewrite !encode_step_bit.
  now apply five_bits.
Qed.

Lemma encode_loop_S fuel precision st :
  encode_loop (S fuel) lat lon precision st
  = if (Z.of_nat (String.length (geohash st)) <? precision)%Z
    then encode_loop fuel lat lon precision (encode_step lat lon st)
    else st.
Proof. reflexivity. Qed.

(** The first four turns of a character leave the text as it is. *)
Lemma geohash_kept b1 b2 b3 b4 st :
  bit_count st = 0%N ->
  geohash (step_bit b1 st) = geohash st
  /\ geohash (step_bit b2 (step_bit b1 st)) = geohash st
  /\ geohash (step_bit b3 (step_bit b2 (step_bit b1 st))) = geohash st
  /\ geohash (step_bit b4 (step_bit b3 (step_bit b2 (step_bit b1 st))))
     = geohash st.
Proof.
  destruct st as [g b n l rlat rlon]. cbn [bit_count]. intros ->.
  repeat split; reflexivity.
Qed.

Lemma steps_keep st :
  bit_count st = 0%N ->
  geohash (encode_step lat lon st) = geohash st
  /\ geohash (encode_step lat lon (encode_step lat lon st)) = geohash st
  /\ geohash (encode_step lat lon (encode_step lat lon
                (encode_step lat lon st))) = geohash st
  /\ geohash (encode_step lat lon (encode_step lat lon
                (encode_step lat lon (encode_step lat lon st))))
     = geohash st.
Proof.
  intros Hc. rewrite !encode_step_bit. now apply geohash_kept.
Qed.

Lemma loop_block precision fuel st :
  bit_count st = 0%N ->
  (Z.of_nat (String.length (geohash st)) < precision)%Z ->
  encode_loop (5 + fuel) lat lon precision st
  = encode_loop fuel lat lon precision (block lat lon st).
Proof.
  intros Hc Hlen. apply Z.ltb_lt in Hlen.
  change (5 + fuel)%nat with (S (S (S (S (S fuel))))).
  unfold block.
  destruct (steps_keep st Hc) as (G1 & G2 & G3 & G4).
  rewrite encode_loop_S, Hlen.
  rewrite encode_loop_S, G1, Hlen.
  rewrite encode_loop_S, G2, Hlen.
  rewrite encode_loop_S, G3, Hlen.
  rewrite encode_loop_S, G4, Hlen.
  reflexivity.
Qed.

Lemma loop_blocks precision n :
  forall st,
    bit_count st = 0%N -> bits st = 0%N ->
    (Z.of_nat (String.length (geohash st) + n) <= precision)%Z ->
    encode_loop (5 * n) lat lon precision st = Nat.iter n (block lat lon) st.
Proof.
  induction n as [|n IH]; intros st Hc Hb Hlen; [reflexivity |].
  replace (5 * S n)%nat with (5 + 5 * n)%nat by lia.
  rewrite loop_block by (assumption || lia).
  destruct (block_spec st Hc Hb) as (Hc' & Hb' & _ & ch & Hg & _).
  rewrite IH; try assumption.
  - now rewrite Nat.iter_succ_r.
  - rewrite Hg, length_append. simpl. lia.
Qed.

Lemma encode_geohash_final precision :
  encode_geohash lat lon precision = geohash (final lat lon precision).
Proof.
  unfold encode_geohash, final.
  destruct (Z.to_nat precision) as [|n] eqn:E; [reflexivity |].
  rewrite loop_blocks; try reflexivity.
  cbn [encode_init geohash String.length]. lia.
Qed.

Lemma blocks_spec n :
  bit_count (Nat.iter n (block lat lon) encode_init) = 0%N
  /\ bits (Nat.iter n (block lat lon) encode_init) = 0%N
  /\ String.length (geohash (Nat.iter n (block lat lon) encode_init)) = n
  /\ fold_left decode_char
               (list_ascii_of_string (geohash (Nat.iter n (block lat lon) encode_init)))
               (Some decode_init)
     = Some (decoder_of (Nat.iter n (block lat lon) encode_init)).
Proof.
  induction n as [|n (Hc & Hb & Hl & Hd)]; [repeat split; reflexivity |].
  rewrite Nat.iter_succ. set (st := Nat.iter n (block lat lon) encode_init) in *.
  destruct (block_spec st Hc Hb) as (Hc' & Hb' & _ & ch & Hg & Hch).
  repeat split; try assumption.
  - rewrite Hg, length_append, Hl. simpl. lia.
  - rewrite Hg.
    assert (E : list_ascii_of_string (geohash st ++ String ch "")
                = (list_ascii_of_string (geohash st) ++ [ch])%list).
    { clear. induction (geohash st) as [|x s IH]; simpl;
        [reflexivity | now rewrite IH]. }
    rewrite E, fold_left_app, Hd. exact Hch.
Qed.

(** The text has as many characters as asked for. *)
Lemma encode_geohash_length precision :
  String.length (encode_geohash lat lon precision) = Z.to_nat precision.
Proof.
  rewrite encode_geohash_final. apply blocks_spec.
Qed.

Lemma decode_encode precision :
  decode_geohash (encode_geohash lat lon precision)
  = Some (midpoint (lat_range (final lat lon precision)),
          midpoint (lon_range (final lat lon precision))).
Proof.
  rewrite encode_geohash_final. unfold decode_geohash, final.
  destruct (blocks_spec (Z.to_nat precision)) as (_ & _ & _ & ->).
  reflexivity.
Qed.

(** ** The cell around the point *)

Lemma pow2_succ (k : nat) : pow2 (Z.of_nat (S k)) == 2 * pow2 (Z.of_nat k).
Proof.
  unfold pow2. rewrite Nat2Z.inj_succ, Z.pow_succ_r by lia.
  now rewrite inject_Z_mult.
Qed.

Lemma parity_div (j : nat) :
  (Nat.even j = true ->
   ((S j + 1) / 2 = S ((j + 1) / 2) /\ S j / 2 = j / 2
    /\ Nat.even (S j) = false)%nat)
  /\ (Nat.even j = false ->
      ((S j + 1) / 2 = (j + 1) / 2 /\ S j / 2 = S (j / 2)
       /\ Nat.even (S j) = true)%nat).
Proof.
  pose proof (Nat.div_mod_eq j 2). pose proof (Nat.mod_upper_bound j 2).
  pose proof (Nat.div_mod_eq (S j) 2).
  pose proof (Nat.mod_upper_bound (S j) 2).
  pose proof (Nat.div_mod_eq (j + 1) 2).
  pose proof (Nat.mod_upper_bound (j + 1) 2).
  pose proof (Nat.div_mod_eq (S j + 1) 2).
  pose proof (Nat.mod_upper_bound (S j + 1) 2).
  rewrite Nat.even_succ, <- Nat.negb_even.
  split; intros E; rewrite E.
  - apply Nat.even_spec in E as [m E]. repeat split; lia.
  - assert (O : Nat.odd j = true) by (now rewrite <- Nat.negb_even, E).
    apply Nat.odd_spec in O as [m O]. repeat split; lia.
Qed.

Lemma encode_step_ranges st :
  is_lon (encode_step lat lon st) = negb (is_lon st)
  /\ lat_range (encode_step lat lon st)
     = (if is_lon st then lat_range st
        else narrow (next_bit lat lon st) (lat_range st))
  /\ lon_range (encode_step lat lon st)
     = (if is_lon st then narrow (next_bit lat lon st) (lon_range st)
        else lon_range st).
Proof.
  rewrite encode_step_bit. unfold step_bit.
  destruct (bit_count st + 1 =? 5)%N; repeat split; reflexivity.
Qed.

Lemma narrow_spec (x : Q) (range : Q * Q) (k : nat) (world : Q) :
  fst range < snd range ->
  (snd range - fst range) * pow2 (Z.of_nat k) == world ->
  let range' := narrow (Qle_bool (midpoint range) x) range in
  (snd range' - fst range') * pow2 (Z.of_nat (S k)) == world
  /\ fst range <= fst range' /\ fst range' < snd range'
  /\ snd range' <= snd range
  /\ (fst range <= x /\ x <= snd range ->
      fst range' <= x /\ x <= snd range').
Proof.
  destruct range as [lo hi]. cbn [fst snd]. intros Hlt Hw.
  unfold narrow, midpoint. cbn [fst snd].
  assert (Hm : (lo + hi) / 2 == (lo + hi) * (1 # 2)) by field.
  assert (Hup : (hi - (lo + hi) / 2) * (2 * pow2 (Z.of_nat k)) == world)
    by (rewrite <- Hw; field).
  assert (Hdn : ((lo + hi) / 2 - lo) * (2 * pow2 (Z.of_nat k)) == world)
    by (rewrite <- Hw; field).
  set (m := (lo + hi) / 2) in *.
  destruct (Qle_bool m x) eqn:E; cbn [fst snd]; rewrite pow2_succ.
  - apply Qle_bool_iff in E.
    split; [exact Hup |].
    split; [lra |]. split; [lra |]. split; [lra |].
    intros [? ?]. split; lra.
  - assert (E' : x < m).
    { apply Qnot_le_lt. intros H. apply Qle_bool_iff in H. congruence. }
    split; [exact Hdn |].
    split; [lra |]. split; [lra |]. split; [lra |].
    intros [? ?]. split; lra.
Qed.

Lemma cell_step j st : cell lat lon j st -> cell lat lon (S j) (encode_step lat lon st).
Proof.
  intros (Hl & Wlon & Wlat & (L1 & L2 & L3) & (A1 & A2 & A3) & Clon & Clat).
  destruct (encode_step_ranges st) as (El & Elat & Elon).
  destruct (parity_div j) as [Pe Po].
  unfold cell. rewrite El, Elat, Elon, Hl.
  unfold next_bit. rewrite Hl.
  destruct (Nat.even j) eqn:E.
  - destruct (Pe eq_refl) as (-> & -> & ->).
    destruct (narrow_spec lon (lon_range st) _ 360 L2 Wlon)
      as (W' & B1 & B2 & B3 & C').
    cbv zeta in *. repeat split; try assumption; try lra;
      try (apply C'; apply Clon; split; assumption);
      try (apply Clat; split; assumption).
  - destruct (Po eq_refl) as (-> & -> & ->).
    destruct (narrow_spec lat (lat_range st) _ 180 A2 Wlat)
      as (W' & B1 & B2 & B3 & C').
    cbv zeta in *. repeat split; try assumption; try lra;
      try (apply C'; apply Clat; split; assumption);
      try (apply Clon; split; assumption).
Qed.

Lemma cell_init : cell lat lon 0 encode_init.
Proof.
  unfold cell, encode_init. cbn [is_lon lon_range lat_range fst snd].
  repeat split; try reflexivity; try lra; intros [? ?]; assumption.
Qed.

Lemma cell_final precision :
  cell lat lon (5 * Z.to_nat precision) (final lat lon precision).
Proof.
  unfold final. induction (Z.to_nat precision) as [|n IH].
  - apply cell_init.
  - rewrite Nat.iter_succ.
    replace (5 * S n)%nat with (S (S (S (S (S (5 * n)))))) by lia.
    unfold block. now repeat apply cell_step.
Qed.

End Point.

(** ** Neighbours *)


Lemma pow2_pos k : (0 <= k)%Z -> 0 < pow2 k.
Proof.
  intros H. unfold pow2, Qlt. simpl.
  pose proof (Z.pow_pos_nonneg 2 k ltac:(lia) H). lia.
Qed.

Lemma pow2_ge_2 k : (1 <= k)%Z -> 2 <= pow2 k.
Proof.
  intros H. unfold pow2, Qle. simpl.
  pose proof (Z.pow_le_mono_r 2 1 k ltac:(lia) H). lia.
Qed.

Lemma half_steps (n : nat) :
  Z.of_nat ((5 * n) / 2) = (Z.of_nat n * 5 / 2)%Z
  /\ Z.of_nat ((5 * n + 1) / 2) = ((Z.of_nat n * 5 + 1) / 2)%Z.
Proof.
  rewrite !Nat2Z.inj_div. split; f_equal; lia.
Qed.

(** The widths of the final cell are the two deltas, and the cell lies
    in the world. *)
Lemma final_cell lat lon precision :
  (0 <= precision)%Z ->
  let st := final lat lon precision in
  snd (lon_range st) - fst (lon_range st) == lon_delta precision
  /\ snd (lat_range st) - fst (lat_range st) == lat_delta precision
  /\ 0 < lon_delta precision /\ 0 < lat_delta precision
  /\ -180 <= fst (lon_range st) /\ snd (lon_range st) <= 180
  /\ -90 <= fst (lat_range st) /\ snd (lat_range st) <= 90
  /\ (-180 <= lon /\ lon <= 180 ->
      fst (lon_range st) <= lon /\ lon <= snd (lon_range st))
  /\ (-90 <= lat /\ lat <= 90 ->
      fst (lat_range st) <= lat /\ lat <= snd (lat_range st)).
Proof.
  intros Hp st. subst st.
  destruct (cell_final lat lon precision)
    as (_ & Wlon & Wlat & (L1 & L2 & L3) & (A1 & A2 & A3) & Clon & Clat).
  destruct (half_steps (Z.to_nat precision)) as [E1 E2].
  rewrite Z2Nat.id in E1, E2 by exact Hp.
  rewrite E1 in Wlat. rewrite E2 in Wlon.
  assert (P1 : 0 < pow2 (precision * 5 / 2))
    by (apply pow2_pos, Z.div_pos; lia).
  assert (P2 : 0 < pow2 ((precision * 5 + 1) / 2))
    by (apply pow2_pos, Z.div_pos; lia).
  assert (D1 : snd (lon_range (final lat lon precision))
               - fst (lon_range (final lat lon precision))
               == lon_delta precision).
  { unfold lon_delta. rewrite <- Wlon. field. lra. }
  assert (D2 : snd (lat_range (final lat lon precision))
               - fst (lat_range (final lat lon precision))
               == lat_delta precision).
  { unfold lat_delta. rewrite <- Wlat. field. lra. }
  repeat split; try assumption; try lra;
    try (apply Clon; assumption); try (apply Clat; assumption).
Qed.

Lemma midpoint_half range : midpoint range == (fst range + snd range) * (1 # 2).
Proof. unfold midpoint. field. Qed.

(** The centre that [decode_geohash] gives for the cell of a point of
    the world is within half a cell of the point, and strictly inside
    the world. *)
Lemma centre_near lat lon precision clat clon :
  (0 <= precision)%Z ->
  decode_geohash (encode_geohash lat lon precision) = Some (clat, clon) ->
  (-180 < clon /\ clon < 180 /\ -90 < clat /\ clat < 90)
  /\ (-180 <= lon /\ lon <= 180 ->
      2 * (lon - clon) <= lon_delta precision
      /\ 2 * (clon - lon) <= lon_delta precision)
  /\ (-90 <= lat /\ lat <= 90 ->
      2 * (lat - clat) <= lat_delta precision
      /\ 2 * (clat - lat) <= lat_delta precision).
Proof.
  intros Hp Hd. rewrite decode_encode in Hd. injection Hd as <- <-.
  destruct (final_cell lat lon precision Hp)
    as (Wlon & Wlat & Dlon & Dlat & L1 & L3 & A1 & A3 & Clon & Clat).
  pose proof (midpoint_half (lon_range (final lat lon precision))) as Mlon.
  pose proof (midpoint_half (lat_range (final lat lon precision))) as Mlat.
  set (mlon := midpoint (lon_range (final lat lon precision))) in *.
  set (mlat := midpoint (lat_range (final lat lon precision))) in *.
  split; [repeat split; lra |]. split.
  - intros H. specialize (Clon H). split; lra.
  - intros H. specialize (Clat H). split; lra.
Qed.

Lemma wrap_lon_cases x :
  -540 <= x -> x <= 540 ->
  (-180 <= wrap_lon x /\ wrap_lon x <= 180)
  /\ ((180 < x /\ wrap_lon x == x - 360)
      \/ (x < -180 /\ wrap_lon x == x + 360)
      \/ (-180 <= x /\ x <= 180 /\ wrap_lon x == x)).
Proof.
  intros H1 H2. unfold wrap_lon.
  destruct (Qle_bool x 180) eqn:E1; cbn [negb].
  - apply Qle_bool_iff in E1.
    destruct (Qle_bool (-180) x) eqn:E2; cbn [negb].
    + apply Qle_bool_iff in E2. split; [lra |]. right. right.
      repeat split; try lra.
    + assert (x < -180).
      { apply Qnot_le_lt. intros H. apply Qle_bool_iff in H. congruence. }
      split; [lra |]. right. left. split; lra.
  - assert (180 < x).
    { apply Qnot_le_lt. intros H. apply Qle_bool_iff in H. congruence. }
    split; [lra |]. left. split; lra.
Qed.

Lemma clamp_lat_cases x :
  (-90 <= clamp_lat x /\ clamp_lat x <= 90)
  /\ (-90 <= x -> x <= 90 -> clamp_lat x == x).
Proof.
  unfold clamp_lat, max, min.
  destruct (Qle_bool 90 x) eqn:E1; cbn [negb].
  - apply Qle_bool_iff in E1.
    destruct (Qle_bool 90 (-90)) eqn:E2; cbn [negb]; [discriminate |].
    split; [lra |]. intros. lra.
  - assert (x < 90).
    { apply Qnot_le_lt. intros H. apply Qle_bool_iff in H. congruence. }
    destruct (Qle_bool x (-90)) eqn:E2; cbn [negb].
    + apply Qle_bool_iff in E2. split; [lra |]. intros. lra.
    + assert (-90 < x).
      { apply Qnot_le_lt. intros H'. apply Qle_bool_iff in H'. congruence. }
      split; [lra |]. intros. lra.
Qed.

Lemma lon_delta_small precision :
  (1 <= precision)%Z -> 0 < lon_delta precision /\ lon_delta precision <= 180.
Proof.
  intros Hp. unfold lon_delta.
  assert (Hk : (1 <= (precision * 5 + 1) / 2)%Z).
  { apply Z.div_le_lower_bound; lia. }
  pose proof (pow2_ge_2 _ Hk) as H2.
  set (P := pow2 ((precision * 5 + 1) / 2)) in *.
  assert (E : 360 / P * P == 360) by (field; lra).
  set (d := 360 / P) in *.
  assert (Hd : 0 < d).
  { subst d. apply Qlt_shift_div_l; lra. }
  split; [exact Hd |].
  assert (0 <= d * (P - 2)) by (apply Qmult_le_0_compat; lra).
  assert (d * (P - 2) == d * P - 2 * d) by ring.
  lra.
Qed.

(** A cell reached by a step east or west is not the origin. *)
Lemma differs_east_west lat lon precision clat clon dlat dlon :
  (1 <= precision)%Z ->
  decode_geohash (encode_geohash lat lon precision) = Some (clat, clon) ->
  dlon == lon_delta precision \/ dlon == - lon_delta precision ->
  encode_geohash (clamp_lat (clat + dlat)) (wrap_lon (clon + dlon)) precision
  <> encode_geohash lat lon precision.
Proof.
  intros Hp Hd Hdlon Heq.
  assert (Hp0 : (0 <= precision)%Z) by lia.
  destruct (centre_near _ _ _ _ _ Hp0 Hd) as ((C1 & C2 & C3 & C4) & _ & _).
  destruct (lon_delta_small precision Hp) as [D1 D2].
  rewrite <- Heq in Hd.
  destruct (centre_near _ _ _ _ _ Hp0 Hd) as (_ & Near & _).
  set (d := lon_delta precision) in *.
  destruct (wrap_lon_cases (clon + dlon)) as [Hr Hw];
    [destruct Hdlon; lra | destruct Hdlon; lra |].
  specialize (Near Hr).
  destruct Hw as [[? Hw] | [[? Hw] | (? & ? & Hw)]];
    destruct Hdlon; lra.
Qed.

(** A cell reached by a step north or south is not the origin, unless
    the clamp acts. *)
Lemma differs_north_south lat lon precision clat clon dlat dlon :
  (0 <= precision)%Z ->
  decode_geohash (encode_geohash lat lon precision) = Some (clat, clon) ->
  -90 <= clat - lat_delta precision -> clat + lat_delta precision <= 90 ->
  dlat == lat_delta precision \/ dlat == - lat_delta precision ->
  encode_geohash (clamp_lat (clat + dlat)) (wrap_lon (clon + dlon)) precision
  <> encode_geohash lat lon precision.
Proof.
  intros Hp0 Hd F1 F2 Hdlat Heq.
  destruct (final_cell lat lon precision Hp0) as (_ & _ & _ & D1 & _).
  rewrite <- Heq in Hd.
  destruct (centre_near _ _ _ _ _ Hp0 Hd) as (_ & _ & Near).
  set (e := lat_delta precision) in *.
  destruct (clamp_lat_cases (clat + dlat)) as [Hr Hc].
  specialize (Near Hr).
  assert (Hc' : clamp_lat (clat + dlat) == clat + dlat)
    by (apply Hc; destruct Hdlat; lra).
  destruct Hdlat; lra.
Qed.

Lemma Qeq_bool_false x : ~ x == 0 -> Qeq_bool x 0 = false.
Proof.
  intros H. destruct (Qeq_bool x 0) eqn:E; [| reflexivity].
  apply Qeq_bool_iff in E. contradiction.
Qed.

(** The eight cells in the order of the two loops. *)
Lemma neighbors_list lat lon precision clat clon :
  (0 <= precision)%Z ->
  decode_geohash (encode_geohash lat lon precision) = Some (clat, clon) ->
  let e := lat_delta precision in
  let d := lon_delta precision in
  let at_ dlat dlon :=
    encode_geohash (clamp_lat (clat + dlat)) (wrap_lon (clon + dlon))
                   precision in
  get_geohash_neighbors (encode_geohash lat lon precision)
  = Some [ at_ (- e) (- d); at_ (- e) 0; at_ (- e) d;
           at_ 0 (- d); at_ 0 d;
           at_ e (- d); at_ e 0; at_ e d ].
Proof.
  intros Hp Hd e d at_. unfold get_geohash_neighbors. rewrite Hd.
  rewrite encode_geohash_length, Z2Nat.id by exact Hp.
  fold (lat_delta precision). fold (lon_delta precision).
  fold e d.
  destruct (final_cell lat lon precision Hp) as (_ & _ & Dd & De & _).
  fold e d in Dd, De.
  cbn [flat_map app].
  rewrite !(Qeq_bool_false e), !(Qeq_bool_false d),
    !(Qeq_bool_false (- e)), !(Qeq_bool_false (- d)) by lra.
  reflexivity.
Qed.

(** C8, as stated, fails in the top row of cells: the cell of 60
    degrees north, 10 degrees east at precision 1 is among its own
    neighbours, since the clamped latitude falls back into it. *)
Lemma origin_among_neighbors :
  encode_geohash 60 10 1 = "u"
  /\ exists cells,
      get_geohash_neighbors (encode_geohash 60 10 1) = Some cells
      /\ In (encode_geohash 60 10 1) cells.
Proof.
  split; [vm_compute; reflexivity |].
  eexists. split; [vm_compute; reflexivity |].
  simpl. tauto.
Qed.

(** C8, as the code has it.  For a precision from 0 to 409, the
    highest for which the cell size is within the range of [float],
    the neighbours of an encoded cell are exactly eight texts of that
    precision.  For a precision from 1 to 18, where every bound, centre
    and step of the computation is a multiple of a power of two that a
    [float] holds exactly, none of them is the origin cell when the
    origin is neither in the top nor in the bottom row of cells; there
    the latitude clamp maps the step north or south back into the
    row. *)
Theorem neighbors_of_encoded (lat lon : Q) (precision : Z) :
  (0 <= precision <= 409)%Z ->
  let origin := encode_geohash lat lon precision in
  exists cells,
    get_geohash_neighbors origin = Some cells
    /\ List.length cells = 8%nat
    /\ Forall (fun cell => Z.of_nat (String.length cell) = precision) cells
    /\ ((1 <= precision <= 18)%Z -> clamp_free origin ->
        Forall (fun cell => cell <> origin) cells).
Proof.
  intros [Hp _] origin. subst origin.
  pose proof (decode_encode lat lon precision) as Hd.
  eexists. split; [apply (neighbors_list _ _ _ _ _ Hp Hd) |].
  split; [reflexivity |]. split.
  - repeat constructor; rewrite encode_geohash_length; lia.
  - intros [Hp1 _] Hfree. unfold clamp_free in Hfree.
    rewrite Hd, encode_geohash_length, Z2Nat.id in Hfree by exact Hp.
    destruct Hfree as [F1 F2].
    repeat constructor;
      first [ apply differs_east_west;
                [exact Hp1 | exact Hd | (now left) || (now right)]
            | apply differs_north_south;
                [exact Hp | exact Hd | exact F1 | exact F2
                | (now left) || (now right)] ].
Qed.

Lemma neighbors_of_encoded_witness :
  exists cells,
    get_geohash_neighbors (encode_geohash (5150 # 100) (- (12 # 100)) 3)
    = Some cells
    /\ List.length cells = 8%nat
    /\ Forall (fun cell => Z.of_nat (String.length cell) = 3%Z) cells
    /\ Forall (fun cell => cell <> encode_geohash (5150 # 100) (- (12 # 100)) 3)
              cells.
Proof.
  destruct (neighbors_of_encoded (5150 # 100) (- (12 # 100)) 3 ltac:(lia))
    as (cells & H1 & H2 & H3 & H4).
  exists cells. repeat split; try assumption.
  apply H4; [lia |]. vm_compute. split; discriminate.
Defined.

End GeohashFacts.

(** * The bencode round trip *)

Module BencodeFacts.
Import Py Bencode Spec BencodeSpec StringFacts.

(** ** Positions in a text that has something in front *)

Lemma get_shift pre s i :
  String.get (String.length pre + i) (pre ++ s) = String.get i s.
Proof. induction pre as [|x pre IH]; [reflexivity | exact IH]. Qed.

Lemma index_from_shift c pre s i :
  index_from c (String.length pre + i) (pre ++ s)
  = option_map (Nat.add (String.length pre)) (index_from c i s).
Proof.
  induction pre as [|x pre IH].
  - cbn [String.length Nat.add append].
    destruct (index_from c i s); reflexivity.
  - cbn [String.length Nat.add append index_from]. rewrite IH.
    destruct (index_from c i s); reflexivity.
Qed.

Lemma substring_shift pre s a n :
  substring (String.length pre + a) n (pre ++ s) = substring a n s.
Proof. induction pre as [|x pre IH]; [reflexivity | exact IH]. Qed.

Lemma slice_shift pre s a b :
  slice (String.length pre + a) (String.length pre + b) (pre ++ s)
  = slice a b s.
Proof.
  unfold slice. rewrite substring_shift. f_equal. lia.
Qed.

Lemma substring_prefix a b :
  substring 0 (String.length a) (a ++ b) = a.
Proof.
  induction a as [|x a IH]; simpl.
  - destruct b; reflexivity.
  - now rewrite IH.
Qed.

Lemma index_from_first c a r :
  all (fun x => negb (Ascii.eqb x c)) a = true ->
  index_from c 0 (a ++ String c r) = Some (String.length a).
Proof.
  induction a as [|x a IH]; intros H.
  - cbn [append index_from]. now rewrite Ascii.eqb_refl.
  - simpl in H. apply andb_true_iff in H as [H1 H2].
    apply negb_true_iff in H1.
    cbn [append index_from String.length]. rewrite H1, (IH H2). reflexivity.
Qed.

Lemma decode_S fuel data idx :
  _bencode_decode_recursive (S fuel) data idx
  = match String.get idx data with
    | None => Error ValueError
    | Some c =>
        if Ascii.eqb c "i" then
          match index_from "e" idx data with
          | None => Error ValueError
          | Some end_ =>
              match int_of_bytes (slice (idx + 1) end_ data) with
              | None => Error ValueError
              | Some z => Decoded (BInt z) (end_ + 1)
              end
          end
        else if Ascii.eqb c "l" then decode_list fuel data (idx + 1) []
        else if Ascii.eqb c "d" then decode_dict fuel data (idx + 1) []
        else if is_digit c then
          match index_from ":" idx data with
          | None => Error ValueError
          | Some colon =>
              match int_of_bytes (slice idx colon data) with
              | None => Error ValueError
              | Some length =>
                  let n := Z.to_nat length in
                  Decoded (BBytes (slice (colon + 1) (colon + 1 + n) data))
                          (colon + 1 + n)
              end
          end
        else Error ValueError
    end.
Proof. reflexivity. Qed.

Lemma decode_list_S fuel data idx result :
  decode_list (S fuel) data idx result
  = if match String.get idx data with
       | Some c => Ascii.eqb c "e"
       | None => false
       end
    then Decoded (BList (rev result)) (idx + 1)
    else
      match _bencode_decode_recursive fuel data idx with
      | Decoded item idx' => decode_list fuel data idx' (item :: result)
      | other => other
      end.
Proof. reflexivity. Qed.

Lemma decode_dict_S fuel data idx result :
  decode_dict (S fuel) data idx result
  = if match String.get idx data with
       | Some c => Ascii.eqb c "e"
       | None => false
       end
    then Decoded (BDict result) (idx + 1)
    else
      match _bencode_decode_recursive fuel data idx with
      | Decoded key idx' =>
          match _bencode_decode_recursive fuel data idx' with
          | Decoded value idx'' =>
              match as_key key with
              | Some k => decode_dict fuel data idx'' (entries_set result k value)
              | None => Error TypeError
              end
          | other => other
          end
      | other => other
      end.
Proof. reflexivity. Qed.

Lemma decode_shift fuel pre s :
  (forall i,
      _bencode_decode_recursive fuel (pre ++ s) (String.length pre + i)
      = shift (String.length pre) (_bencode_decode_recursive fuel s i))
  /\ (forall i acc,
         decode_list fuel (pre ++ s) (String.length pre + i) acc
         = shift (String.length pre) (decode_list fuel s i acc))
  /\ (forall i acc,
         decode_dict fuel (pre ++ s) (String.length pre + i) acc
         = shift (String.length pre) (decode_dict fuel s i acc)).
Proof.
  induction fuel as [|fuel (IHv & IHl & IHd)];
    [repeat split; reflexivity |].
  split; [| split].
  - intros i. rewrite !decode_S, get_shift.
    destruct (String.get i s) as [c|]; [| reflexivity].
    destruct (Ascii.eqb c "i").
    { rewrite index_from_shift.
      destruct (index_from "e" i s) as [e|]; [| reflexivity].
      cbn [option_map].
      replace (String.length pre + i + 1)%nat
        with (String.length pre + (i + 1))%nat by lia.
      rewrite slice_shift.
      destruct (int_of_bytes _); [| reflexivity].
      cbn [shift]. f_equal. lia. }
    destruct (Ascii.eqb c "l").
    { replace (String.length pre + i + 1)%nat
        with (String.length pre + (i + 1))%nat by lia. apply IHl. }
    destruct (Ascii.eqb c "d").
    { replace (String.length pre + i + 1)%nat
        with (String.length pre + (i + 1))%nat by lia. apply IHd. }
    destruct (is_digit c); [| reflexivity].
    rewrite index_from_shift.
    destruct (index_from ":" i s) as [colon|]; [| reflexivity].
    cbn [option_map]. rewrite slice_shift.
    destruct (int_of_bytes _) as [len|]; [| reflexivity].
    cbv zeta. cbn [shift].
    replace (String.length pre + colon + 1)%nat
      with (String.length pre + (colon + 1))%nat by lia.
    replace (String.length pre + (colon + 1) + Z.to_nat len)%nat
      with (String.length pre + (colon + 1 + Z.to_nat len))%nat by lia.
    now rewrite slice_shift.
  - intros i acc. rewrite !decode_list_S, get_shift.
    destruct (match String.get i s with
              | Some c => Ascii.eqb c "e"
              | None => false
              end).
    + cbn [shift]. f_equal. lia.
    + rewrite IHv.
      destruct (_bencode_decode_recursive fuel s i) as [item idx'| |];
        try reflexivity.
      cbn [shift]. apply IHl.
  - intros i acc. rewrite !decode_dict_S, get_shift.
    destruct (match String.get i s with
              | Some c => Ascii.eqb c "e"
              | None => false
              end).
    + cbn [shift]. f_equal. lia.
    + rewrite IHv.
      destruct (_bencode_decode_recursive fuel s i) as [key idx'| |];
        try reflexivity.
      cbn [shift]. rewrite IHv.
      destruct (_bencode_decode_recursive fuel s idx') as [value idx''| |];
        try reflexivity.
      cbn [shift]. destruct (as_key key); [apply IHd | reflexivity].
Qed.

(** ** Integers and byte strings *)

Ltac by_cases c :=
  destruct c as [[] [] [] [] [] [] [] []]; try discriminate; reflexivity.

Lemma digit_head c :
  is_digit c = true ->
  Ascii.eqb c "i" = false /\ Ascii.eqb c "l" = false
  /\ Ascii.eqb c "d" = false /\ Ascii.eqb c "e" = false
  /\ Ascii.eqb c ":" = false /\ Ascii.eqb c "-" = false
  /\ Ascii.eqb c "+" = false /\ is_space c = false.
Proof.
  destruct c as [[] [] [] [] [] [] [] []]; try discriminate;
    intros _; repeat split.
Qed.

Lemma digits_not c s :
  (forall d, is_digit d = true -> Ascii.eqb d c = false) ->
  all is_digit s = true ->
  all (fun x => negb (Ascii.eqb x c)) s = true.
Proof.
  intros H. apply all_impl. intros d Hd. now rewrite (H d Hd).
Qed.

Lemma int_digits_digits ds :
  forall acc flag,
    all is_digit ds = true ->
    ds <> "" \/ flag = true ->
    int_digits ds acc flag = Some (digits_val acc ds).
Proof.
  induction ds as [|c ds IH]; intros acc flag Hall Hne.
  - destruct Hne as [Hne | ->]; [now elim Hne | reflexivity].
  - simpl in Hall. apply andb_true_iff in Hall as [Hc Hds].
    cbn [int_digits digits_val]. rewrite Hc.
    apply IH; [exact Hds | now right].
Qed.

Lemma int_of_bytes_str_of_N n :
  int_of_bytes (str_of_N n) = Some (Z.of_N n).
Proof.
  destruct (str_of_N_spec n) as (Hall & Hlen & Hval & _).
  unfold int_of_bytes.
  destruct (str_of_N n) as [|c r] eqn:E; [simpl in Hlen; lia |].
  assert (Hc : is_digit c = true)
    by (simpl in Hall; now apply andb_true_iff in Hall as [? _]).
  destruct (digit_head c Hc) as (_ & _ & _ & _ & _ & Hm & Hp & Hs).
  cbn [lstrip]. rewrite Hs, Hm, Hp.
  rewrite int_digits_digits; [| exact Hall | left; discriminate].
  cbn [option_map]. now rewrite Hval.
Qed.

Lemma int_of_bytes_str_of_Z z :
  int_of_bytes (str_of_Z z) = Some z.
Proof.
  destruct z as [|p|p].
  - reflexivity.
  - change (str_of_Z (Z.pos p)) with (str_of_N (N.pos p)).
    now rewrite int_of_bytes_str_of_N.
  - cbn [str_of_Z]. unfold int_of_bytes.
    change (lstrip (String "-" (str_of_N (N.pos p))))
      with (String "-" (str_of_N (N.pos p))).
    change (Ascii.eqb "-" "-") with true. cbv iota.
    destruct (str_of_N_spec (N.pos p)) as (Hall & Hlen & Hval & _).
    rewrite int_digits_digits;
      [| exact Hall
       | left; intros E; rewrite E in Hlen; simpl in Hlen; lia].
    cbn [option_map]. now rewrite Hval.
Qed.

Lemma str_of_Z_no_e z :
  all (fun x => negb (Ascii.eqb x "e")) (str_of_Z z) = true.
Proof.
  assert (H : forall n, all (fun x => negb (Ascii.eqb x "e")) (str_of_N n) = true).
  { intros n. apply digits_not; [| apply str_of_N_spec].
    intros d Hd. apply (digit_head d Hd). }
  destruct z as [|p|p]; [reflexivity | apply H |].
  cbn [str_of_Z all]. now rewrite H.
Qed.

Lemma substring_middle a b c :
  substring (String.length a) (String.length b) (a ++ b ++ c) = b.
Proof.
  rewrite <- (Nat.add_0_r (String.length a)), substring_shift.
  apply substring_prefix.
Qed.

(** Decoding what [encode_int] wrote. *)
Lemma decode_int fuel z post :
  _bencode_decode_recursive (S fuel) (encode_int z ++ post) 0
  = Decoded (BInt z) (String.length (encode_int z)).
Proof.
  rewrite decode_S. unfold encode_int.
  change (("i" ++ str_of_Z z ++ "e") ++ post)
    with (String "i" ((str_of_Z z ++ "e") ++ post)).
  rewrite append_assoc.
  change (String.get 0 (String "i" (str_of_Z z ++ "e" ++ post)))
    with (Some "i"%char).
  cbv beta iota. change (Ascii.eqb "i" "i") with true. cbv iota.
  change (index_from "e" 0 (String "i" (str_of_Z z ++ "e" ++ post)))
    with (option_map S (index_from "e" 0 (str_of_Z z ++ String "e" post))).
  rewrite (index_from_first _ _ _ (str_of_Z_no_e z)). cbn [option_map].
  unfold slice.
  replace (S (String.length (str_of_Z z)) - (0 + 1))%nat
    with (String.length (str_of_Z z)) by lia.
  change (substring (0 + 1) (String.length (str_of_Z z))
            (String "i" (str_of_Z z ++ "e" ++ post)))
    with (substring (String.length "i") (String.length (str_of_Z z))
            ("i" ++ str_of_Z z ++ "e" ++ post)).
  rewrite substring_middle, int_of_bytes_str_of_Z.
  f_equal. rewrite !length_append. cbn [String.length]. lia.
Qed.

(** Decoding what [encode_bytes] wrote. *)
Lemma decode_bytes fuel b post :
  _bencode_decode_recursive (S fuel) (encode_bytes b ++ post) 0
  = Decoded (BBytes b) (String.length (encode_bytes b)).
Proof.
  rewrite decode_S. unfold encode_bytes.
  set (ds := str_of_N (N.of_nat (String.length b))).
  destruct (str_of_N_spec (N.of_nat (String.length b)))
    as (Hall & Hlen & _). fold ds in Hall, Hlen.
  rewrite !append_assoc.
  assert (Hget : exists c, String.get 0 (ds ++ ":" ++ b ++ post) = Some c
                           /\ is_digit c = true).
  { destruct ds as [|c r]; [simpl in Hlen; lia |].
    exists c. split; [reflexivity |].
    simpl in Hall. now apply andb_true_iff in Hall as [? _]. }
  destruct Hget as (c & -> & Hc).
  destruct (digit_head c Hc) as (-> & -> & -> & _).
  rewrite Hc.
  change (ds ++ ":" ++ b ++ post) with (ds ++ String ":" (b ++ post)).
  rewrite index_from_first
    by (apply digits_not; [intros d Hd; apply (digit_head d Hd) | exact Hall]).
  unfold slice at 1. rewrite Nat.sub_0_r, substring_prefix.
  rewrite (int_of_bytes_str_of_N (N.of_nat (String.length b)) : int_of_bytes ds = _).
  cbv zeta.
  replace (Z.to_nat (Z.of_N (N.of_nat (String.length b))))
    with (String.length b) by lia.
  f_equal.
  - f_equal. unfold slice.
    replace (String.length ds + 1 + String.length b - (String.length ds + 1))%nat
      with (String.length b) by lia.
    change (ds ++ String ":" (b ++ post)) with (ds ++ ":" ++ b ++ post).
    rewrite <- append_assoc.
    replace (String.length ds + 1)%nat with (String.length (ds ++ ":"))
      by (rewrite length_append; reflexivity).
    apply substring_middle.
  - rewrite !length_append. cbn [String.length]. lia.
Qed.

(** ** Lists and dicts *)

Lemma bval_induction (P : bval -> Prop) :
  (forall z, P (BInt z)) ->
  (forall b, P (BBytes b)) ->
  (forall s, P (BStr s)) ->
  (forall items, Forall P items -> P (BList items)) ->
  (forall entries, Forall (fun kv => P (snd kv)) entries -> P (BDict entries)) ->
  forall v, P v.
Proof.
  intros HI HB HS HL HD. fix IH 1. intros [z|b|s|l|d].
  - apply HI.
  - apply HB.
  - apply HS.
  - apply HL. induction l as [|x l IHl]; constructor; [apply IH | exact IHl].
  - apply HD. induction d as [|[k v] d IHd]; constructor; [apply IH | exact IHd].
Qed.

Lemma bind_returned {A B} (m : outcome A) (f : A -> outcome B) b :
  bind m f = Returned b -> exists a, m = Returned a /\ f a = Returned b.
Proof. destruct m as [a|e]; [now exists a | discriminate]. Qed.

Lemma encode_list_eq items :
  _bencode_encode (BList items)
  = bind (encode_items items) (fun body => Returned ("l" ++ body ++ "e")).
Proof. reflexivity. Qed.

Lemma encode_dict_eq entries :
  _bencode_encode (BDict entries)
  = bind (encode_entries entries)
      (fun encoded =>
         match sort_items encoded with
         | Some items =>
             Returned ("d" ++ String.concat "" (map snd items) ++ "e")
         | None => Raised TypeError
         end).
Proof. reflexivity. Qed.

Lemma encode_items_cons x r :
  encode_items (x :: r)
  = bind (_bencode_encode x) (fun a =>
    bind (encode_items r) (fun b => Returned (a ++ b))).
Proof. reflexivity. Qed.

Lemma encode_entries_cons k v r :
  encode_entries ((k, v) :: r)
  = bind (_bencode_encode v) (fun a =>
    bind (encode_entries r) (fun b =>
    Returned ((k, encode_key k ++ a) :: b))).
Proof. reflexivity. Qed.

(** No encoding starts with the byte that ends a list or a dict. *)
Lemma encode_head v bs :
  _bencode_encode v = Returned bs ->
  exists c r, bs = String c r /\ Ascii.eqb c "e" = false.
Proof.
  assert (Hb : forall b, exists c r,
               encode_bytes b = String c r /\ Ascii.eqb c "e" = false).
  { intros b. unfold encode_bytes.
    destruct (str_of_N_spec (N.of_nat (String.length b))) as (Hall & Hlen & _).
    destruct (str_of_N _) as [|c r]; [simpl in Hlen; lia |].
    exists c, (r ++ ":" ++ b). split; [reflexivity |].
    simpl in Hall. apply andb_true_iff in Hall as [Hc _].
    apply (digit_head c Hc). }
  destruct v as [z|b|s|l|d].
  - intros [= <-]. now exists "i"%char, (str_of_Z z ++ "e").
  - intros [= <-]. apply Hb.
  - intros [= <-]. apply Hb.
  - rewrite encode_list_eq. intros H.
    apply bind_returned in H as (body & _ & [= <-]).
    now exists "l"%char, (body ++ "e").
  - rewrite encode_dict_eq. intros H.
    apply bind_returned in H as (enc & _ & H).
    destruct (sort_items enc) as [items|]; [| discriminate].
    injection H as <-.
    now exists "d"%char, (String.concat "" (map snd items) ++ "e").
Qed.

Lemma encode_key_head k :
  exists c r, encode_key k = String c r /\ Ascii.eqb c "e" = false.
Proof.
  apply (encode_head (key_value k)). now destruct k.
Qed.

Lemma get_head c r post :
  String.get 0 (String c r ++ post) = Some c.
Proof. reflexivity. Qed.

Lemma py_equal_list l1 l2 :
  Forall2 (fun a b => py_equal a b = true) l1 l2 ->
  py_equal (BList l1) (BList l2) = true.
Proof.
  induction 1 as [|a b l1 l2 Hab _ IH]; [reflexivity |].
  cbn [py_equal] in *. now rewrite Hab.
Qed.

Lemma decode_items items :
  Forall (fun v => forall a, _bencode_encode v = Returned a -> reads_back v a)
         items ->
  forall body,
    encode_items items = Returned body ->
    forall fuel post acc,
      (1 + String.length body <= fuel)%nat ->
      exists items',
        decode_list fuel (body ++ "e" ++ post) 0 acc
        = Decoded (BList (rev acc ++ items')) (String.length body + 1)
        /\ Forall2 (fun a b => py_equal a b = true) items' items.
Proof.
  induction 1 as [|x r Hx _ IH]; intros body Henc fuel post acc Hfuel.
  - injection Henc as <-. destruct fuel as [|fuel]; [simpl in Hfuel; lia |].
    exists []. split; [| constructor].
    rewrite decode_list_S. cbn [append String.get]. 
    change (Ascii.eqb "e" "e") with true. cbv iota.
    now rewrite app_nil_r.
  - rewrite encode_items_cons in Henc.
    apply bind_returned in Henc as (a & Ha & Henc).
    apply bind_returned in Henc as (b & Hb & [= <-]).
    destruct (encode_head _ _ Ha) as (c & ar & Ec & Hc).
    assert (Hlen : (1 <= String.length a)%nat)
      by (rewrite Ec; simpl; lia).
    rewrite length_append in Hfuel |- *.
    destruct fuel as [|fuel]; [lia |].
    assert (Hget : forall rest, String.get 0 (a ++ rest) = Some c)
      by (intros rest; rewrite Ec; reflexivity).
    rewrite decode_list_S, append_assoc, Hget, Hc.
    destruct (Hx a Ha fuel (b ++ "e" ++ post)) as (x' & Hdec & Heq); [lia |].
    rewrite Hdec.
    pose proof (proj1 (proj2 (decode_shift fuel a (b ++ "e" ++ post)))
                  0%nat (x' :: acc)) as Hs.
    rewrite Nat.add_0_r in Hs. rewrite Hs.
    destruct (IH b Hb fuel post (x' :: acc)) as (r' & Hr & Hall); [lia |].
    rewrite Hr. exists (x' :: r'). split.
    + cbn [shift rev]. rewrite <- app_assoc. f_equal. lia.
    + now constructor.
Qed.

(** *** Keys and their order *)

Lemma key_eqb_eq a b : key_eqb a b = true <-> a = b.
Proof.
  destruct a, b; simpl; split; intros H; try discriminate;
    try (apply Z.eqb_eq in H; now subst);
    try (apply String.eqb_eq in H; now subst);
    injection H as ->;
    first [apply Z.eqb_refl | apply String.eqb_refl].
Qed.

Lemma keys_distinct_NoDup keys : keys_distinct keys = true -> NoDup keys.
Proof.
  induction keys as [|k r IH]; intros H; [constructor |].
  simpl in H. apply andb_true_iff in H as [Hk Hr].
  constructor; [| exact (IH Hr)].
  intros Hin. apply negb_true_iff in Hk.
  assert (E : existsb (key_eqb k) r = true)
    by (apply existsb_exists; exists k; split; [exact Hin | now apply key_eqb_eq]).
  congruence.
Qed.

Lemma insert_item_perm {V} (kv : bkey * V) l :
  forall l', insert_item kv l = Some l' -> Permutation (kv :: l) l'.
Proof.
  induction l as [|kv' r IH]; intros l' H; simpl in H.
  - injection H as <-. apply Permutation_refl.
  - destruct (key_leb (fst kv) (fst kv')) as [[|]|]; try discriminate.
    + injection H as <-. apply Permutation_refl.
    + destruct (insert_item kv r) as [r'|]; [| discriminate].
      injection H as <-.
      eapply perm_trans; [apply perm_swap |].
      apply perm_skip. now apply IH.
Qed.

Lemma sort_items_perm {V} (l : list (bkey * V)) :
  forall s, sort_items l = Some s -> Permutation l s.
Proof.
  induction l as [|kv r IH]; intros s H; simpl in H.
  - injection H as <-. constructor.
  - destruct (sort_items r) as [r'|]; [| discriminate].
    eapply perm_trans; [apply perm_skip, IH; reflexivity |].
    now apply insert_item_perm.
Qed.

Section Related.
Context {V W : Type} (R : bkey * V -> bkey * W -> Prop).
Hypothesis same_key : forall a b, R a b -> fst b = fst a.

Lemma insert_item_related a b l1 l2 :
  R a b -> Forall2 R l1 l2 ->
  forall s2, insert_item b l2 = Some s2 ->
             exists s1, insert_item a l1 = Some s1 /\ Forall2 R s1 s2.
Proof.
  intros Hab H. induction H as [|x y l1 l2 Hxy Hl IH]; intros s2 Hs; simpl in Hs.
  - injection Hs as <-. exists [a]. split; [reflexivity | now repeat constructor].
  - cbn [insert_item].
    rewrite (same_key _ _ Hab), (same_key _ _ Hxy) in Hs.
    destruct (key_leb (fst a) (fst x)) as [[|]|]; try discriminate.
    + injection Hs as <-. exists (a :: x :: l1).
      split; [reflexivity | now repeat constructor].
    + destruct (insert_item b l2) as [r2|]; [| discriminate].
      injection Hs as <-.
      destruct (IH r2 eq_refl) as (r1 & -> & Hr).
      exists (x :: r1). split; [reflexivity | now constructor].
Qed.

Lemma sort_items_related l1 l2 :
  Forall2 R l1 l2 ->
  forall s2, sort_items l2 = Some s2 ->
             exists s1, sort_items l1 = Some s1 /\ Forall2 R s1 s2.
Proof.
  induction 1 as [|x y l1 l2 Hxy Hl IH]; intros s2 Hs; simpl in Hs.
  - injection Hs as <-. exists []. split; [reflexivity | constructor].
  - destruct (sort_items l2) as [r2|]; [| discriminate].
    destruct (IH r2 eq_refl) as (r1 & Hr1 & Hr).
    destruct (insert_item_related _ _ _ _ Hxy Hr _ Hs) as (s1 & Hs1 & HR).
    exists s1. split; [| exact HR].
    cbn [sort_items]. now rewrite Hr1.
Qed.
End Related.

Lemma encode_entries_related d :
  forall enc, encode_entries d = Returned enc -> Forall2 entry_encoded d enc.
Proof.
  induction d as [|[k v] r IH]; intros enc H.
  - injection H as <-. constructor.
  - rewrite encode_entries_cons in H.
    apply bind_returned in H as (a & Ha & H).
    apply bind_returned in H as (b & Hb & [= <-]).
    constructor; [| now apply IH].
    split; [reflexivity |]. now exists a.
Qed.

Lemma concat_cons a l :
  String.concat "" (a :: l) = a ++ String.concat "" l.
Proof.
  destruct l as [|b l]; [| reflexivity].
  simpl. now rewrite append_nil_r.
Qed.

(** *** The dict loop *)

Lemma decode_key fuel k post :
  key_has_str k = false ->
  _bencode_decode_recursive (S fuel) (encode_key k ++ post) 0
  = Decoded (key_value k) (String.length (encode_key k)).
Proof.
  destruct k as [z|b|s]; intros H; [| | discriminate].
  - apply decode_int.
  - apply decode_bytes.
Qed.

Lemma as_key_value k : as_key (key_value k) = Some k.
Proof. now destruct k. Qed.

Lemma decode_entries sd senc :
  Forall2 entry_encoded sd senc ->
  Forall entry_good sd ->
  forall fuel post acc,
    (1 + String.length (String.concat "" (map snd senc)) <= fuel)%nat ->
    exists sd',
      decode_dict fuel (String.concat "" (map snd senc) ++ "e" ++ post) 0 acc
      = Decoded (BDict (fold_left set_entry sd' acc))
                (String.length (String.concat "" (map snd senc)) + 1)
      /\ Forall2 entry_equal sd' sd.
Proof.
  induction 1 as [|[k v] [k' e] sd senc (Hk & a & Ha & He) _ IH];
    intros Hgood fuel post acc Hfuel.
  - destruct fuel as [|fuel]; [simpl in Hfuel; lia |].
    exists []. split; [| constructor].
    rewrite decode_dict_S. cbn [map String.concat append String.get].
    change (Ascii.eqb "e" "e") with true. reflexivity.
  - cbn [fst snd] in Hk, Ha, He. subst k' e.
    inversion Hgood as [|? ? [Hstr Hv] Hrest]; subst.
    cbn [fst snd] in Hstr, Hv.
    cbn [map snd] in Hfuel |- *.
    set (body := String.concat "" (map snd senc)) in *.
    rewrite concat_cons in Hfuel |- *. fold body in Hfuel |- *.
    destruct (encode_key_head k) as (c & kr & Ec & Hc).
    assert (Hklen : (1 <= String.length (encode_key k))%nat)
      by (rewrite Ec; simpl; lia).
    destruct (encode_head _ _ Ha) as (c2 & ar & Ec2 & _).
    assert (Halen : (1 <= String.length a)%nat)
      by (rewrite Ec2; simpl; lia).
    rewrite !length_append in Hfuel. rewrite !length_append.
    destruct fuel as [|[|fuel]]; [lia | lia |].
    assert (Hget : forall rest, String.get 0 (encode_key k ++ rest) = Some c)
      by (intros rest; rewrite Ec; reflexivity).
    rewrite decode_dict_S, !append_assoc, Hget, Hc.
    rewrite decode_key by exact Hstr.
    pose proof (proj1 (decode_shift (S fuel) (encode_key k)
                         (a ++ body ++ "e" ++ post)) 0%nat) as Hs.
    rewrite Nat.add_0_r in Hs. rewrite Hs. clear Hs.
    destruct (Hv a Ha (S fuel) (body ++ "e" ++ post)) as (v' & Hdec & Heq);
      [lia |].
    rewrite Hdec. cbn [shift]. rewrite as_key_value.
    pose proof (proj2 (proj2 (decode_shift (S fuel) (encode_key k ++ a)
                                (body ++ "e" ++ post)))
                  0%nat (entries_set acc k v')) as Hs.
    rewrite Nat.add_0_r, length_append, append_assoc in Hs.
    rewrite Hs. clear Hs.
    destruct (IH Hrest (S fuel) post (entries_set acc k v')) as (sd' & Hd & Hall);
      [fold body; lia |].
    fold body in Hd. rewrite Hd.
    exists ((k, v') :: sd'). split.
    + cbn [shift fold_left]. f_equal. lia.
    + constructor; [now split | exact Hall].
Qed.

(** *** The dict that the loop builds *)

Lemma entries_set_fresh acc k v :
  ~ In k (map fst acc) -> entries_set acc k v = (acc ++ [(k, v)])%list.
Proof.
  induction acc as [|[k' v'] r IH]; intros H; [reflexivity |].
  cbn [entries_set app].
  destruct (key_eqb k k') eqn:E.
  - apply key_eqb_eq in E. subst k'. elim H. now left.
  - rewrite IH; [reflexivity |]. intros Hin. apply H. now right.
Qed.

Lemma fold_set_fresh l :
  forall acc,
    NoDup (map fst (acc ++ l)) -> fold_left set_entry l acc = (acc ++ l)%list.
Proof.
  induction l as [|[k v] l IH]; intros acc H.
  - now rewrite app_nil_r.
  - cbn [fold_left]. unfold set_entry at 2. cbn [fst snd].
    assert (E : (acc ++ (k, v) :: l = (acc ++ [(k, v)]) ++ l)%list)
      by now rewrite <- app_assoc.
    rewrite E in H |- *.
    rewrite entries_set_fresh; [now apply IH |].
    rewrite !map_app in H. apply NoDup_app_remove_r in H.
    cbn [map fst] in H. apply NoDup_remove_2 in H.
    now rewrite app_nil_r in H.
Qed.

Lemma entries_get_in d k w :
  NoDup (map fst d) -> In (k, w) d -> entries_get d k = Some w.
Proof.
  induction d as [|[k' v] r IH]; intros Hnd Hin; [destruct Hin |].
  cbn [map fst] in Hnd. inversion Hnd as [|? ? Hk Hr]; subst.
  cbn [entries_get].
  destruct (key_eqb k k') eqn:E.
  - apply key_eqb_eq in E. subst k'.
    destruct Hin as [[= ->] | Hin]; [reflexivity |].
    elim Hk. change k with (fst (k, w)). now apply in_map.
  - destruct Hin as [[= -> _] | Hin].
    + assert (key_eqb k k = true) by now apply key_eqb_eq. congruence.
    + now apply IH.
Qed.

Lemma py_equal_dict d1 d2 :
  py_equal (BDict d1) (BDict d2)
  = (List.length d1 =? List.length d2)%nat
    && forallb (fun kv => match entries_get d2 (fst kv) with
                          | Some w => py_equal (snd kv) w
                          | None => false
                          end) d1.
Proof.
  cbn [py_equal]. f_equal.
  induction d1 as [|[k v] r IH]; [reflexivity |].
  cbn [forallb fst snd]. destruct (entries_get d2 k); [| reflexivity].
  now rewrite IH.
Qed.

Lemma Forall2_in_left {A B} (R : A -> B -> Prop) l1 l2 a :
  Forall2 R l1 l2 -> In a l1 -> exists b, In b l2 /\ R a b.
Proof.
  induction 1 as [|x y l1 l2 Hxy _ IH]; intros Hin; [destruct Hin |].
  destruct Hin as [-> | Hin].
  - exists y. split; [now left | exact Hxy].
  - destruct (IH Hin) as (b & Hb & HR). exists b. split; [now right | exact HR].
Qed.

Lemma Forall2_keys l1 l2 :
  Forall2 entry_equal l1 l2 -> map fst l1 = map fst l2.
Proof.
  induction 1 as [|x y l1 l2 [Hxy _] _ IH]; [reflexivity |].
  cbn [map]. now rewrite Hxy, IH.
Qed.

Lemma py_equal_entries d sd sd' :
  NoDup (map fst d) ->
  Permutation d sd ->
  Forall2 entry_equal sd' sd ->
  py_equal (BDict sd') (BDict d) = true.
Proof.
  intros Hnd Hperm Hall. rewrite py_equal_dict.
  apply andb_true_iff. split.
  - apply Nat.eqb_eq.
    rewrite (Forall2_length Hall). symmetry. now apply Permutation_length.
  - apply forallb_forall. intros [k v'] Hin. cbn [fst snd].
    destruct (Forall2_in_left _ _ _ _ Hall Hin) as ([k2 w] & Hw & Hk & Heq).
    cbn [fst snd] in Hk, Heq. subst k2.
    rewrite (entries_get_in d k w Hnd); [exact Heq |].
    eapply Permutation_in; [symmetry; exact Hperm | exact Hw].
Qed.

(** ** The round trip *)

Lemma forallb_good (p : bval -> bool) items :
  forallb p items = true -> Forall (fun v => p v = true) items.
Proof. intros H. apply Forall_forall. now apply forallb_forall. Qed.

Lemma round_trips_all v : round_trips v.
Proof.
  induction v as [z|b|s|items IH|entries IH] using bval_induction;
    intros Hwf Hws bs Henc.
  - injection Henc as <-. intros [|fuel] post Hfuel; [simpl in Hfuel; lia |].
    exists (BInt z). split; [apply decode_int | apply Z.eqb_refl].
  - injection Henc as <-. intros [|fuel] post Hfuel.
    + destruct (encode_head (BBytes b) _ eq_refl) as (c & r & E & _).
      rewrite E in Hfuel. simpl in Hfuel. lia.
    + exists (BBytes b). split; [apply decode_bytes | apply String.eqb_refl].
  - discriminate.
  - rewrite encode_list_eq in Henc.
    apply bind_returned in Henc as (body & Hbody & [= <-]).
    assert (Hitems : Forall (fun v => forall a, _bencode_encode v = Returned a ->
                                                reads_back v a) items).
    { cbn [well_formed without_str] in Hwf, Hws.
      apply forallb_good in Hwf, Hws.
      rewrite Forall_forall in IH, Hwf, Hws |- *.
      intros v Hin a Ha. now apply (IH v Hin (Hwf v Hin) (Hws v Hin)). }
    assert (Hlen : String.length ("l" ++ body ++ "e") = (2 + String.length body)%nat)
      by (rewrite !length_append; cbn [String.length]; lia).
    intros fuel post Hfuel.
    change (String.length ("l" ++ body ++ "e") <= fuel)%nat in Hfuel.
    change (exists v',
               _bencode_decode_recursive fuel (("l" ++ body ++ "e") ++ post) 0
               = Decoded v' (String.length ("l" ++ body ++ "e"))
               /\ py_equal v' (BList items) = true).
    rewrite Hlen in Hfuel.
    destruct fuel as [|fuel]; [lia |].
    rewrite decode_S, !append_assoc.
    change (String.get 0 ("l" ++ body ++ "e" ++ post)) with (Some "l"%char).
    cbv beta iota.
    change (Ascii.eqb "l" "i") with false.
    change (Ascii.eqb "l" "l") with true. cbv iota.
    change (0 + 1)%nat with (String.length "l" + 0)%nat.
    rewrite (proj1 (proj2 (decode_shift fuel "l" (body ++ "e" ++ post)))).
    destruct (decode_items items Hitems body Hbody fuel post []) as (items' & Hd & Hall);
      [lia |].
    rewrite Hd. exists (BList items'). split.
    + cbn [shift rev app]. rewrite Hlen. f_equal.
      cbn [String.length]. lia.
    + now apply py_equal_list.
  - rewrite encode_dict_eq in Henc.
    apply bind_returned in Henc as (enc & Henc & Hsort).
    destruct (sort_items enc) as [senc|] eqn:Hsenc; [| discriminate].
    injection Hsort as <-.
    apply encode_entries_related in Henc.
    destruct (sort_items_related entry_encoded (fun a b H => proj1 H)
                _ _ Henc _ Hsenc) as (sd & Hsd & Hrel).
    apply sort_items_perm in Hsd.
    cbn [well_formed without_str] in Hwf, Hws.
    apply andb_true_iff in Hwf as [Hkeys Hwf].
    apply keys_distinct_NoDup in Hkeys.
    assert (Hgood : Forall entry_good sd).
    { rewrite Forall_forall in IH |- *. intros kv Hin.
      apply (Permutation_in _ (Permutation_sym Hsd)) in Hin.
      pose proof (proj1 (forallb_forall _ _) Hwf kv Hin) as Hw.
      pose proof (proj1 (forallb_forall _ _) Hws kv Hin) as Hs.
      cbv beta in Hw, Hs. apply andb_true_iff in Hs as [Hk Hs].
      apply negb_true_iff in Hk.
      split; [exact Hk |]. intros a Ha. now apply (IH kv Hin Hw Hs). }
    set (body := String.concat "" (map snd senc)).
    assert (Hlen : String.length ("d" ++ body ++ "e") = (2 + String.length body)%nat)
      by (rewrite !length_append; cbn [String.length]; lia).
    intros fuel post Hfuel.
    change (String.length ("d" ++ body ++ "e") <= fuel)%nat in Hfuel.
    change (exists v',
               _bencode_decode_recursive fuel (("d" ++ body ++ "e") ++ post) 0
               = Decoded v' (String.length ("d" ++ body ++ "e"))
               /\ py_equal v' (BDict entries) = true).
    rewrite Hlen in Hfuel.
    destruct fuel as [|fuel]; [lia |].
    rewrite decode_S, !append_assoc.
    change (String.get 0 ("d" ++ body ++ "e" ++ post)) with (Some "d"%char).
    cbv beta iota.
    change (Ascii.eqb "d" "i") with false.
    change (Ascii.eqb "d" "l") with false.
    change (Ascii.eqb "d" "d") with true. cbv iota.
    change (0 + 1)%nat with (String.length "d" + 0)%nat.
    rewrite (proj2 (proj2 (decode_shift fuel "d" (body ++ "e" ++ post)))).
    destruct (decode_entries sd senc Hrel Hgood fuel post []) as (sd' & Hd & Hall);
      [fold body; lia |].
    fold body in Hd. rewrite Hd.
    assert (Hnd : NoDup (map fst sd')).
    { rewrite (Forall2_keys _ _ Hall).
      eapply Permutation_NoDup; [apply Permutation_map; exact Hsd | exact Hkeys]. }
    rewrite fold_set_fresh by exact Hnd.
    exists (BDict sd'). split.
    + cbn [shift app]. rewrite Hlen. f_equal.
      cbn [String.length]. lia.
    + now apply (py_equal_entries entries sd sd').
Qed.

(** C9.  Take a value built from ints, byte strings, lists and dicts (no
    [str] anywhere, and each dict holding a key once, as every Python dict
    does).  Whenever [_bencode_encode] returns bytes for it,
    [_bencode_decode] of those bytes returns, having read all of them, a
    value that Python's [==] finds equal to the one encoded. *)
Theorem bencode_round_trip (v : bval) (bs : string) :
  well_formed v = true ->
  without_str v = true ->
  _bencode_encode v = Returned bs ->
  exists v',
    _bencode_decode bs = Decoded v' (String.length bs)
    /\ py_equal v' v = true.
Proof.
  intros Hwf Hws Henc. unfold _bencode_decode.
  destruct (round_trips_all v Hwf Hws bs Henc
              (2 * String.length bs + 2)%nat "") as (v' & Hd & Heq); [lia |].
  rewrite append_nil_r in Hd. now exists v'.
Qed.

Lemma bencode_round_trip_witness :
  let v := BDict [(KBytes "t", BBytes "aa");
                  (KBytes "a", BList [BInt (-3); BInt 0; BDict []])] in
  _bencode_encode v = Returned "d1:ali-3ei0edee1:t2:aae"
  /\ exists v',
      _bencode_decode "d1:ali-3ei0edee1:t2:aae" = Decoded v' 23
      /\ py_equal v' v = true.
Proof.
  intros v. split; [reflexivity |].
  exact (bencode_round_trip v "d1:ali-3ei0edee1:t2:aae" eq_refl eq_refl eq_refl).
Defined.

(** A [str] is encoded as its bytes and read back as [bytes], which
    Python does not find equal to the [str]. *)
Example str_decodes_as_bytes :
  _bencode_encode (BStr "ab") = Returned "2:ab"
  /\ _bencode_decode "2:ab" = Decoded (BBytes "ab") 4
  /\ py_equal (BBytes "ab") (BStr "ab") = false.
Proof. repeat split. Qed.

End BencodeFacts.

(** * The embedding run on known values *)

Module Checks.
Import Py.

Example sha256_abc :
  SHA256.hexdigest "abc"
  = "ba7816bf8f01cfea414140de5dae2223b00361a396177a9cb410ff61f20015ad".
Proof. vm_compute. reflexivity. Qed.

Example sha256_empty :
  SHA256.hexdigest EmptyString
  = "e3b0c44298fc1c149afbf4c8996fb92427ae41e4649b934ca495991b7852b855".
Proof. vm_compute. reflexivity. Qed.

Example sha256_two_blocks :
  SHA256.hexdigest "abcdbcdecdefdefgefghfghighijhijkijkljklmklmnlmnomnopnopq"
  = "248d6a61d20638b8e5c026930c3e6039a33ce45964ff2167f6ecedd419db06c1".
Proof. vm_compute. reflexivity. Qed.

Example geohash_london :
  Geohash.encode_geohash 51.5074 (-0.1278) 5 = "gcpvj".
Proof. vm_compute. reflexivity. Qed.

Example geohash_jutland :
  Geohash.encode_geohash 57.64911 10.40744 11 = "u4pruydqqvj".
Proof. vm_compute. reflexivity. Qed.

Example bencode_query :
  Bencode._bencode_encode
    (Bencode.BDict [(Bencode.KBytes "y", Bencode.BBytes "q");
                    (Bencode.KBytes "q", Bencode.BBytes "ping");
                    (Bencode.KBytes "t", Bencode.BBytes "aa")])
  = Returned "d1:q4:ping1:t2:aa1:y1:qe".
Proof. reflexivity. Qed.

End Checks.

(** * Dictionaries *)

Module DictFacts.
Import Py DecaySpec.

Lemma dict_get_set_other {V : Type} (d : dict V) (k k' : string) (v : V) :
  k' <> k -> dict_get (dict_set d k v) k' = dict_get d k'.
Proof.
  intros Hne. induction d as [|[k0 v0] r IH]; simpl.
  - destruct (String.eqb k' k) eqn:E; [| reflexivity].
    apply String.eqb_eq in E. contradiction.
  - destruct (String.eqb k k0) eqn:E; simpl.
    + apply String.eqb_eq in E. subst k0.
      destruct (String.eqb k' k) eqn:E'; [| reflexivity].
      apply String.eqb_eq in E'. contradiction.
    + destruct (String.eqb k' k0); [reflexivity | exact IH].
Qed.

Lemma dict_get_In {V : Type} (d : dict V) (k : string) (v : V) :
  dict_get d k = Some v -> In (k, v) d.
Proof.
  induction d as [|[k0 v0] r IH]; simpl; [discriminate |].
  destruct (String.eqb k k0) eqn:E.
  - apply String.eqb_eq in E. subst k0. intros [= ->]. now left.
  - intros H. right. now apply IH.
Qed.

Lemma dict_get_none {V : Type} (d : dict V) (k : string) :
  dict_get d k = None <-> ~ In k (map fst d).
Proof.
  induction d as [|[k0 v0] r IH]; simpl; [tauto |].
  destruct (String.eqb k k0) eqn:E.
  - apply String.eqb_eq in E. subst k0. split; [discriminate | tauto].
  - apply String.eqb_neq in E. rewrite IH. split.
    + intros H [H1 | H1]; [congruence | contradiction].
    + tauto.
Qed.

Lemma In_dict_get {V : Type} (d : dict V) (k : string) (v : V) :
  keys_once d -> In (k, v) d -> dict_get d k = Some v.
Proof.
  unfold keys_once.
  induction d as [|[k0 v0] r IH]; simpl; intros Hnd Hin; [contradiction |].
  inversion Hnd as [|? ? Hk Hr]; subst.
  destruct (String.eqb k k0) eqn:E.
  - apply String.eqb_eq in E. subst k0.
    destruct Hin as [[= ->] | Hin]; [reflexivity |].
    elim Hk. change k with (fst (k, v)). now apply in_map.
  - apply String.eqb_neq in E.
    destruct Hin as [[= -> _] | Hin]; [congruence | now apply IH].
Qed.

(** The keys after [d[k] = v]. *)
Lemma dict_set_keys {V : Type} (d : dict V) (k : string) (v : V) :
  map fst (dict_set d k v)
  = if dict_mem d k then map fst d else (map fst d ++ [k])%list.
Proof.
  unfold dict_mem. induction d as [|[k0 v0] r IH]; simpl; [reflexivity |].
  destruct (String.eqb k k0) eqn:E; simpl.
  - apply String.eqb_eq in E. now subst k0.
  - rewrite IH. now destruct (dict_get r k).
Qed.

Lemma dict_set_keys_once {V : Type} (d : dict V) (k : string) (v : V) :
  keys_once d -> keys_once (dict_set d k v).
Proof.
  unfold keys_once. intros H. rewrite dict_set_keys. unfold dict_mem.
  destruct (dict_get d k) eqn:E; [exact H |].
  apply dict_get_none in E.
  apply NoDup_app; [exact H | repeat constructor; simpl; tauto |].
  intros x Hx [<- | []]. contradiction.
Qed.

(** [del d[k]] in a dict removes the entry of the key and no other. *)
Lemma dict_del_filter {V : Type} (d : dict V) (k : string) :
  keys_once d ->
  dict_del d k = filter (fun kv => negb (String.eqb k (fst kv))) d.
Proof.
  unfold keys_once.
  induction d as [|[k0 v0] r IH]; simpl; intros Hnd; [reflexivity |].
  inversion Hnd as [|? ? Hk Hr]; subst.
  destruct (String.eqb k k0) eqn:E; simpl.
  - apply String.eqb_eq in E. subst k0.
    symmetry. apply forallb_filter_id. apply forallb_forall.
    intros [k1 v1] Hin. simpl. apply negb_true_iff, String.eqb_neq.
    intros <-. apply Hk. change k with (fst (k, v1)). now apply in_map.
  - now rewrite IH.
Qed.

Lemma filter_keys_once {V : Type} (p : string * V -> bool) (d : dict V) :
  keys_once d -> keys_once (filter p d).
Proof.
  unfold keys_once. induction d as [|kv r IH]; simpl; intros H; [exact H |].
  inversion H as [|? ? Hk Hr]; subst.
  destruct (p kv); simpl; [| now apply IH].
  constructor; [| now apply IH].
  intros Hin. apply Hk. apply in_map_iff in Hin as (x & Hx & Hin).
  apply filter_In in Hin as [Hin _]. rewrite <- Hx. now apply in_map.
Qed.

Lemma dict_del_keys_once {V : Type} (d : dict V) (k : string) :
  keys_once d -> keys_once (dict_del d k).
Proof.
  intros H. rewrite dict_del_filter by exact H. now apply filter_keys_once.
Qed.

Lemma dict_get_filter {V : Type} (p : string * V -> bool) (d : dict V) k :
  keys_once d ->
  dict_get (filter p d) k
  = match dict_get d k with
    | Some v => if p (k, v) then Some v else None
    | None => None
    end.
Proof.
  unfold keys_once.
  induction d as [|[k0 v0] r IH]; simpl; intros Hnd; [reflexivity |].
  inversion Hnd as [|? ? Hk Hr]; subst.
  destruct (String.eqb k k0) eqn:E.
  - apply String.eqb_eq in E. subst k0.
    destruct (p (k, v0)); simpl.
    + now rewrite String.eqb_refl.
    + rewrite (IH Hr).
      destruct (dict_get r k) eqn:G; [| reflexivity].
      apply dict_get_In in G. elim Hk.
      change k with (fst (k, v)). now apply in_map.
  - destruct (p (k0, v0)); simpl; [rewrite E |]; now apply IH.
Qed.

Lemma filter_twice {A : Type} (p q : A -> bool) (l : list A) :
  filter q (filter p l) = filter (fun x => p x && q x) l.
Proof.
  induction l as [|x l IH]; simpl; [reflexivity |].
  destruct (p x); simpl; [destruct (q x) |]; now rewrite IH.
Qed.

Lemma filter_split_length {A : Type} (p : A -> bool) (l : list A) :
  (List.length (filter p l) + List.length (filter (fun x => negb (p x)) l)
   = List.length l)%nat.
Proof.
  induction l as [|x l IH]; [reflexivity |].
  cbn [filter]. destruct (p x); cbn [negb List.length]; lia.
Qed.

(** Deleting the keys of the entries that satisfy [p], one after the
    other, leaves the entries that do not. *)
Lemma dict_del_many {V : Type} (p : string * V -> bool) (d : dict V) :
  keys_once d ->
  fold_left (fun d id => dict_del d id) (map fst (filter p d)) d
  = filter (fun kv => negb (p kv)) d.
Proof.
  intros Hnd.
  assert (G : forall ids d',
             keys_once d' ->
             fold_left (fun d id => dict_del d id) ids d'
             = filter (fun kv : string * V =>
                         negb (existsb (fun id => String.eqb id (fst kv)) ids)) d').
  { induction ids as [|id ids IH]; intros d' Hd'; simpl.
    - symmetry. apply forallb_filter_id. now apply forallb_forall.
    - rewrite IH by now apply dict_del_keys_once.
      rewrite dict_del_filter by exact Hd'.
      rewrite filter_twice. apply filter_ext. intros kv.
      now rewrite negb_orb, (String.eqb_sym id). }
  rewrite G by exact Hnd. apply filter_ext_in. intros [k v] Hin. f_equal.
  destruct (p (k, v)) eqn:Hp.
  - apply existsb_exists. exists k. split; [| apply String.eqb_refl].
    change k with (fst (k, v)). apply in_map. apply filter_In. now split.
  - apply not_true_iff_false. intros H.
    apply existsb_exists in H as (id & Hid & E). simpl in E.
    apply String.eqb_eq in E. subst id.
    apply in_map_iff in Hid as ([k' v'] & Hk & Hin'). simpl in Hk. subst k'.
    apply filter_In in Hin' as [Hin' Hp'].
    assert (v' = v).
    { pose proof (In_dict_get d k v Hnd Hin) as A.
      pose proof (In_dict_get d k v' Hnd Hin') as B. congruence. }
    subst v'. congruence.
Qed.

End DictFacts.

(** * Visibility decay *)

Module DecayFacts.
Import Py NodeDecay DecaySpec DictFacts.

(** The factor of a node that is not infrastructure. *)
Lemma decay_factor_plain now node :
  is_infrastructure node = false ->
  (now - last_seen node < 300 -> decay_factor now node = 1)
  /\ (300 <= now - last_seen node ->
      (now - last_seen node <= 3900 ->
       decay_factor now node == 1 - (now - last_seen node - 300) * (1 # 3600))
      /\ (3900 <= now - last_seen node -> decay_factor now node == 0)).
Proof.
  intros Hi. unfold decay_factor. rewrite Hi.
  change (inject_Z DECAY_START_AFTER) with 300.
  change (inject_Z FULL_DECAY_TIME) with 3600.
  unfold Qdiv. change (/ 3600) with (1 # 3600).
  destruct (Qle_bool 300 (now - last_seen node)) eqn:E; simpl.
  - apply Qle_bool_iff in E. split; [intros H; lra |]. intros _.
    unfold Geohash.max.
    destruct (Qle_bool (1 - (now - last_seen node - 300) * (1 # 3600)) 0) eqn:F;
      simpl.
    + apply Qle_bool_iff in F. split; intros H; lra.
    + assert (~ 1 - (now - last_seen node - 300) * (1 # 3600) <= 0)
        by (intros H; apply Qle_bool_iff in H; congruence).
      split; intros H'; lra.
  - assert (~ 300 <= now - last_seen node)
      by (intros H; apply Qle_bool_iff in H; congruence).
    split; [reflexivity | intros H'; lra].
Qed.

Lemma decay_bounds now node :
  0 <= decay_factor now node /\ decay_factor now node <= 1.
Proof.
  destruct (is_infrastructure node) eqn:Hi.
  - unfold decay_factor. rewrite Hi. split; lra.
  - destruct (decay_factor_plain now node Hi) as [Hnear Hfar].
    destruct (Qlt_le_dec (now - last_seen node) 300) as [Hlt | Hge].
    + rewrite (Hnear Hlt). split; lra.
    + destruct (Hfar Hge) as [Hmid Hout].
      destruct (Qlt_le_dec (now - last_seen node) 3900) as [Hlt | Hge'].
      * rewrite (Hmid ltac:(lra)). split; lra.
      * rewrite (Hout Hge'). split; lra.
Qed.

(** X1.  The decay factor lies between 0 and 1.  It is 1 for
    infrastructure, and for any node seen less than 300 seconds ago.  A
    node is due for removal exactly when it is not infrastructure and
    was last seen 3900 seconds ago or earlier. *)
Theorem decay_factor_range (now : Q) (node : NodeDecay.t) :
  (0 <= decay_factor now node /\ decay_factor now node <= 1)
  /\ (is_infrastructure node = true \/ now - last_seen node < 300 ->
      decay_factor now node = 1)
  /\ (should_remove now node = true
      <-> is_infrastructure node = false /\ last_seen node + 3900 <= now).
Proof.
  destruct (is_infrastructure node) eqn:Hi.
  - assert (E : decay_factor now node = 1)
      by (unfold decay_factor; now rewrite Hi).
    unfold should_remove. rewrite E.
    split; [split; lra |]. split; [reflexivity |].
    split; [intros H; apply Qle_bool_iff in H; lra | intros [H _]; discriminate].
  - destruct (decay_factor_plain now node Hi) as [Hnear Hfar].
    destruct (Qlt_le_dec (now - last_seen node) 300) as [Hlt | Hge].
    + rewrite (Hnear Hlt). unfold should_remove. rewrite (Hnear Hlt).
      split; [split; lra |]. split; [reflexivity |].
      split; [intros H; apply Qle_bool_iff in H; lra | intros [_ H]; lra].
    + destruct (Hfar Hge) as [Hmid Hout].
      destruct (Qlt_le_dec (now - last_seen node) 3900) as [Hlt | Hge'].
      * assert (Hm := Hmid ltac:(lra)).
        unfold should_remove.
        split; [split; lra |].
        split; [intros [H | H]; [discriminate | lra] |].
        split.
        -- intros H. apply Qle_bool_iff in H. lra.
        -- intros [_ H]. lra.
      * assert (Ho := Hout Hge').
        unfold should_remove.
        split; [split; lra |].
        split; [intros [H | H]; [discriminate | lra] |].
        split.
        -- intros _. split; [reflexivity | lra].
        -- intros _. apply Qle_bool_iff. lra.
Qed.

Lemma decay_factor_range_witness :
  let node := {| peer_id := "peer-b"; last_seen := 1000;
                 decay_start := None; is_infrastructure := false |} in
  (0 <= decay_factor 1200 node /\ decay_factor 1200 node <= 1)
  /\ decay_factor 1200 node = 1
  /\ (should_remove 1200 node = true
      <-> is_infrastructure node = false /\ last_seen node + 3900 <= 1200).
Proof.
  intros node.
  destruct (decay_factor_range 1200 node) as (H1 & H2 & H3).
  split; [exact H1 |]. split; [| exact H3].
  apply H2. right. vm_compute. reflexivity.
Defined.

(** X2.  The decay factor of a node that is not seen again does not
    rise as the clock advances. *)
Theorem decay_factor_monotone (now now' : Q) (node : NodeDecay.t) :
  now <= now' -> decay_factor now' node <= decay_factor now node.
Proof.
  intros Hle. destruct (is_infrastructure node) eqn:Hi.
  - unfold decay_factor. rewrite Hi. lra.
  - destruct (decay_factor_plain now node Hi) as [Hnear Hfar].
    destruct (decay_factor_plain now' node Hi) as [Hnear' Hfar'].
    pose proof (decay_bounds now' node) as [_ Hub].
    pose proof (decay_bounds now node) as [Hlb _].
    destruct (Qlt_le_dec (now - last_seen node) 300) as [Hlt | Hge].
    + rewrite (Hnear Hlt). exact Hub.
    + destruct (Hfar Hge) as [Hmid Hout].
      destruct (Hfar' ltac:(lra)) as [Hmid' Hout'].
      destruct (Qlt_le_dec (now' - last_seen node) 3900) as [Hlt' | Hge'].
      * rewrite (Hmid' ltac:(lra)), (Hmid ltac:(lra)). lra.
      * rewrite (Hout' Hge'). exact Hlb.
Qed.

Lemma decay_factor_monotone_witness :
  let node := {| peer_id := "peer-b"; last_seen := 1000;
                 decay_start := None; is_infrastructure := false |} in
  decay_factor 3000 node <= decay_factor 2000 node.
Proof.
  intros node. apply (decay_factor_monotone 2000 3000 node).
  vm_compute. discriminate.
Defined.

Lemma decay_later now now' node :
  now <= now' -> decay_factor now' node <= decay_factor now node.
Proof.
  intros Hle. destruct (is_infrastructure node) eqn:Hi.
  - unfold decay_factor. rewrite Hi. lra.
  - destruct (decay_factor_plain now node Hi) as [Hnear Hfar].
    destruct (decay_factor_plain now' node Hi) as [Hnear' Hfar'].
    pose proof (decay_bounds now' node) as [_ Hub].
    pose proof (decay_bounds now node) as [Hlb _].
    destruct (Qlt_le_dec (now - last_seen node) 300) as [Hlt | Hge].
    + rewrite (Hnear Hlt). exact Hub.
    + destruct (Hfar Hge) as [Hmid Hout].
      destruct (Hfar' ltac:(lra)) as [Hmid' Hout'].
      destruct (Qlt_le_dec (now' - last_seen node) 3900) as [Hlt' | Hge'].
      * rewrite (Hmid' ltac:(lra)), (Hmid ltac:(lra)). lra.
      * rewrite (Hout' Hge'). exact Hlb.
Qed.

(** ** The manager *)

Import NodeDecayManager.

Lemma visit_fold clock d :
  forall visible to_remove,
    fold_left (visit clock) d (visible, to_remove)
    = ((visible
        ++ map (fun kv => (fst kv, decay_factor (snd (clock (fst kv))) (snd kv)))
               (filter (fun kv => negb (should_remove (fst (clock (fst kv)))
                                                      (snd kv))) d))%list,
       (to_remove
        ++ map fst (filter (fun kv => should_remove (fst (clock (fst kv)))
                                                    (snd kv)) d))%list).
Proof.
  induction d as [|kv d IH]; intros visible to_remove; simpl.
  - now rewrite !app_nil_r.
  - destruct (should_remove (fst (clock (fst kv))) (snd kv)); simpl; rewrite IH;
      now rewrite <- !app_assoc.
Qed.

Lemma get_visible_nodes_filter clock self :
  keys_once (_nodes self) ->
  get_visible_nodes clock self
  = ({| _nodes := filter (fun kv => negb (should_remove (fst (clock (fst kv)))
                                                        (snd kv)))
                         (_nodes self) |},
     map (fun kv => (fst kv, decay_factor (snd (clock (fst kv))) (snd kv)))
         (filter (fun kv => negb (should_remove (fst (clock (fst kv))) (snd kv)))
                 (_nodes self))).
Proof.
  intros Hk. unfold get_visible_nodes. rewrite visit_fold. cbn [app].
  now rewrite (dict_del_many
                 (fun kv => should_remove (fst (clock (fst kv))) (snd kv))).
Qed.

(** X3.  After [update_node] the node is fully visible at every clock
    reading less than 300 seconds later.  Its entry carries the new
    time; for a node already known the infrastructure flag is the one it
    had, whatever flag the call gives, and the flag given is used for a
    new node only.  No other entry changes. *)
Theorem update_node_effect
        (now : Q) (self : NodeDecayManager.t) (peer_id : string)
        (flag : bool) :
  let after := update_node now self peer_id flag in
  (forall now', now' - now < 300 ->
                get_decay_factor now' after peer_id = 1)
  /\ (exists node,
         dict_get (_nodes after) peer_id = Some node
         /\ last_seen node = now
         /\ is_infrastructure node
            = match dict_get (_nodes self) peer_id with
              | Some old => is_infrastructure old
              | None => flag
              end)
  /\ (forall other, other <> peer_id ->
                    dict_get (_nodes after) other
                    = dict_get (_nodes self) other).
Proof.
  intros after. subst after. unfold update_node, get_decay_factor.
  destruct (dict_get (_nodes self) peer_id) as [old|] eqn:E;
    cbn [_nodes]; rewrite PyFacts.dict_get_set_same.
  - split; [| split].
    + intros now' H. unfold decay_factor. cbn [is_infrastructure last_seen].
      destruct (is_infrastructure old); [reflexivity |].
      change (inject_Z DECAY_START_AFTER) with 300.
      destruct (Qle_bool 300 (now' - now)) eqn:F; [| reflexivity].
      apply Qle_bool_iff in F. lra.
    + eexists. split; [reflexivity |]. split; reflexivity.
    + intros other Hne. now apply dict_get_set_other.
  - split; [| split].
    + intros now' H. unfold decay_factor. cbn [is_infrastructure last_seen].
      destruct flag; [reflexivity |].
      change (inject_Z DECAY_START_AFTER) with 300.
      destruct (Qle_bool 300 (now' - now)) eqn:F; [| reflexivity].
      apply Qle_bool_iff in F. lra.
    + eexists. split; [reflexivity |]. split; reflexivity.
    + intros other Hne. now apply dict_get_set_other.
Qed.

Lemma update_node_effect_witness :
  let known :=
    update_node 1000 NodeDecayManager.init "peer-b" false in
  let after := update_node 2000 known "peer-b" true in
  get_decay_factor 2299 after "peer-b" = 1
  /\ dict_get (_nodes after) "peer-c" = dict_get (_nodes known) "peer-c".
Proof.
  intros known after.
  destruct (update_node_effect 2000 known "peer-b" true) as (H1 & _ & H3).
  split.
  - apply H1. vm_compute. reflexivity.
  - apply H3. discriminate.
Defined.

(** X4.  [get_visible_nodes] reads the clock twice for a node, in
    [should_remove] and then in [decay_factor].  It returns, in the
    order of the table, the nodes that the table holds afterwards: a
    node is dropped exactly when it is due for removal at the first
    reading.  The factor listed for a node is the one at the second
    reading and lies between 0 and 1, while the factor at the first
    reading is above 0; when the second reading is not earlier than
    the first, the factor listed is at most the factor at the first
    reading. *)
Theorem get_visible_nodes_partition
        (clock : readings) (self : NodeDecayManager.t) :
  keys_once (_nodes self) ->
  let after := fst (get_visible_nodes clock self) in
  let visible := snd (get_visible_nodes clock self) in
  map fst visible = map fst (_nodes after)
  /\ Forall (fun kf =>
               let first := fst (clock (fst kf)) in
               let second := snd (clock (fst kf)) in
               get_decay_factor second self (fst kf) = snd kf
               /\ 0 <= snd kf /\ snd kf <= 1
               /\ 0 < get_decay_factor first self (fst kf)
               /\ (first <= second ->
                   snd kf <= get_decay_factor first self (fst kf)))
            visible
  /\ (forall peer_id,
         dict_get (_nodes after) peer_id
         = match dict_get (_nodes self) peer_id with
           | Some node =>
               if should_remove (fst (clock peer_id)) node
               then None else Some node
           | None => None
           end).
Proof.
  intros Hk after visible. subst after visible.
  rewrite get_visible_nodes_filter by exact Hk. cbn [fst snd _nodes].
  split; [| split].
  - rewrite map_map. reflexivity.
  - apply Forall_forall. intros [k f] Hin.
    apply in_map_iff in Hin as ([k' node] & [= <- <-] & Hin).
    apply filter_In in Hin as [Hin Hlive]. cbn [fst snd] in *.
    apply negb_true_iff in Hlive. unfold should_remove in Hlive.
    assert (~ decay_factor (fst (clock k')) node <= 0)
      by (intros H; apply Qle_bool_iff in H; congruence).
    pose proof (decay_bounds (snd (clock k')) node) as [Hlb Hub].
    unfold get_decay_factor. rewrite (In_dict_get _ _ _ Hk Hin).
    split; [reflexivity |]. split; [exact Hlb |]. split; [exact Hub |].
    split; [lra |]. intros Hle. now apply decay_later.
  - intros peer_id. rewrite dict_get_filter by exact Hk.
    destruct (dict_get (_nodes self) peer_id) as [node|]; [| reflexivity].
    cbn [fst snd]. now destruct (should_remove (fst (clock peer_id)) node).
Qed.

Lemma get_visible_nodes_partition_witness :
  let self :=
    update_node 4000
      (update_node 1100 (update_node 1000 NodeDecayManager.init "old" false)
                   "fading" false)
      "new" false in
  let clock : readings := fun _ => (4999, 5000) in
  map fst (snd (get_visible_nodes clock self)) = ["fading"; "new"]
  /\ In ("fading", 0) (snd (get_visible_nodes clock self))
  /\ dict_get (_nodes (fst (get_visible_nodes clock self))) "old" = None.
Proof.
  intros self clock.
  destruct (get_visible_nodes_partition clock self) as (H1 & _ & H3).
  - vm_compute. repeat constructor; simpl; intuition discriminate.
  - split; [rewrite H1; vm_compute; reflexivity |].
    split; [vm_compute; now left |]. rewrite H3. reflexivity.
Defined.

Lemma step_keys_once self c :
  keys_once (_nodes self) -> keys_once (_nodes (step self c)).
Proof.
  intros Hk. destruct c as [now p flag | p | clock]; cbn [step].
  - unfold update_node.
    destruct (dict_get (_nodes self) p); cbn [_nodes];
      now apply dict_set_keys_once.
  - unfold mark_infrastructure.
    destruct (dict_get (_nodes self) p); cbn [_nodes];
      [now apply dict_set_keys_once | exact Hk].
  - rewrite get_visible_nodes_filter by exact Hk. cbn [fst _nodes].
    now apply filter_keys_once.
Qed.

Lemma step_keeps_infrastructure self c peer_id node :
  keys_once (_nodes self) ->
  dict_get (_nodes self) peer_id = Some node ->
  is_infrastructure node = true ->
  exists node',
    dict_get (_nodes (step self c)) peer_id = Some node'
    /\ is_infrastructure node' = true.
Proof.
  intros Hk Hget Hinf. destruct c as [now p flag | p | clock]; cbn [step].
  - unfold update_node.
    destruct (String.eqb p peer_id) eqn:E.
    + apply String.eqb_eq in E. subst p. rewrite Hget. cbn [_nodes].
      rewrite PyFacts.dict_get_set_same. eexists. split; [reflexivity |].
      exact Hinf.
    + apply String.eqb_neq in E.
      destruct (dict_get (_nodes self) p); cbn [_nodes];
        rewrite dict_get_set_other by congruence; now exists node.
  - unfold mark_infrastructure.
    destruct (String.eqb p peer_id) eqn:E.
    + apply String.eqb_eq in E. subst p. rewrite Hget. cbn [_nodes].
      rewrite PyFacts.dict_get_set_same. eexists. split; reflexivity.
    + apply String.eqb_neq in E.
      destruct (dict_get (_nodes self) p); cbn [_nodes];
        [rewrite dict_get_set_other by congruence |]; now exists node.
  - rewrite get_visible_nodes_filter by exact Hk. cbn [fst _nodes].
    rewrite dict_get_filter by exact Hk. rewrite Hget. cbn [fst snd].
    unfold should_remove, decay_factor. rewrite Hinf.
    exists node. split; [reflexivity | exact Hinf].
Qed.

(** X5.  A node that is marked as infrastructure stays: through any
    sequence of later [update_node], [mark_infrastructure] and
    [get_visible_nodes] calls, at whatever clock readings, the table
    keeps the node, its flag stays set and its factor is 1. *)
Theorem infrastructure_stays
        (self : NodeDecayManager.t) (peer_id : string) (node : NodeDecay.t)
        (calls : list call) (now : Q) :
  keys_once (_nodes self) ->
  dict_get (_nodes self) peer_id = Some node ->
  let final := run calls (mark_infrastructure self peer_id) in
  (exists node',
      dict_get (_nodes final) peer_id = Some node'
      /\ is_infrastructure node' = true)
  /\ get_decay_factor now final peer_id = 1.
Proof.
  intros Hk Hget final.
  assert (G : forall calls s n,
             keys_once (_nodes s) ->
             dict_get (_nodes s) peer_id = Some n ->
             is_infrastructure n = true ->
             exists n', dict_get (_nodes (run calls s)) peer_id = Some n'
                        /\ is_infrastructure n' = true).
  { clear. induction calls as [|c calls IH]; intros s n Hk Hget Hinf.
    - now exists n.
    - cbn [run fold_left].
      destruct (step_keeps_infrastructure s c peer_id n Hk Hget Hinf)
        as (n1 & Hget1 & Hinf1).
      exact (IH (step s c) n1 (step_keys_once s c Hk) Hget1 Hinf1). }
  assert (Hmark : exists n0,
             dict_get (_nodes (mark_infrastructure self peer_id)) peer_id
             = Some n0
             /\ is_infrastructure n0 = true).
  { unfold mark_infrastructure. rewrite Hget. cbn [_nodes].
    rewrite PyFacts.dict_get_set_same. eexists. split; reflexivity. }
  destruct Hmark as (n0 & Hget0 & Hinf0).
  destruct (G calls (mark_infrastructure self peer_id) n0
              (step_keys_once self (Mark peer_id) Hk) Hget0 Hinf0)
    as (n1 & Hget1 & Hinf1).
  subst final. split; [now exists n1 |].
  unfold get_decay_factor. rewrite Hget1.
  unfold decay_factor. now rewrite Hinf1.
Qed.

Lemma infrastructure_stays_witness :
  let self := update_node 1000 NodeDecayManager.init "ixp" false in
  get_decay_factor 900000
    (run [Visible (fun _ => (50000, 50001)); Update 60000 "ixp" false;
          Visible (fun _ => (800000, 800001))]
         (mark_infrastructure self "ixp"))
    "ixp"
  = 1.
Proof.
  intros self.
  apply (infrastructure_stays self "ixp"
           {| NodeDecay.peer_id := "ixp"; last_seen := 1000;
              decay_start := None; is_infrastructure := false |}
           [Visible (fun _ => (50000, 50001)); Update 60000 "ixp" false;
            Visible (fun _ => (800000, 800001))]
           900000).
  - vm_compute. repeat constructor; simpl; intuition discriminate.
  - reflexivity.
Defined.

End DecayFacts.

(** * The router, further *)

Module RouterMoreFacts.
Import Py DHTRouter Spec RouterFacts.

Lemma ascending_split {A : Type} (key : A -> Z) (a b : list A) :
  ascending key (a ++ b) ->
  forall x y, In x a -> In y b -> (key x <= key y)%Z.
Proof.
  unfold ascending. induction a as [|h a IH]; simpl; intros Hs x y Hx Hy;
    [contradiction |].
  apply StronglySorted_inv in Hs as [Hs Hh].
  destruct Hx as [<- | Hx].
  - rewrite Forall_forall in Hh. apply Hh, in_or_app. now right.
  - now apply (IH Hs).
Qed.

(** X6.  For a replication count that is not negative,
    [get_responsible_nodes] returns as many peers as the count asks
    for, or all of them if there are fewer, and they are the closest:
    the peers split into the ones returned and the rest, and no peer of
    the rest is closer to the shard key than a peer returned. *)
Theorem responsible_nodes_are_closest
        (self : t) (shard_key : string) (all_peers : list (string * string))
        (replication : Z) :
  (0 <= replication)%Z ->
  let chosen := get_responsible_nodes self shard_key all_peers replication in
  let distance := peer_distance (SHA256.digest_int shard_key) in
  List.length chosen = Nat.min (Z.to_nat replication) (List.length all_peers)
  /\ exists rest,
      Permutation all_peers (chosen ++ rest)
      /\ forall p q, In p chosen -> In q rest ->
                     (distance p <= distance q)%Z.
Proof.
  intros Hr chosen distance. subst chosen distance.
  unfold get_responsible_nodes.
  destruct all_peers as [|p0 r0] eqn:E.
  - split; [now rewrite Nat.min_0_r |].
    exists []. split; [constructor | contradiction].
  - rewrite <- E. clear E p0 r0.
    set (key := peer_distance (SHA256.digest_int shard_key)).
    unfold slice_to. apply Z.leb_le in Hr. rewrite Hr.
    split.
    + rewrite length_firstn.
      now rewrite (Permutation_length (sorted_perm key all_peers)).
    + exists (skipn (Z.to_nat replication) (sorted key all_peers)).
      rewrite firstn_skipn. split.
      * apply Permutation_sym, sorted_perm.
      * apply ascending_split. rewrite firstn_skipn. apply sorted_ascending.
Qed.

Lemma responsible_nodes_are_closest_witness :
  let peers := [("a", "10.0.0.1"); ("b", "10.0.0.2"); ("c", "10.0.0.3")] in
  List.length (get_responsible_nodes (init "node-a") "gcp:traceroute" peers 2)
  = 2%nat.
Proof.
  intros peers.
  apply (responsible_nodes_are_closest (init "node-a") "gcp:traceroute"
           peers 2).
  lia.
Defined.

(** X7.  A node that stores a shard at some replication count stores
    it at every higher count; and, for a count that is not negative, a
    node that stores a shard in a swarm stores it in every smaller
    swarm. *)
Theorem should_store_monotone
        (self : t) (shard_key : string)
        (total_nodes total_nodes' replication replication' : Z) :
  (replication <= replication')%Z ->
  (total_nodes' <= total_nodes)%Z ->
  (0 <= replication)%Z \/ total_nodes' = total_nodes ->
  should_store self shard_key total_nodes replication = true ->
  should_store self shard_key total_nodes' replication' = true.
Proof.
  intros Hr Ht Hsign. unfold should_store.
  destruct (total_nodes' <=? replication')%Z eqn:E'; [reflexivity |].
  apply Z.leb_gt in E'.
  destruct (total_nodes <=? replication)%Z eqn:E.
  - apply Z.leb_le in E. lia.
  - apply Z.leb_gt in E. intros H. apply Z.ltb_lt in H. apply Z.ltb_lt.
    eapply Z.lt_le_trans; [exact H |].
    set (P := (2 ^ 256)%Z). assert (HP : (0 < P)%Z) by (subst P; lia).
    destruct Hsign as [Hs | ->].
    + eapply Z.le_trans.
      * apply (Z.div_le_compat_l (P * replication) (Z.max total_nodes' 1)
                                 (Z.max total_nodes 1)); nia.
      * apply Z.div_le_mono; nia.
    + apply Z.div_le_mono; nia.
Qed.

Lemma should_store_monotone_witness :
  should_store (init "node-a") "abc:mobile_trace" 10 3 = true
  /\ should_store (init "node-a") "abc:mobile_trace" 8 4 = true.
Proof.
  assert (H : should_store (init "node-a") "abc:mobile_trace" 10 3 = true)
    by (vm_compute; reflexivity).
  split; [exact H |].
  apply (should_store_monotone (init "node-a") "abc:mobile_trace" 10 8 3 4);
    [lia | lia | left; lia | exact H].
Defined.

End RouterMoreFacts.

(** * The storage, further *)

Module StorageFacts.
Import Py Sharding Spec DecaySpec StorageSpec DictFacts.

(** ** Store and get *)

(** X8.  What [store] accepted, [get] finds under its id: a
    permanent or infrastructure item at every clock reading, a
    transient item as long as it is not expired and the permanent cache
    has no item of that id. *)
Theorem store_then_get (now : Q) (self : ShardedStorage) (data : ShardedData) :
  snd (store self data) = true ->
  is_permanent data || is_infrastructure_type (data_type data) = true
  \/ (dict_get (_infrastructure_cache self) (data_id data) = None
      /\ is_expired now data = false) ->
  snd (get now (fst (store self data)) (data_id data)) = Some data.
Proof.
  unfold store.
  destruct (is_permanent data || is_infrastructure_type (data_type data))
           eqn:Hp.
  - intros _ _. cbn [fst]. unfold get. cbn.
    now rewrite PyFacts.dict_get_set_same.
  - destruct (DHTRouter.should_store _ _ _ _); [| discriminate].
    intros _ [H | [Hnone Hlive]]; [discriminate |].
    cbn [fst]. unfold get.
    destruct (_on_data_received _); cbn;
      rewrite Hnone, PyFacts.dict_get_set_same, Hlive; reflexivity.
Qed.

Lemma store_then_get_witness :
  snd (get 5000 (fst (store Fixtures.storage_with_peer Fixtures.tower))
           "tower-1")
  = Some Fixtures.tower.
Proof.
  apply (store_then_get 5000 Fixtures.storage_with_peer Fixtures.tower).
  - reflexivity.
  - left. reflexivity.
Defined.

(** X9.  [get] never hands out an expired item of the
    transient cache: what it returns is in the permanent cache, or is
    in the transient cache and not expired.  When it returns nothing,
    the id is in neither cache afterwards: an expired entry found on the
    way is deleted.  No other entry of either cache changes. *)
Theorem get_returns_live (now : Q) (self : ShardedStorage) (id : string) :
  keys_once (_local_data self) ->
  let after := fst (get now self id) in
  match snd (get now self id) with
  | Some d =>
      dict_get (_infrastructure_cache self) id = Some d
      \/ (dict_get (_local_data self) id = Some d /\ is_expired now d = false)
  | None =>
      dict_get (_infrastructure_cache after) id = None
      /\ dict_get (_local_data after) id = None
  end
  /\ _infrastructure_cache after = _infrastructure_cache self
  /\ (forall other, other <> id ->
                    dict_get (_local_data after) other
                    = dict_get (_local_data self) other).
Proof.
  intros Hk after. subst after. unfold get.
  destruct (dict_get (_infrastructure_cache self) id) as [d|] eqn:Hi;
    cbn [fst snd].
  - split; [now left |]. split; reflexivity.
  - destruct (dict_get (_local_data self) id) as [d|] eqn:Hl; cbn [fst snd].
    + destruct (is_expired now d) eqn:He; cbn [negb fst snd].
      * cbn [with_local _infrastructure_cache _local_data].
        split; [| split; [reflexivity |]].
        -- split; [exact Hi |].
           rewrite dict_del_filter, dict_get_filter by exact Hk.
           rewrite Hl. cbn [fst]. now rewrite String.eqb_refl.
        -- intros other Hne.
           rewrite dict_del_filter, dict_get_filter by exact Hk.
           destruct (dict_get (_local_data self) other); [| reflexivity].
           cbn [fst].
           destruct (String.eqb id other) eqn:E; [| reflexivity].
           apply String.eqb_eq in E. congruence.
      * split; [right; now split |]. split; reflexivity.
    + split; [now split |]. split; reflexivity.
Qed.

Lemma get_returns_live_witness :
  let self := fst (store (Sharding.init "node-a" false) Fixtures.stray) in
  snd (get 90000 self "stray-1") = None
  /\ dict_get (_local_data (fst (get 90000 self "stray-1"))) "stray-1" = None.
Proof.
  intros self.
  destruct (get_returns_live 90000 self "stray-1") as (H & _ & _).
  - vm_compute. repeat constructor; simpl; intuition discriminate.
  - assert (E : snd (get 90000 self "stray-1") = None)
      by (vm_compute; reflexivity).
    rewrite E in H. split; [reflexivity | apply H].
Defined.

(** ** Clean-up *)

(** X10.  [cleanup_expired] leaves in the transient cache the
    entries that are not expired, in their order, and nothing else; the
    count it returns is the number of entries that went; and the
    [local_items] counter is the size of the cache afterwards. *)
Theorem cleanup_expired_leaves_live (now : Q) (self : ShardedStorage) :
  keys_once (_local_data self) ->
  let after := fst (cleanup_expired now self) in
  _local_data after
  = filter (fun kv => negb (is_expired now (snd kv))) (_local_data self)
  /\ (snd (cleanup_expired now self) + List.length (_local_data after)
      = List.length (_local_data self))%nat
  /\ local_items (_stats after) = List.length (_local_data after).
Proof.
  intros Hk after. subst after. unfold cleanup_expired. cbn.
  rewrite (dict_del_many (fun kv => is_expired now (snd kv))) by exact Hk.
  split; [reflexivity |]. split; [| reflexivity].
  rewrite length_map.
  apply (filter_split_length (fun kv => is_expired now (snd kv))).
Qed.

Lemma cleanup_expired_leaves_live_witness :
  let self := fst (store (Sharding.init "node-a" false) Fixtures.stray) in
  _local_data (fst (cleanup_expired 90000 self)) = []
  /\ snd (cleanup_expired 90000 self) = 1%nat.
Proof.
  intros self.
  destruct (cleanup_expired_leaves_live 90000 self) as (H1 & H2 & _).
  - vm_compute. repeat constructor; simpl; intuition discriminate.
  - rewrite H1 in H2 |- *. split; [reflexivity |].
    vm_compute in H2 |- *. reflexivity.
Defined.

(** ** The caches stay keyed by id *)

Lemma dict_set_Forall {V : Type} (P : string * V -> Prop) d k v :
  Forall P d -> P (k, v) -> Forall P (dict_set d k v).
Proof.
  intros Hd Hkv. induction d as [|[k0 v0] r IH]; simpl.
  - now constructor.
  - inversion Hd as [|? ? H0 Hr]; subst.
    destruct (String.eqb k k0); constructor; auto.
Qed.

Lemma keyed_set d x : keyed d -> keyed (dict_set d (data_id x) x).
Proof.
  intros [Hk Hf]. split; [now apply dict_set_keys_once |].
  now apply dict_set_Forall.
Qed.

Lemma keyed_filter p d : keyed d -> keyed (filter p d).
Proof.
  intros [Hk Hf]. split; [now apply filter_keys_once |].
  apply Forall_forall. intros kv Hin. apply filter_In in Hin as [Hin _].
  rewrite Forall_forall in Hf. now apply Hf.
Qed.

Lemma keyed_del d k : keyed d -> keyed (dict_del d k).
Proof.
  intros H. rewrite dict_del_filter by apply H. now apply keyed_filter.
Qed.

Lemma store_keyed self data :
  caches_keyed self -> caches_keyed (fst (store self data)).
Proof.
  intros [Hl Hi]. unfold store, caches_keyed.
  destruct (is_permanent data || is_infrastructure_type (data_type data)).
  - cbn. split; [exact Hl | now apply keyed_set].
  - destruct (DHTRouter.should_store _ _ _ _); [| now split].
    destruct (_on_data_received _); cbn;
      (split; [now apply keyed_set | exact Hi]).
Qed.

Lemma scan_local_keyed now geohash_prefix data_type l :
  forall local results,
    keyed local ->
    keyed (fst (fold_left (scan_local now geohash_prefix data_type) l
                          (local, results))).
Proof.
  induction l as [|d l IH]; intros local results H; simpl; [exact H |].
  destruct (is_expired now d); [apply IH; now apply keyed_del |].
  destruct (startswith (geohash d) geohash_prefix && type_matches data_type d);
    now apply IH.
Qed.

Lemma merge_fetched_keyed fetched :
  forall self results,
    caches_keyed self ->
    caches_keyed (fst (fold_left merge_fetched fetched (self, results))).
Proof.
  induction fetched as [|d l IH]; intros self results H; simpl; [exact H |].
  destruct (negb (has_id results (data_id d))); apply IH;
    [now apply store_keyed | exact H].
Qed.

(** X11.  Each of the two caches holds every item under its own
    id, once; [store], [get], [cleanup_expired] and [get_by_geohash],
    whatever the peers answer, keep it so. *)
Theorem caches_stay_keyed
        (now : Q) (net : network) (self : ShardedStorage)
        (data : ShardedData) (id geohash_prefix : string)
        (data_type : option DataType) :
  caches_keyed self ->
  caches_keyed (fst (store self data))
  /\ caches_keyed (fst (get now self id))
  /\ caches_keyed (fst (cleanup_expired now self))
  /\ caches_keyed (fst (get_by_geohash now net self geohash_prefix data_type)).
Proof.
  intros H. split; [now apply store_keyed |]. split; [| split].
  - destruct H as [Hl Hi]. unfold get, caches_keyed.
    destruct (dict_get (_infrastructure_cache self) id); [now split |].
    destruct (dict_get (_local_data self) id) as [d|]; [| now split].
    destruct (is_expired now d); cbn; [| now split].
    split; [now apply keyed_del | exact Hi].
  - destruct H as [Hl Hi]. unfold cleanup_expired, caches_keyed. cbn.
    split; [| exact Hi].
    rewrite (dict_del_many (fun kv => is_expired now (snd kv))) by apply Hl.
    now apply keyed_filter.
  - destruct H as [Hl Hi]. unfold get_by_geohash.
    pose proof (scan_local_keyed now geohash_prefix data_type
                  (dict_values (_local_data self)) (_local_data self) [] Hl)
      as Hl'.
    destruct (fold_left (scan_local now geohash_prefix data_type)
                        (dict_values (_local_data self)) (_local_data self, []))
      as [local results]. cbn [fst] in Hl'.
    match goal with
    | |- context [if ?c then _ else _] => destruct c
    end.
    + apply merge_fetched_keyed. now split.
    + now split.
Qed.

Lemma caches_stay_keyed_witness :
  caches_keyed (fst (get_by_geohash 2000 Fixtures.stray_network
                       Fixtures.storage_with_peer "gcp" None)).
Proof.
  apply (caches_stay_keyed 2000 Fixtures.stray_network
           Fixtures.storage_with_peer Fixtures.stray "stray-1" "gcp" None).
  split; split; constructor.
Defined.

(** ** Region queries *)

Lemma has_id_false results id :
  has_id results id = false <-> ~ In id (map data_id results).
Proof.
  unfold has_id. rewrite <- not_true_iff_false, existsb_exists. split.
  - intros H Hin. apply H. apply in_map_iff in Hin as (r & <- & Hr).
    exists r. split; [exact Hr | apply String.eqb_refl].
  - intros H (r & Hr & E). apply String.eqb_eq in E. apply H.
    rewrite <- E. now apply in_map.
Qed.

Lemma add_new_distinct results d :
  NoDup (map data_id results) ->
  has_id results (data_id d) = false ->
  NoDup (map data_id (results ++ [d])).
Proof.
  intros Hn Hh. apply has_id_false in Hh. rewrite map_app.
  apply NoDup_app; [exact Hn | repeat constructor; simpl; tauto |].
  intros x Hx [<- | []]. contradiction.
Qed.

Lemma NoDup_map_filter {A B : Type} (f : A -> B) (p : A -> bool) l :
  NoDup (map f l) -> NoDup (map f (filter p l)).
Proof.
  induction l as [|x l IH]; simpl; intros H; [exact H |].
  inversion H as [|? ? Hx Hl]; subst.
  destruct (p x); simpl; [| now apply IH].
  constructor; [| now apply IH].
  intros Hin. apply Hx. apply in_map_iff in Hin as (y & Hy & Hin).
  apply filter_In in Hin as [Hin _]. rewrite <- Hy. now apply in_map.
Qed.

Lemma keyed_ids d : keyed d -> map data_id (dict_values d) = map fst d.
Proof.
  intros [_ Hf]. unfold dict_values. rewrite map_map.
  induction d as [|kv d IH]; [reflexivity |].
  inversion Hf as [|? ? H0 Hr]; subst. cbn [map]. now rewrite <- H0, IH.
Qed.

(** The list that the scan of the transient cache builds. *)
Lemma scan_local_results now geohash_prefix data_type l :
  forall local results,
    snd (fold_left (scan_local now geohash_prefix data_type) l
                   (local, results))
    = (results
       ++ filter (fun d => negb (is_expired now d)
                           && matches geohash_prefix data_type d) l)%list.
Proof.
  induction l as [|d l IH]; intros local results; simpl.
  - now rewrite app_nil_r.
  - unfold matches at 1.
    destruct (is_expired now d); cbn [negb andb]; [apply IH |].
    destruct (startswith (geohash d) geohash_prefix && type_matches data_type d);
      rewrite IH; [now rewrite <- app_assoc | reflexivity].
Qed.

Lemma scan_infrastructure_distinct geohash_prefix data_type l :
  forall results,
    NoDup (map data_id results) ->
    NoDup (map data_id
             (fold_left (scan_infrastructure geohash_prefix data_type) l
                        results)).
Proof.
  induction l as [|d l IH]; intros results H; simpl; [exact H |].
  apply IH. unfold scan_infrastructure.
  destruct (startswith (geohash d) geohash_prefix && type_matches data_type d
            && negb (has_id results (data_id d))) eqn:E; [| exact H].
  apply andb_true_iff in E as [_ E]. apply negb_true_iff in E.
  now apply add_new_distinct.
Qed.

Lemma merge_fetched_distinct fetched :
  forall self results,
    NoDup (map data_id results) ->
    NoDup (map data_id (snd (fold_left merge_fetched fetched (self, results)))).
Proof.
  induction fetched as [|d l IH]; intros self results H; simpl; [exact H |].
  destruct (negb (has_id results (data_id d))) eqn:E; apply IH; [| exact H].
  apply negb_true_iff in E. now apply add_new_distinct.
Qed.

(** X12.  With the caches keyed by id, the list that
    [get_by_geohash] returns holds no id twice, whatever the peers
    answer. *)
Theorem get_by_geohash_distinct_ids
        (now : Q) (net : network) (self : ShardedStorage)
        (geohash_prefix : string) (data_type : option DataType) :
  caches_keyed self ->
  NoDup (map data_id
           (snd (get_by_geohash now net self geohash_prefix data_type))).
Proof.
  intros [Hl Hi]. unfold get_by_geohash.
  pose proof (scan_local_results now geohash_prefix data_type
                (dict_values (_local_data self)) (_local_data self) []) as Hr.
  destruct (fold_left (scan_local now geohash_prefix data_type)
                      (dict_values (_local_data self)) (_local_data self, []))
    as [local results]. cbn [snd app] in Hr. subst results.
  assert (H0 : NoDup (map data_id
                        (filter (fun d => negb (is_expired now d)
                                          && matches geohash_prefix data_type d)
                                (dict_values (_local_data self))))).
  { apply NoDup_map_filter. rewrite keyed_ids by exact Hl. apply Hl. }
  pose proof (scan_infrastructure_distinct geohash_prefix data_type
                (dict_values (_infrastructure_cache (with_local self local)))
                _ H0) as H1.
  match goal with
  | |- context [if ?c then _ else _] => destruct c
  end; [| exact H1].
  now apply merge_fetched_distinct.
Qed.

Lemma get_by_geohash_distinct_ids_witness :
  NoDup (map data_id
           (snd (get_by_geohash 2000 Fixtures.stray_network
                   Fixtures.storage_with_peer "gcp" None))).
Proof.
  apply (get_by_geohash_distinct_ids 2000 Fixtures.stray_network
           Fixtures.storage_with_peer "gcp" None).
  split; split; constructor.
Defined.

Lemma has_id_app results d id :
  has_id (results ++ [d]) id = has_id results id || String.eqb (data_id d) id.
Proof.
  unfold has_id. rewrite existsb_app. cbn [existsb]. now rewrite orb_false_r.
Qed.

Lemma scan_infrastructure_members geohash_prefix data_type l :
  forall results,
    NoDup (map data_id l) ->
    forall d,
      In d (fold_left (scan_infrastructure geohash_prefix data_type) l results)
      <-> In d results
          \/ (In d l /\ matches geohash_prefix data_type d = true
              /\ has_id results (data_id d) = false).
Proof.
  induction l as [|x l IH]; intros results Hn d; simpl.
  - tauto.
  - inversion Hn as [|? ? Hx Hl]; subst.
    rewrite (IH _ Hl). unfold scan_infrastructure. fold (matches geohash_prefix data_type x).
    destruct (matches geohash_prefix data_type x
              && negb (has_id results (data_id x))) eqn:E.
    + apply andb_true_iff in E as [Em Eh]. apply negb_true_iff in Eh.
      rewrite in_app_iff. cbn [In]. split.
      * intros [[H | [<- | []]] | (Hin & Hm & Hh)].
        -- now left.
        -- right. split; [now left | now split].
        -- right. split; [now right |]. split; [exact Hm |].
           rewrite has_id_app in Hh. now apply orb_false_iff in Hh.
      * intros [H | ([<- | Hin] & Hm & Hh)].
        -- left. now left.
        -- left. right. now left.
        -- right. split; [exact Hin |]. split; [exact Hm |].
           rewrite has_id_app, Hh. cbn [orb].
           apply String.eqb_neq. intros Heq. apply Hx. rewrite Heq.
           now apply in_map.
    + split.
      * intros [H | (Hin & Hm & Hh)]; [now left |].
        right. split; [now right | now split].
      * intros [H | ([<- | Hin] & Hm & Hh)]; [now left | |].
        -- rewrite Hm, Hh in E. discriminate.
        -- right. now split.
Qed.

(** X13.  A storage that knows no peer answers a region query
    from its caches alone: the list returned holds exactly the items of
    the transient cache that are not expired and pass the filters, and
    the items of the permanent cache that pass the filters and whose id
    no such transient item carries. *)
Theorem get_by_geohash_local_answer
        (now : Q) (net : network) (self : ShardedStorage)
        (geohash_prefix : string) (data_type : option DataType)
        (d : ShardedData) :
  _peer_addresses self = [] ->
  caches_keyed self ->
  let live d := is_expired now d = false
                /\ matches geohash_prefix data_type d = true in
  In d (snd (get_by_geohash now net self geohash_prefix data_type))
  <-> (In d (dict_values (_local_data self)) /\ live d)
      \/ (In d (dict_values (_infrastructure_cache self))
          /\ matches geohash_prefix data_type d = true
          /\ ~ exists d', In d' (dict_values (_local_data self))
                          /\ live d' /\ data_id d' = data_id d).
Proof.
  intros Hp [Hl Hi] live. unfold get_by_geohash.
  pose proof (scan_local_results now geohash_prefix data_type
                (dict_values (_local_data self)) (_local_data self) []) as Hr.
  destruct (fold_left (scan_local now geohash_prefix data_type)
                      (dict_values (_local_data self)) (_local_data self, []))
    as [local results]. cbn [snd app] in Hr. subst results.
  cbv zeta.
  cbn [_peer_addresses with_stats with_viewed with_local _infrastructure_cache].
  rewrite Hp, andb_false_r. cbn [snd].
  rewrite scan_infrastructure_members
    by (rewrite keyed_ids by exact Hi; apply Hi).
  rewrite filter_In, has_id_false. subst live. cbv beta.
  rewrite andb_true_iff, negb_true_iff.
  assert (E : In (data_id d)
                 (map data_id
                      (filter (fun d0 => negb (is_expired now d0)
                                         && matches geohash_prefix data_type d0)
                              (dict_values (_local_data self))))
              <-> exists d', In d' (dict_values (_local_data self))
                             /\ (is_expired now d' = false
                                 /\ matches geohash_prefix data_type d' = true)
                             /\ data_id d' = data_id d).
  { rewrite in_map_iff. split.
    - intros (d' & Hid & Hin). apply filter_In in Hin as [Hin Hq].
      apply andb_true_iff in Hq as [Hq1 Hq2]. apply negb_true_iff in Hq1.
      exists d'. tauto.
    - intros (d' & Hin & [Hq1 Hq2] & Hid). exists d'. split; [exact Hid |].
      apply filter_In. split; [exact Hin |].
      now rewrite Hq1, Hq2. }
  rewrite E. tauto.
Qed.

Lemma get_by_geohash_local_answer_witness :
  let self := fst (store (Sharding.init "node-a" false) Fixtures.tower) in
  In Fixtures.tower (snd (get_by_geohash 5000 Fixtures.silent_network self
                            "gcp" (Some CELL_TOWER))).
Proof.
  intros self.
  apply (get_by_geohash_local_answer 5000 Fixtures.silent_network self "gcp"
           (Some CELL_TOWER) Fixtures.tower).
  - reflexivity.
  - vm_compute. repeat split; repeat constructor; simpl; intuition discriminate.
  - right. split; [left; reflexivity |]. split; [reflexivity |].
    intros (d' & [] & _).
Defined.

(** ** Replication *)

Import Replication.

Lemma store_keeps_identity self data :
  _peer_addresses (fst (store self data)) = _peer_addresses self
  /\ _router (fst (store self data)) = _router self
  /\ _peer_id (fst (store self data)) = _peer_id self.
Proof.
  unfold store.
  destruct (is_permanent data || is_infrastructure_type (data_type data));
    [now cbn |].
  destruct (DHTRouter.should_store _ _ _ _); [| now cbn].
  destruct (_on_data_received _); now cbn.
Qed.

Lemma responsible_length self shard_key all_peers replication :
  (0 <= replication)%Z ->
  (Z.of_nat (List.length (DHTRouter.get_responsible_nodes
                            self shard_key all_peers replication))
   <= replication)%Z.
Proof.
  intros Hr. unfold DHTRouter.get_responsible_nodes.
  destruct all_peers; [simpl; lia |].
  unfold slice_to. apply Z.leb_le in Hr. rewrite Hr.
  apply PyFacts.firstn_length_le_Z. now apply Z.leb_le.
Qed.

Lemma replicate_self post self_id data acc pid addr :
  String.eqb pid self_id = true ->
  replicate post self_id data acc (pid, addr) = acc.
Proof.
  intros E. unfold replicate. destruct acc as [posts count]. now rewrite E.
Qed.

Lemma replicate_other post self_id data posts count pid addr :
  String.eqb pid self_id = false ->
  exists count',
    replicate post self_id data (posts, count) (pid, addr)
    = ((posts ++ [(("http://" ++ addr ++ "/p2p/shard/store")%string, data)])%list,
       count')
    /\ (count <= count' <= count + 1)%Z.
Proof.
  intros E. unfold replicate. rewrite E.
  destruct (post addr data) as [z|];
    [| exists count; split; [reflexivity | lia]].
  repeat match goal with
         | |- context [match ?x with _ => _ end] =>
             destruct x;
             try (exists count; split; [reflexivity | lia]);
             try (exists (count + 1)%Z; split; [reflexivity | lia])
         end.
Qed.

Lemma replicate_fold post self_id data l :
  forall posts count,
  exists sent,
    fst (fold_left (replicate post self_id data) l (posts, count))
    = (posts ++ sent)%list
    /\ (List.length sent <= List.length l)%nat
    /\ Forall (fun p => snd p = data
                        /\ exists pid addr,
                            In (pid, addr) l /\ pid <> self_id
                            /\ fst p = "http://" ++ addr ++ "/p2p/shard/store")
              sent
    /\ (count
        <= snd (fold_left (replicate post self_id data) l (posts, count))
        <= count + Z.of_nat (List.length sent))%Z.
Proof.
  induction l as [|[pid addr] l IH]; intros posts count.
  - exists []. cbn. rewrite app_nil_r. repeat split; try constructor; lia.
  - cbn [fold_left].
    destruct (String.eqb pid self_id) eqn:E.
    + rewrite replicate_self by exact E.
      destruct (IH posts count) as (sent & H1 & H2 & H3 & H4).
      exists sent. split; [exact H1 |]. split; [simpl; lia |].
      split; [| exact H4].
      eapply Forall_impl; [| exact H3].
      intros p (Hd & pid' & addr' & Hin & Hne & Hu).
      split; [exact Hd |]. exists pid', addr'. split; [now right | now split].
    + destruct (replicate_other post self_id data posts count pid addr E)
        as (c & -> & Hc).
      apply String.eqb_neq in E.
      destruct (IH (posts ++ [(("http://" ++ addr ++ "/p2p/shard/store")%string, data)])%list c)
        as (sent & H1 & H2 & H3 & H4).
      exists (("http://" ++ addr ++ "/p2p/shard/store", data) :: sent).
      split; [now rewrite H1, <- app_assoc |].
      split; [simpl; lia |]. split.
      * constructor.
        -- split; [reflexivity |]. exists pid, addr.
           split; [now left | now split].
        -- eapply Forall_impl; [| exact H3].
           intros p (Hd & pid' & addr' & Hin & Hne & Hu).
           split; [exact Hd |]. exists pid', addr'.
           split; [now right | now split].
      * cbn [List.length]. lia.
Qed.

(** X14.  [store_and_replicate] changes the storage as
    [store] does.  For a replication factor that is not negative it
    posts to at most that many peers; each request carries the item to
    the address of a known peer whose id is not the node's own; and the
    count returned is what [store] contributed plus at most one for each
    request made. *)
Theorem store_and_replicate_bounds
        (post : poster) (self : ShardedStorage) (data : ShardedData) :
  (0 <= replication_factor data)%Z ->
  let result := store_and_replicate post self data in
  let posts := snd (fst result) in
  let stored := if snd (store self data) then 1%Z else 0%Z in
  fst (fst result) = fst (store self data)
  /\ (Z.of_nat (List.length posts) <= replication_factor data)%Z
  /\ Forall (fun p => snd p = data
                      /\ exists pid addr,
                          In (pid, addr) (_peer_addresses self)
                          /\ pid <> _peer_id self
                          /\ fst p = "http://" ++ addr ++ "/p2p/shard/store")
            posts
  /\ (stored <= snd result <= stored + Z.of_nat (List.length posts))%Z.
Proof.
  intros Hr result posts stored. subst result posts stored.
  unfold store_and_replicate.
  destruct (store_keeps_identity self data) as (Ha & Hro & Hid).
  destruct (store self data) as [after flag]. cbn [fst snd] in *.
  rewrite Ha, Hro, Hid.
  pose proof (responsible_length (_router self) (shard_key data)
                (_peer_addresses self) (replication_factor data) Hr) as Hlen.
  pose proof (RouterFacts.get_responsible_nodes_incl
                (_router self) (shard_key data) (_peer_addresses self)
                (replication_factor data)) as Hincl.
  set (responsible := DHTRouter.get_responsible_nodes _ _ _ _) in *.
  destruct (replicate_fold post (_peer_id self) data responsible []
              (if flag then 1%Z else 0%Z)) as (sent & H1 & H2 & H3 & H4).
  destruct responsible as [|p0 r0] eqn:E.
  - cbn. repeat split; try constructor; try lia; destruct flag; lia.
  - rewrite <- E in *. clear E p0 r0.
    destruct (fold_left (replicate post (_peer_id self) data) responsible
                        ([], if flag then 1%Z else 0%Z)) as [posts count].
    cbn [fst snd app] in *. subst posts.
    split; [reflexivity |]. split; [lia |]. split; [| exact H4].
    eapply Forall_impl; [| exact H3].
    intros p (Hd & pid & addr & Hin & Hne & Hu).
    split; [exact Hd |]. exists pid, addr.
    split; [now apply Hincl | now split].
Qed.

Lemma store_and_replicate_bounds_witness :
  let post := fun (_ : string) (_ : ShardedData) => Some 200%Z in
  let result :=
    store_and_replicate post Fixtures.storage_with_peer Fixtures.tower in
  (Z.of_nat (List.length (snd (fst result))) <= 3)%Z
  /\ (1 <= snd result <= 1 + Z.of_nat (List.length (snd (fst result))))%Z.
Proof.
  intros post result.
  destruct (store_and_replicate_bounds post Fixtures.storage_with_peer
              Fixtures.tower) as (_ & H2 & _ & H4).
  - vm_compute. discriminate.
  - split; [exact H2 | exact H4].
Defined.

End StorageFacts.

(** * Geohash cells, further *)

Module GeohashMoreFacts.
Import Py Geohash Spec GeohashSpec StringFacts GeohashFacts.

Lemma prefix_append a b : String.prefix a (a ++ b) = true.
Proof.
  induction a as [|x a IH]; simpl; [now destruct b |].
  destruct (ascii_dec x x); [exact IH | congruence].
Qed.

Lemma take_append a b : take (String.length a) (a ++ b) = a.
Proof. apply BencodeFacts.substring_prefix. Qed.

(** The text grows by one character with each block of the loop. *)
Lemma blocks_extend lat lon n k :
  exists suffix,
    geohash (Nat.iter (n + k) (block lat lon) encode_init)
    = geohash (Nat.iter n (block lat lon) encode_init) ++ suffix.
Proof.
  induction k as [|k (suffix & IH)].
  - exists "". now rewrite Nat.add_0_r, append_nil_r.
  - replace (n + S k)%nat with (S (n + k)) by lia.
    rewrite Nat.iter_succ.
    destruct (blocks_spec lat lon (n + k)) as (Hc & Hb & _).
    destruct (block_spec lat lon _ Hc Hb) as (_ & _ & _ & ch & Hg & _).
    exists (suffix ++ String ch ""). now rewrite Hg, IH, append_assoc.
Qed.

Lemma take_encode lat lon p q :
  (0 <= p <= q)%Z ->
  exists suffix,
    encode_geohash lat lon q = encode_geohash lat lon p ++ suffix
    /\ String.length (encode_geohash lat lon p) = Z.to_nat p.
Proof.
  intros Hpq. rewrite !encode_geohash_final. unfold final.
  replace (Z.to_nat q) with (Z.to_nat p + (Z.to_nat q - Z.to_nat p))%nat by lia.
  destruct (blocks_extend lat lon (Z.to_nat p) (Z.to_nat q - Z.to_nat p))
    as (suffix & ->).
  destruct (blocks_spec lat lon (Z.to_nat p)) as (_ & _ & Hlen & _).
  exists suffix. now split.
Qed.

(** X15.  The geohash of a point at a precision is the start of
    its geohash at every higher precision. *)
Theorem encode_geohash_prefix (lat lon : Q) (p q : Z) :
  (0 <= p <= q)%Z ->
  encode_geohash lat lon p = take (Z.to_nat p) (encode_geohash lat lon q)
  /\ startswith (encode_geohash lat lon q) (encode_geohash lat lon p) = true.
Proof.
  intros Hpq. destruct (take_encode lat lon p q Hpq) as (suffix & -> & Hlen).
  split.
  - rewrite <- Hlen. now rewrite take_append.
  - apply prefix_append.
Qed.

Lemma encode_geohash_prefix_witness :
  encode_geohash 51.5074 (-0.1278) 3
  = take 3 (encode_geohash 51.5074 (-0.1278) 5)
  /\ startswith (encode_geohash 51.5074 (-0.1278) 5)
                (encode_geohash 51.5074 (-0.1278) 3) = true.
Proof.
  apply (encode_geohash_prefix 51.5074 (-0.1278) 3 5). lia.
Defined.

End GeohashMoreFacts.

(** * Shard responsibility *)

Module ResponsibilityFacts.
Import Py Sharding ShardResponsibility DictFacts DecaySpec.

Lemma add_neighbor_keeps shards neighbor k v :
  dict_get shards k = Some v ->
  dict_get (add_neighbor shards neighbor) k = Some v.
Proof.
  intros H. unfold add_neighbor, dict_mem.
  destruct (dict_get shards neighbor) eqn:E; [exact H |].
  rewrite dict_get_set_other; [exact H |].
  intros ->. congruence.
Qed.

Lemma add_neighbors_keep l :
  forall shards k v,
    dict_get shards k = Some v ->
    dict_get (fold_left add_neighbor l shards) k = Some v.
Proof.
  induction l as [|n l IH]; intros shards k v H; simpl; [exact H |].
  apply IH. now apply add_neighbor_keeps.
Qed.

Lemma dict_set_length {V : Type} (d : dict V) k v :
  (List.length d <= List.length (dict_set d k v) <= S (List.length d))%nat.
Proof.
  induction d as [|[k0 v0] r IH]; simpl; [lia |].
  destruct (String.eqb k k0); simpl; lia.
Qed.

Lemma add_neighbors_length l :
  forall shards,
    (List.length (fold_left add_neighbor l shards)
     <= List.length shards + List.length l)%nat.
Proof.
  induction l as [|n l IH]; intros shards; simpl; [lia |].
  eapply Nat.le_trans; [apply IH |].
  unfold add_neighbor. destruct (dict_mem shards n); [lia |].
  pose proof (dict_set_length shards n
                {| geohash_prefix := n;
                   data_types := [INFRASTRUCTURE; CELL_TOWER];
                   peer_count := 0; last_sync := 0 |}). lia.
Qed.

(** X16.  [set_my_location] does not raise.  Afterwards the
    node's geohash is the cell of the point at precision 5; the region of
    the point, its cell at precision 3, is entered with all five data
    types; every region entered before is still entered, with its entry
    as it was unless it is the region of the point; at most nine entries
    are new; and the counter is the number of entries. *)
Theorem set_my_location_responsibility (lat lon : Q) (self : location) :
  let result := set_my_location lat lon self in
  let after := fst result in
  let region := Geohash.encode_geohash lat lon 3 in
  snd result = Returned tt
  /\ _my_geohash after = Geohash.encode_geohash lat lon 5
  /\ dict_get (_my_shards after) region
     = Some {| geohash_prefix := region;
               data_types := all_data_types;
               peer_count := 0;
               last_sync := 0 |}
  /\ (forall k v, k <> region ->
                  dict_get (_my_shards self) k = Some v ->
                  dict_get (_my_shards after) k = Some v)
  /\ (List.length (_my_shards after) <= List.length (_my_shards self) + 9)%nat
  /\ shards_responsible after = List.length (_my_shards after).
Proof.
  intros result after region. subst result after region.
  unfold set_my_location, _update_shard_responsibility.
  cbn [_my_geohash _my_shards shards_responsible].
  destruct (GeohashMoreFacts.take_encode lat lon 3 5 ltac:(lia))
    as (suffix & E5 & Hlen3).
  assert (Hlen5 : String.length (Geohash.encode_geohash lat lon 5) = 5%nat)
    by apply GeohashFacts.encode_geohash_length.
  change GEOHASH_PRECISION_LOCAL with 5%Z.
  destruct (String.eqb (Geohash.encode_geohash lat lon 5) "") eqn:Hempty.
  { apply String.eqb_eq in Hempty. rewrite Hempty in Hlen5. discriminate. }
  assert (Htake : take GEOHASH_PRECISION_REGION (Geohash.encode_geohash lat lon 5)
                  = Geohash.encode_geohash lat lon 3).
  { rewrite E5. change GEOHASH_PRECISION_REGION with (Z.to_nat 3).
    rewrite <- Hlen3. apply GeohashMoreFacts.take_append. }
  rewrite Htake.
  pose proof (GeohashFacts.decode_encode lat lon 3) as Hd.
  pose proof (GeohashFacts.neighbors_list lat lon 3 _ _ ltac:(lia) Hd) as Hn.
  cbv zeta in Hn. rewrite Hn. cbn [fst snd _my_geohash _my_shards shards_responsible].
  set (region := Geohash.encode_geohash lat lon 3).
  set (entry := {| geohash_prefix := region; data_types := all_data_types;
                   peer_count := 0; last_sync := 0 |}).
  split; [reflexivity |]. split; [reflexivity |]. split; [| split; [| split]].
  - apply add_neighbors_keep. apply PyFacts.dict_get_set_same.
  - intros k v Hk Hget. apply add_neighbors_keep.
    now rewrite dict_get_set_other.
  - eapply Nat.le_trans; [apply add_neighbors_length |].
    pose proof (dict_set_length (_my_shards self) region entry).
    cbn [List.length]. lia.
  - reflexivity.
Qed.

Lemma set_my_location_responsibility_witness :
  let old := {| geohash_prefix := "u10"; data_types := [CELL_TOWER];
                peer_count := 2; last_sync := 7 |} in
  let self := {| _my_geohash := "";
                 _my_shards := [("u10", old)];
                 shards_responsible := 1 |} in
  dict_get (_my_shards (fst (set_my_location 51.5074 (-0.1278) self))) "u10"
  = Some old.
Proof.
  intros old self.
  destruct (set_my_location_responsibility 51.5074 (-0.1278) self)
    as (_ & _ & _ & H & _).
  apply H; [vm_compute; discriminate | reflexivity].
Defined.

End ResponsibilityFacts.

(** * Items as dicts *)

Module DictCodecFacts.
Import Py Sharding ShardedDataDict.

Lemma typed_fields_not_fail (d : dict Json.value) now id data_type e :
  match id,
        field d "geohash" (Json.JStr ""),
        Json.number (field d "timestamp" (Json.JFloat (Json.Finite now))),
        field d "ttl" (Json.JInt 86400),
        field d "replication_factor" (Json.JInt 3),
        field d "is_permanent" (Json.JBool false),
        field d "source_peer_id" (Json.JStr "")
  with
  | Json.JStr id, Json.JStr geohash, Some (Json.Finite timestamp),
    Json.JInt ttl, Json.JInt replication_factor,
    Json.JBool is_permanent, Json.JStr source_peer_id =>
      Built {| data_id := id;
               data_type := data_type;
               geohash := geohash;
               data := field d "data" (Json.JObj []);
               timestamp := timestamp;
               ttl := ttl;
               replication_factor := replication_factor;
               is_permanent := is_permanent;
               source_peer_id := source_peer_id |}
  | _, _, _, _, _, _, _ => Untyped
  end <> Fails e.
Proof.
  repeat match goal with
         | |- context [match ?x with _ => _ end] => destruct x
         end; discriminate.
Qed.

(** X17.  [from_dict] gives back the item that [to_dict] was
    called on.  A dict that has only an id and a known type gives an
    item with the defaults: no geohash, empty data, the clock reading
    as timestamp, a day to live, replication 3, not permanent.
    [from_dict] raises [KeyError] exactly for a dict without id or
    without type, and [ValueError] exactly for a dict with an id and a
    type that is not the value of a member, whatever else the dict
    holds. *)
Theorem from_dict_to_dict
        (now : Q) (item : ShardedData) (id : string) (ty : DataType)
        (d : dict Json.value) :
  from_dict now (to_dict item) = Built item
  /\ from_dict now [("data_id", Json.JStr id);
                    ("data_type", Json.JStr (DataType_value ty))]
     = Built {| data_id := id; data_type := ty; geohash := "";
                data := Json.JObj []; timestamp := now; ttl := 86400;
                replication_factor := 3; is_permanent := false;
                source_peer_id := "" |}
  /\ (from_dict now d = Fails KeyError
      <-> dict_get d "data_id" = None \/ dict_get d "data_type" = None)
  /\ (from_dict now d = Fails ValueError
      <-> dict_get d "data_id" <> None
          /\ exists v, dict_get d "data_type" = Some v
                       /\ DataType_of v = None).
Proof.
  split; [| split; [| split]].
  - destruct item as [i t g dd ts tl rf ip sp]. now destruct t.
  - now destruct ty.
  - unfold from_dict.
    destruct (dict_get d "data_id") as [i|]; [| split; [now left | reflexivity]].
    destruct (dict_get d "data_type") as [t|]; [| split; [now right | reflexivity]].
    split; [| intros [H | H]; discriminate].
    destruct (DataType_of t); [| discriminate].
    intros H. now apply typed_fields_not_fail in H.
  - unfold from_dict.
    destruct (dict_get d "data_id") as [i|];
      [| split; [discriminate | intros [H _]; congruence]].
    destruct (dict_get d "data_type") as [t|];
      [| split; [discriminate | intros [_ (v & H & _)]; discriminate]].
    destruct (DataType_of t) eqn:E.
    + split; [intros H; now apply typed_fields_not_fail in H |].
      intros [_ (v & [= <-] & H)]. congruence.
    + split; [| reflexivity]. intros _. split; [discriminate |].
      now exists t.
Qed.

End DictCodecFacts.

(** * The DHT client *)

Module DHTClientFacts.
Import Py DHTClient DiscoverySpec StringFacts.

Lemma endpoint_eqb_eq a b : endpoint_eqb a b = true <-> a = b.
Proof.
  destruct a as [h p], b as [h' p']. unfold endpoint_eqb. cbn [fst snd].
  rewrite andb_true_iff, String.eqb_eq, Z.eqb_eq. split.
  - now intros [-> ->].
  - now intros [= -> ->].
Qed.

Lemma known_In l x : known l x = true <-> In x l.
Proof.
  unfold known. rewrite existsb_exists. split.
  - intros (y & Hy & E). apply endpoint_eqb_eq in E. now subst.
  - intros H. exists x. split; [exact H | now apply endpoint_eqb_eq].
Qed.

(** ** Appending what is new *)

Lemma add_new_fold candidates :
  forall l,
    exists added,
      fold_left add_new candidates l = (l ++ added)%list
      /\ (List.length added <= List.length candidates)%nat
      /\ (forall x, In x added -> In x candidates /\ ~ In x l)
      /\ (forall x, In x candidates -> In x (l ++ added))
      /\ NoDup added.
Proof.
  induction candidates as [|c cs IH]; intros l.
  - exists []. rewrite app_nil_r. repeat split; try constructor; simpl; tauto.
  - cbn [fold_left]. unfold add_new at 2.
    destruct (known l c) eqn:E; cbn [negb].
    + apply known_In in E.
      destruct (IH l) as (added & H1 & H2 & H3 & H4 & H5).
      exists added. split; [exact H1 |]. split; [simpl; lia |].
      split; [| split; [| exact H5]].
      * intros x Hx. destruct (H3 x Hx). split; [now right | assumption].
      * intros x [<- | Hx]; [apply in_or_app; now left | now apply H4].
    + assert (Hc : ~ In c l)
        by (intros H; apply known_In in H; congruence).
      destruct (IH (l ++ [c])%list) as (added & H1 & H2 & H3 & H4 & H5).
      exists (c :: added). split; [now rewrite H1, <- app_assoc |].
      split; [simpl; lia |]. split; [| split].
      * intros x [<- | Hx]; [split; [now left | exact Hc] |].
        destruct (H3 x Hx) as [Hin Hn]. split; [now right |].
        intros Hl. apply Hn, in_or_app. now left.
      * intros x [<- | Hx].
        -- apply in_or_app. right. now left.
        -- specialize (H4 x Hx). rewrite <- app_assoc in H4. exact H4.
      * constructor; [| exact H5].
        intros Hin. destruct (H3 c Hin) as [_ Hn].
        apply Hn, in_or_app. right. now left.
Qed.

Lemma add_new_fold_distinct candidates l :
  NoDup l -> NoDup (fold_left add_new candidates l).
Proof.
  intros Hl. destruct (add_new_fold candidates l) as (added & -> & _ & H3 & _ & H5).
  apply NoDup_app; [exact Hl | exact H5 |].
  intros x Hx Ha. now destruct (H3 x Ha).
Qed.

Lemma fold_left_filter_map {A B C : Type} (f : C -> B -> C) (g : A -> B)
      (p : A -> bool) (l : list A) :
  forall acc,
    fold_left (fun acc x => if p x then f acc (g x) else acc) l acc
    = fold_left f (map g (filter p l)) acc.
Proof.
  induction l as [|x l IH]; intros acc; simpl; [reflexivity |].
  destruct (p x); simpl; apply IH.
Qed.

Lemma parse_nodes_records known_nodes nodes_data :
  _parse_nodes known_nodes nodes_data
  = fold_left add_new (node_records nodes_data) known_nodes.
Proof.
  unfold _parse_nodes, node_records.
  rewrite <- (fold_left_filter_map add_new
                (fun i => node_of (Bencode.slice i (i + 26) nodes_data))
                (fun i => (i + 26 <=? String.length nodes_data)%nat)).
  reflexivity.
Qed.

Lemma parse_peers_records peers_found peers_data :
  _parse_peers peers_found peers_data
  = fold_left add_new (peer_records peers_data) peers_found.
Proof.
  unfold _parse_peers, peer_records.
  rewrite <- (fold_left_filter_map add_new peer_of
                (fun e => (6 <=? String.length e)%nat)).
  reflexivity.
Qed.

Lemma range_step_In n i :
  In i (range_step n 26) <-> exists k, i = (k * 26)%nat /\ (k * 26 < n)%nat.
Proof.
  unfold range_step. rewrite in_map_iff. split.
  - intros (k & <- & Hk). apply in_seq in Hk. exists k. split; [reflexivity |].
    assert ((n + 26 - 1) / 26 * 26 <= n + 25)%nat.
    { pose proof (Nat.div_mod_eq (n + 26 - 1) 26). lia. }
    nia.
  - intros (k & -> & Hk). exists k. split; [reflexivity |].
    apply in_seq. split; [lia |]. cbn [Nat.add].
    apply (Nat.div_le_lower_bound (n + 26 - 1) 26 (S k)); lia.
Qed.

Lemma node_records_In nodes_data x :
  In x (node_records nodes_data)
  <-> exists k,
      (k * 26 + 26 <= String.length nodes_data)%nat
      /\ x = node_of (Bencode.slice (k * 26) (k * 26 + 26) nodes_data).
Proof.
  unfold node_records. rewrite in_map_iff. split.
  - intros (i & <- & Hi). apply filter_In in Hi as [Hi Hv].
    apply range_step_In in Hi as (k & -> & _). apply Nat.leb_le in Hv.
    now exists k.
  - intros (k & Hk & ->). exists (k * 26)%nat. split; [reflexivity |].
    apply filter_In. split; [| now apply Nat.leb_le].
    apply range_step_In. exists k. split; [reflexivity | lia].
Qed.

Lemma byte_dotted a b c d rest :
  inet_ntoa (String a (String b (String c (String d rest)))) = dotted a b c d.
Proof. reflexivity. Qed.

(** The record that starts after [k] records of a compact node
    list. *)
Lemma node_record_at k pre id a b c d hi lo post :
  String.length pre = (k * 26)%nat ->
  String.length id = 20%nat ->
  let six := String a (String b (String c (String d
               (String hi (String lo ""))))) in
  node_of (Bencode.slice (k * 26) (k * 26 + 26) (pre ++ (id ++ six) ++ post))
  = (dotted a b c d, Z.of_N (256 * N_of_ascii hi + N_of_ascii lo)).
Proof.
  intros Hpre Hid six. unfold Bencode.slice at 1.
  replace (k * 26 + 26 - k * 26)%nat with (String.length (id ++ six))
    by (rewrite length_append, Hid; simpl; lia).
  rewrite <- Hpre, <- (Nat.add_0_r (String.length pre)).
  rewrite (BencodeFacts.substring_shift pre ((id ++ six) ++ post) 0%nat
             (String.length (id ++ six))).
  rewrite BencodeFacts.substring_prefix.
  unfold node_of, Bencode.slice.
  change (24 - 20)%nat with 4%nat. change (26 - 24)%nat with 2%nat.
  replace (substring 20 4 (id ++ six))
    with (substring (String.length id + 0) 4 (id ++ six))
    by (rewrite Hid; reflexivity).
  replace (substring 24 2 (id ++ six))
    with (substring (String.length id + 4) 2 (id ++ six))
    by (rewrite Hid; reflexivity).
  rewrite !BencodeFacts.substring_shift.
  reflexivity.
Qed.

(** X18.  [_parse_nodes] keeps the known nodes as they are and
    appends nodes behind them, none that is already known or appended,
    so a table without repetition stays without.  It appends at most one
    node for every full 26 bytes.  The node of every complete record is
    in the table afterwards: for a record of a 20-byte id, four address
    bytes and two port bytes, that is the dotted address with the port
    read most significant byte first.  And every node of the table
    afterwards was known or is the node of a complete record: bytes
    left over behind the last complete record are not read. *)
Theorem parse_nodes_appends_records
        (known_nodes : list endpoint) (nodes_data : string) :
  let result := _parse_nodes known_nodes nodes_data in
  (exists added,
      result = (known_nodes ++ added)%list
      /\ (List.length added <= String.length nodes_data / 26)%nat)
  /\ (NoDup known_nodes -> NoDup result)
  /\ (forall k pre id a b c d hi lo post,
         String.length pre = (k * 26)%nat ->
         String.length id = 20%nat ->
         nodes_data
         = pre ++ (id ++ String a (String b (String c (String d
                            (String hi (String lo ""))))))
               ++ post ->
         In (dotted a b c d, Z.of_N (256 * N_of_ascii hi + N_of_ascii lo))
            result)
  /\ (forall x,
         In x result ->
         In x known_nodes
         \/ exists k,
             (k * 26 + 26 <= String.length nodes_data)%nat
             /\ x = node_of (Bencode.slice (k * 26) (k * 26 + 26) nodes_data)).
Proof.
  intros result. subst result. rewrite parse_nodes_records.
  destruct (add_new_fold (node_records nodes_data) known_nodes)
    as (added & E & Hlen & Hadded & Hall & Hnd).
  split; [| split; [| split]].
  - exists added. split; [exact E |].
    eapply Nat.le_trans; [exact Hlen |].
    unfold node_records. rewrite length_map.
    assert (G : forall n m,
               (List.length
                  (filter (fun i => (i + 26 <=? n)%nat)
                          (map (fun j => (j * 26)%nat) (seq 0 m)))
                <= n / 26)%nat).
    { intros n m. induction m as [|m IH]; [simpl; lia |].
      rewrite seq_S, map_app, filter_app, length_app. cbn [Nat.add map filter].
      destruct (m * 26 + 26 <=? n)%nat eqn:F; cbn [List.length]; [| lia].
      apply Nat.leb_le in F.
      assert (Hm : (m < n / 26)%nat)
        by (apply Nat.div_le_lower_bound; lia).
      assert (List.length
                (filter (fun i => (i + 26 <=? n)%nat)
                        (map (fun j => (j * 26)%nat) (seq 0 m))) <= m)%nat.
      { eapply Nat.le_trans; [apply filter_length_le |].
        now rewrite length_map, length_seq. }
      lia. }
    apply G.
  - apply add_new_fold_distinct.
  - intros k pre id a b c d hi lo post Hpre Hid ->.
    rewrite E. apply Hall. apply node_records_In. exists k. split.
    + rewrite !length_append, Hpre, Hid. simpl. lia.
    + symmetry. now apply node_record_at.
  - intros x Hx. rewrite E in Hx. apply in_app_or in Hx as [Hx | Hx];
      [now left | right].
    apply node_records_In. now apply Hadded.
Qed.

Lemma parse_nodes_appends_records_witness :
  let id := "aaaaaaaaaaaaaaaaaaaa" in
  In ("10.0.0.7", 6881%Z)
     (_parse_nodes [("router.bittorrent.com", 6881%Z)]
        (id ++ String "010" (String "000" (String "000" (String "007"
                (String "026" (String "225" "")))))
            ++ "left over")).
Proof.
  intros id.
  destruct (parse_nodes_appends_records
              [("router.bittorrent.com", 6881%Z)]
              (id ++ String "010" (String "000" (String "000" (String "007"
                       (String "026" (String "225" "")))))
                  ++ "left over")) as (_ & _ & H & _).
  apply (H 0%nat "" id "010"%char "000"%char "000"%char "007"%char
           "026"%char "225"%char "left over"); reflexivity.
Defined.

(** X19.  [_parse_peers] keeps the peers found as they are and
    appends peers behind them, none that is already there, so a list
    without repetition stays without.  Every entry of six bytes or more
    puts the peer of its first six bytes in the list: the dotted address
    of the first four with the port of the next two, most significant
    byte first.  An entry shorter than six bytes adds nothing. *)
Theorem parse_peers_appends_entries
        (peers_found : list endpoint) (peers_data : list string) :
  let result := _parse_peers peers_found peers_data in
  (exists added,
      result = (peers_found ++ added)%list
      /\ (List.length added <= List.length peers_data)%nat)
  /\ (NoDup peers_found -> NoDup result)
  /\ (forall a b c d hi lo rest,
         In (String a (String b (String c (String d
               (String hi (String lo rest))))))
            peers_data ->
         In (dotted a b c d, Z.of_N (256 * N_of_ascii hi + N_of_ascii lo))
            result)
  /\ (forall x,
         In x result ->
         In x peers_found
         \/ exists entry,
             In entry peers_data /\ (6 <= String.length entry)%nat
             /\ x = peer_of entry).
Proof.
  intros result. subst result. rewrite parse_peers_records.
  destruct (add_new_fold (peer_records peers_data) peers_found)
    as (added & E & Hlen & Hadded & Hall & Hnd).
  split; [| split; [| split]].
  - exists added. split; [exact E |].
    eapply Nat.le_trans; [exact Hlen |].
    unfold peer_records. rewrite length_map. apply filter_length_le.
  - apply add_new_fold_distinct.
  - intros a b c d hi lo rest Hin. rewrite E. apply Hall.
    unfold peer_records. apply in_map_iff.
    exists (String a (String b (String c (String d
              (String hi (String lo rest)))))).
    split; [| apply filter_In; split; [exact Hin |]].
    + unfold peer_of, Bencode.slice. cbn [Nat.sub substring].
      destruct rest; reflexivity.
    + apply Nat.leb_le. cbn [String.length]. lia.
  - intros x Hx. rewrite E in Hx. apply in_app_or in Hx as [Hx | Hx];
      [now left | right].
    destruct (Hadded x Hx) as [Hin _]. unfold peer_records in Hin.
    apply in_map_iff in Hin as (entry & <- & Hin).
    apply filter_In in Hin as [Hin Hv]. apply Nat.leb_le in Hv.
    now exists entry.
Qed.

Lemma parse_peers_appends_entries_witness :
  In ("192.168.1.20", 8123%Z)
     (_parse_peers []
        ["abc";
         String "192" (String "168" (String "001" (String "020"
           (String "031" (String "187" ""))))) ]).
Proof.
  destruct (parse_peers_appends_entries []
              ["abc";
               String "192" (String "168" (String "001" (String "020"
                 (String "031" (String "187" ""))))) ]) as (_ & _ & H & _).
  apply (H "192"%char "168"%char "001"%char "020"%char "031"%char
           "187"%char ""). right. left. reflexivity.
Defined.

(** ** Transaction ids *)

Lemma unpack_pack n :
  (0 <= n < 65536)%Z -> unpack_H (pack_H n) = n.
Proof.
  intros Hn. unfold unpack_H, pack_H, byte_at. cbn [String.get].
  rewrite !N_ascii_embedding.
  - rewrite N2Z.inj_add, N2Z.inj_mul, !Z2N.id.
    + change (Z.of_N 256) with 256%Z.
      pose proof (Z.div_mod n 256 ltac:(lia)). lia.
    + apply Z.mod_pos_bound. lia.
    + apply Z.div_pos; lia.
  - assert (0 <= n mod 256 < 256)%Z by (apply Z.mod_pos_bound; lia). lia.
  - assert (0 <= n / 256 < 256)%Z.
    { split; [apply Z.div_pos; lia | apply Z.div_lt_upper_bound; lia]. }
    lia.
Qed.

Lemma nth_transaction_value start n :
  (0 <= start < 65536)%Z ->
  nth_transaction start n = ((start + Z.of_nat n) mod 65536)%Z.
Proof.
  intros Hs. induction n as [|n IH].
  - cbn. rewrite Z.add_0_r, Z.mod_small; lia.
  - unfold nth_transaction in *. rewrite Nat.iter_succ, IH.
    cbn [_next_transaction_id fst].
    rewrite Zplus_mod_idemp_l. f_equal. lia.
Qed.

(** X20.  The transaction counter stays between 0 and
    65535 and advances by one with every call, turning over after
    65535; the two bytes returned are the counter, most significant byte
    first; hence the ids of two calls less than 65536 calls apart
    differ. *)
Theorem transaction_ids_cycle (start : Z) (i j : nat) :
  (0 <= start < 65536)%Z ->
  (Z.of_nat i < Z.of_nat j < Z.of_nat i + 65536)%Z ->
  let id_of n := snd (_next_transaction_id (nth_transaction start n)) in
  nth_transaction start j = ((start + Z.of_nat j) mod 65536)%Z
  /\ String.length (id_of j) = 2%nat
  /\ unpack_H (id_of j) = nth_transaction start (S j)
  /\ id_of i <> id_of j.
Proof.
  intros Hs Hij id_of. subst id_of.
  split; [now apply nth_transaction_value |].
  split; [reflexivity |].
  assert (G : forall n,
             unpack_H (snd (_next_transaction_id (nth_transaction start n)))
             = ((start + Z.of_nat (S n)) mod 65536)%Z).
  { intros n. cbn [_next_transaction_id snd].
    rewrite unpack_pack by (apply Z.mod_pos_bound; lia).
    rewrite nth_transaction_value by exact Hs.
    rewrite Zplus_mod_idemp_l. f_equal. lia. }
  split.
  - rewrite G. symmetry. now apply nth_transaction_value.
  - intros E. apply (f_equal unpack_H) in E. rewrite !G in E.
    assert (D : ((start + Z.of_nat (S j)) - (start + Z.of_nat (S i))
                 = Z.of_nat (j - i))%Z) by lia.
    assert (M : ((Z.of_nat (j - i)) mod 65536 = 0)%Z).
    { rewrite <- D. rewrite Zminus_mod, E, Z.sub_diag. reflexivity. }
    rewrite Z.mod_small in M by lia. lia.
Qed.

Lemma transaction_ids_cycle_witness :
  nth_transaction 65530 10 = 4%Z
  /\ snd (_next_transaction_id (nth_transaction 65530 3))
     <> snd (_next_transaction_id (nth_transaction 65530 10)).
Proof.
  destruct (transaction_ids_cycle 65530 3 10) as (H1 & _ & _ & H4);
    [lia | lia |].
  split; [exact H1 | exact H4].
Defined.

End DHTClientFacts.

(** * The discovery coordinator *)

Module AutoDiscoveryFacts.
Import Py AutoDiscovery DiscoverySpec DecaySpec DictFacts.

Lemma bootstrap_addresses_keys self :
  filed_by_address self ->
  get_bootstrap_addresses self = map fst (_discovered_peers self).
Proof.
  intros [_ Hf]. unfold get_bootstrap_addresses, dict_values.
  rewrite map_map.
  induction (_discovered_peers self) as [|kv d IH]; [reflexivity |].
  inversion Hf as [|? ? H0 Hr]; subst. cbn [map]. now rewrite <- H0, IH.
Qed.

(** X21.  With every peer filed under its address, once,
    [_add_discovered_peer] keeps it so.  It never touches a peer that is
    filed: an address found again, by whatever method, keeps its first
    entry.  The address is filed afterwards exactly if it was before or
    the host passed verification.  The bootstrap addresses are the keys
    of the table and hold no address twice. *)
Theorem add_discovered_peer_keeps_first
        (now : Q) (verify : verifier) (self : AutoDiscovery.t)
        (host : string) (port : Z) (method : string)
        (peer_id : option string) :
  filed_by_address self ->
  let after :=
    _add_discovered_peer now verify self host port method peer_id in
  let address := host ++ ":" ++ str_of_Z port in
  filed_by_address after
  /\ (forall a p, dict_get (_discovered_peers self) a = Some p ->
                  dict_get (_discovered_peers after) a = Some p)
  /\ (dict_mem (_discovered_peers after) address = true
      <-> dict_mem (_discovered_peers self) address = true
          \/ verify host port = true)
  /\ get_bootstrap_addresses after = map fst (_discovered_peers after)
  /\ NoDup (get_bootstrap_addresses after).
Proof.
  intros Hf after address.
  assert (Hafter : filed_by_address after
                   /\ (forall a p,
                          dict_get (_discovered_peers self) a = Some p ->
                          dict_get (_discovered_peers after) a = Some p)
                   /\ (dict_mem (_discovered_peers after) address = true
                       <-> dict_mem (_discovered_peers self) address = true
                           \/ verify host port = true)).
  { subst after address. unfold _add_discovered_peer.
    destruct (dict_mem (_discovered_peers self) (host ++ ":" ++ str_of_Z port))
             eqn:Hm.
    - split; [exact Hf |]. split; [auto |]. rewrite Hm. tauto.
    - destruct (verify host port) eqn:Hv.
      + cbn [_discovered_peers]. split; [| split].
        * destruct Hf as [Hk Hall]. split.
          -- now apply dict_set_keys_once.
          -- apply StorageFacts.dict_set_Forall; [exact Hall | reflexivity].
        * intros a p Hget. rewrite dict_get_set_other; [exact Hget |].
          intros ->. unfold dict_mem in Hm. now rewrite Hget in Hm.
        * unfold dict_mem at 1. rewrite PyFacts.dict_get_set_same. tauto.
      + split; [exact Hf |]. split; [auto |]. rewrite Hm.
        split; [discriminate | intros [H | H]; discriminate]. }
  destruct Hafter as (H1 & H2 & H3).
  split; [exact H1 |]. split; [exact H2 |]. split; [exact H3 |].
  rewrite (bootstrap_addresses_keys after H1).
  split; [reflexivity | apply H1].
Qed.

Lemma add_discovered_peer_keeps_first_witness :
  let empty := {| _discovered_peers := []; _on_peer_discovered := true;
                  notified := [] |} in
  let first :=
    _add_discovered_peer 10 (fun _ _ => true) empty "10.0.0.2" 8123 "dht"
                         None in
  let second :=
    _add_discovered_peer 20 (fun _ _ => true) first "10.0.0.2" 8123 "ipfs"
                         (Some "peer-b") in
  dict_get (_discovered_peers second) "10.0.0.2:8123"
  = Some {| AutoDiscovery.host := "10.0.0.2"; port := 8123;
            discovery_method := "dht"; discovered_at := 10;
            peer_id := None |}.
Proof.
  intros empty first second.
  destruct (add_discovered_peer_keeps_first 20 (fun _ _ => true) first
              "10.0.0.2" 8123 "ipfs" (Some "peer-b")) as (_ & H & _).
  - vm_compute. split; repeat constructor; simpl; intuition discriminate.
  - apply H. vm_compute. reflexivity.
Defined.

End AutoDiscoveryFacts.

(** * The bencode codec, further *)

Module BencodeMoreFacts.
Import Py Bencode Spec BencodeSpec StringFacts BencodeFacts.

(** ** The decoder ends on every input *)

Lemma get_in_range i s c : String.get i s = Some c -> (i < String.length s)%nat.
Proof.
  revert i. induction s as [|x s IH]; intros [|i] H; simpl in *;
    try discriminate; try lia.
  apply IH in H. lia.
Qed.

Lemma index_from_ge c data :
  forall start e, index_from c start data = Some e -> (start <= e)%nat.
Proof.
  induction data as [|x r IH]; intros start e H; simpl in H; [discriminate |].
  destruct start as [|start]; [lia |].
  destruct (index_from c start r) as [e'|] eqn:E; [| discriminate].
  injection H as <-. apply IH in E. lia.
Qed.

(** A value is returned only from a position inside the data, and the
    position returned with it lies further on. *)
Lemma decode_progress fuel data :
  (forall idx v idx',
      _bencode_decode_recursive fuel data idx = Decoded v idx' ->
      (idx < idx')%nat /\ (idx < String.length data)%nat)
  /\ (forall idx acc v idx',
         decode_list fuel data idx acc = Decoded v idx' -> (idx < idx')%nat)
  /\ (forall idx acc v idx',
         decode_dict fuel data idx acc = Decoded v idx' -> (idx < idx')%nat).
Proof.
  induction fuel as [|fuel (IHv & IHl & IHd)];
    [repeat split; discriminate |].
  split; [| split].
  - intros idx v idx'. rewrite decode_S.
    destruct (String.get idx data) as [c|] eqn:G; [| discriminate].
    apply get_in_range in G.
    destruct (Ascii.eqb c "i").
    { destruct (index_from "e" idx data) as [e|] eqn:E; [| discriminate].
      apply index_from_ge in E.
      destruct (int_of_bytes _); [| discriminate].
      intros [= _ <-]. lia. }
    destruct (Ascii.eqb c "l").
    { intros H. apply IHl in H. lia. }
    destruct (Ascii.eqb c "d").
    { intros H. apply IHd in H. lia. }
    destruct (is_digit c); [| discriminate].
    destruct (index_from ":" idx data) as [colon|] eqn:E; [| discriminate].
    apply index_from_ge in E.
    destruct (int_of_bytes _); [| discriminate].
    cbv zeta. intros [= _ <-]. lia.
  - intros idx acc v idx'. rewrite decode_list_S.
    destruct (match String.get idx data with
              | Some c => Ascii.eqb c "e"
              | None => false
              end).
    + intros [= _ <-]. lia.
    + destruct (_bencode_decode_recursive fuel data idx) as [item j| |] eqn:E;
        try discriminate.
      apply IHv in E. intros H. apply IHl in H. lia.
  - intros idx acc v idx'. rewrite decode_dict_S.
    destruct (match String.get idx data with
              | Some c => Ascii.eqb c "e"
              | None => false
              end).
    + intros [= _ <-]. lia.
    + destruct (_bencode_decode_recursive fuel data idx) as [key j| |] eqn:E;
        try discriminate.
      apply IHv in E.
      destruct (_bencode_decode_recursive fuel data j) as [value j'| |] eqn:E';
        try discriminate.
      apply IHv in E'.
      destruct (as_key key); [| discriminate].
      intros H. apply IHd in H. lia.
Qed.

Lemma decode_fuel fuel data :
  (forall idx,
      (2 * (String.length data - idx) + 1 <= fuel)%nat ->
      _bencode_decode_recursive fuel data idx <> OutOfFuel)
  /\ (forall idx acc,
         (2 * (String.length data - idx) + 2 <= fuel)%nat ->
         decode_list fuel data idx acc <> OutOfFuel)
  /\ (forall idx acc,
         (2 * (String.length data - idx) + 2 <= fuel)%nat ->
         decode_dict fuel data idx acc <> OutOfFuel).
Proof.
  induction fuel as [|fuel (IHv & IHl & IHd)];
    [repeat split; intros; lia |].
  destruct (decode_progress fuel data) as (Pv & _ & _).
  split; [| split].
  - intros idx Hf. rewrite decode_S.
    destruct (String.get idx data) as [c|] eqn:G; [| discriminate].
    apply get_in_range in G.
    destruct (Ascii.eqb c "i").
    { destruct (index_from "e" idx data); [| discriminate].
      destruct (int_of_bytes _); discriminate. }
    destruct (Ascii.eqb c "l"); [apply IHl; lia |].
    destruct (Ascii.eqb c "d"); [apply IHd; lia |].
    destruct (is_digit c); [| discriminate].
    destruct (index_from ":" idx data); [| discriminate].
    destruct (int_of_bytes _); discriminate.
  - intros idx acc Hf. rewrite decode_list_S.
    destruct (match String.get idx data with
              | Some c => Ascii.eqb c "e"
              | None => false
              end); [discriminate |].
    pose proof (IHv idx ltac:(lia)) as Hv.
    destruct (_bencode_decode_recursive fuel data idx) as [item j| |] eqn:E;
      [| discriminate | congruence].
    apply Pv in E. apply IHl. lia.
  - intros idx acc Hf. rewrite decode_dict_S.
    destruct (match String.get idx data with
              | Some c => Ascii.eqb c "e"
              | None => false
              end); [discriminate |].
    pose proof (IHv idx ltac:(lia)) as Hv.
    destruct (_bencode_decode_recursive fuel data idx) as [key j| |] eqn:E;
      [| discriminate | congruence].
    apply Pv in E.
    pose proof (IHv j ltac:(lia)) as Hv'.
    destruct (_bencode_decode_recursive fuel data j) as [value j'| |] eqn:E';
      [| discriminate | congruence].
    apply Pv in E'.
    destruct (as_key key); [| discriminate].
    apply IHd. lia.
Qed.

(** X22.  The decoder comes to an end on every input, well
    formed or not: its recursion never goes deeper, nor its loops
    longer, than twice the length of the data plus two allows; and
    when it returns a value it has read at least one byte and started
    inside the data. *)
Theorem bencode_decode_ends (data : string) :
  match _bencode_decode data with
  | Decoded _ idx => (0 < idx)%nat /\ (0 < String.length data)%nat
  | Error _ => True
  | OutOfFuel => False
  end.
Proof.
  unfold _bencode_decode.
  pose proof (proj1 (decode_fuel (2 * String.length data + 2) data) 0%nat
                    ltac:(lia)) as Hf.
  destruct (_bencode_decode_recursive (2 * String.length data + 2) data 0)
    as [v idx| |] eqn:E; [| exact I | congruence].
  now apply (decode_progress _ data) in E.
Qed.

(** X23.  The decoder does not ask that the data end with the
    value: bytes that follow the encoding of a value are left unread,
    and the value comes back as without them. *)
Theorem bencode_decode_ignores_rest (v : bval) (bs rest : string) :
  well_formed v = true ->
  without_str v = true ->
  _bencode_encode v = Returned bs ->
  exists v',
    _bencode_decode (bs ++ rest) = Decoded v' (String.length bs)
    /\ py_equal v' v = true.
Proof.
  intros Hwf Hws Henc. unfold _bencode_decode.
  apply (round_trips_all v Hwf Hws bs Henc). rewrite length_append. lia.
Qed.

Lemma bencode_decode_ignores_rest_witness :
  exists v',
    _bencode_decode ("li1ei2ee" ++ "xyz") = Decoded v' 8
    /\ py_equal v' (BList [BInt 1; BInt 2]) = true.
Proof.
  exact (bencode_decode_ignores_rest (BList [BInt 1; BInt 2]) "li1ei2ee" "xyz"
           eq_refl eq_refl eq_refl).
Defined.

(** ** The order of keys *)

Import KeyOrder.

Lemma compare_refl s : String.compare s s = Eq.
Proof.
  pose proof (String.compare_antisym s s) as H.
  destruct (String.compare s s); [reflexivity | discriminate | discriminate].
Qed.

Lemma compare_lt_trans a :
  forall b c,
    String.compare a b = Lt -> String.compare b c = Lt ->
    String.compare a c = Lt.
Proof.
  induction a as [|x a IH]; intros [|y b] [|z c]; simpl;
    try discriminate; try reflexivity.
  unfold Ascii.compare.
  destruct (N_of_ascii x ?= N_of_ascii y)%N eqn:E1;
    destruct (N_of_ascii y ?= N_of_ascii z)%N eqn:E2;
    try discriminate; intros H1 H2.
  - apply N.compare_eq in E1, E2. rewrite E1, E2, N.compare_refl.
    now apply (IH b c).
  - apply N.compare_eq in E1. now rewrite E1, E2.
  - apply N.compare_eq in E2. now rewrite <- E2, E1.
  - rewrite N.compare_lt_iff in E1, E2.
    assert (E : (N_of_ascii x ?= N_of_ascii z)%N = Lt)
      by (apply N.compare_lt_iff; eapply N.lt_trans; eassumption).
    now rewrite E.
Qed.

Lemma leb_trans a b c :
  String.leb a b = true -> String.leb b c = true -> String.leb a c = true.
Proof.
  unfold String.leb.
  destruct (String.compare a b) eqn:E1; try discriminate;
    destruct (String.compare b c) eqn:E2; try discriminate; intros _ _.
  - apply String.compare_eq_iff in E1, E2. subst. now rewrite compare_refl.
  - apply String.compare_eq_iff in E1. subst. now rewrite E2.
  - apply String.compare_eq_iff in E2. subst. now rewrite E1.
  - now rewrite (compare_lt_trans a b c E1 E2).
Qed.

Lemma key_leb_kind a b :
  (exists r, key_leb a b = Some r) <-> kind a = kind b.
Proof.
  destruct a, b; simpl; split; intros H; try discriminate;
    try reflexivity; try (destruct H; discriminate); eauto.
Qed.

Lemma key_leb_total a b :
  kind a = kind b ->
  key_leb a b = Some true \/ key_leb b a = Some true.
Proof.
  destruct a as [x|x|x], b as [y|y|y]; simpl; try discriminate; intros _.
  - destruct (Z.leb_spec x y); [now left |].
    right. f_equal. apply Z.leb_le. lia.
  - destruct (String.leb_total x y) as [-> | ->]; [now left | now right].
  - destruct (String.leb_total x y) as [-> | ->]; [now left | now right].
Qed.

Lemma key_leb_antisym a b :
  key_leb a b = Some true -> key_leb b a = Some true -> a = b.
Proof.
  destruct a as [x|x|x], b as [y|y|y]; simpl; try discriminate;
    intros [= H1] [= H2].
  - f_equal. apply Z.leb_le in H1, H2. lia.
  - f_equal. now apply String.leb_antisym.
  - f_equal. now apply String.leb_antisym.
Qed.

Lemma key_leb_trans a b c :
  key_leb a b = Some true -> key_leb b c = Some true ->
  key_leb a c = Some true.
Proof.
  destruct a as [x|x|x], b as [y|y|y], c as [z|z|z]; simpl;
    try discriminate; intros [= H1] [= H2]; f_equal.
  - apply Z.leb_le in H1, H2. apply Z.leb_le. lia.
  - now apply (leb_trans x y z).
  - now apply (leb_trans x y z).
Qed.

(** ** Sorting entries *)

Lemma insert_item_some {V} (kv : bkey * V) l :
  (forall y, In y l -> kind (fst kv) = kind (fst y)) ->
  exists s, insert_item kv l = Some s.
Proof.
  induction l as [|kv' r IH]; intros H; simpl; [eauto |].
  assert (Hk : kind (fst kv) = kind (fst kv')) by (apply H; now left).
  apply key_leb_kind in Hk as ([|] & ->); [eauto |].
  destruct IH as (s & ->); [| eauto].
  intros y Hy. apply H. now right.
Qed.

Lemma insert_item_kind {V} (kv : bkey * V) l s :
  insert_item kv l = Some s ->
  forall y, In y l -> uniform l -> kind (fst kv) = kind (fst y).
Proof.
  destruct l as [|kv' r]; intros H y Hy Hu; [contradiction |].
  simpl in H.
  destruct (key_leb (fst kv) (fst kv')) as [b|] eqn:E; [| discriminate].
  assert (Hk : kind (fst kv) = kind (fst kv'))
    by (apply key_leb_kind; eauto).
  rewrite Hk. apply Hu; [now left | exact Hy].
Qed.

Lemma sort_items_uniform {V} (l : list (bkey * V)) :
  (exists s, sort_items l = Some s) <-> uniform l.
Proof.
  induction l as [|kv r IH]; simpl.
  - split; [intros _ x y [] | eauto].
  - split.
    + intros (s & H).
      destruct (sort_items r) as [r'|] eqn:E; [| discriminate].
      assert (Hu : uniform r) by (apply IH; eauto).
      assert (Hu' : uniform r').
      { intros x y Hx Hy.
        pose proof (sort_items_perm r r' E) as P.
        apply Hu; eapply Permutation_in;
          try (apply Permutation_sym; exact P); assumption. }
      assert (Hkv : forall y, In y r -> kind (fst kv) = kind (fst y)).
      { intros y Hy. apply (insert_item_kind kv r' s H); [| exact Hu'].
        eapply Permutation_in; [apply (sort_items_perm r r' E) | exact Hy]. }
      intros x y [<- | Hx] [<- | Hy]; auto. symmetry. auto.
    + intros Hu.
      destruct (proj2 IH) as (r' & E).
      { intros x y Hx Hy. apply Hu; now right. }
      rewrite E. apply insert_item_some.
      intros y Hy. apply Hu; [now left | right].
      eapply Permutation_in;
        [apply Permutation_sym, (sort_items_perm r r' E) | exact Hy].
Qed.

Lemma insert_item_sorted {V} (kv : bkey * V) l :
  StronglySorted key_le l ->
  forall s, insert_item kv l = Some s -> StronglySorted key_le s.
Proof.
  induction l as [|kv' r IH]; intros Hs s H; simpl in H.
  - injection H as <-. repeat constructor.
  - apply StronglySorted_inv in Hs as [Hr Hall].
    destruct (key_leb (fst kv) (fst kv')) as [[|]|] eqn:E; try discriminate.
    + injection H as <-. constructor; [now constructor |].
      constructor; [exact E |].
      eapply Forall_impl; [| exact Hall].
      intros y Hy. unfold key_le in *. now apply (key_leb_trans _ (fst kv')).
    + destruct (insert_item kv r) as [r'|] eqn:E'; [| discriminate].
      injection H as <-. constructor; [now apply IH |].
      eapply Permutation_Forall; [apply (insert_item_perm kv r r' E') |].
      constructor; [| exact Hall].
      unfold key_le.
      destruct (key_leb_total (fst kv') (fst kv)) as [H | H];
        [symmetry; apply key_leb_kind; eauto | exact H | congruence].
Qed.

Lemma sort_items_sorted {V} (l : list (bkey * V)) :
  forall s, sort_items l = Some s -> StronglySorted key_le s.
Proof.
  induction l as [|kv r IH]; intros s H; simpl in H.
  - injection H as <-. constructor.
  - destruct (sort_items r) as [r'|]; [| discriminate].
    now apply (insert_item_sorted kv r' (IH r' eq_refl)).
Qed.

(** Entries with different keys have one sorted order. *)
Lemma sorted_unique {V} (s1 : list (bkey * V)) :
  forall s2,
    StronglySorted key_le s1 -> StronglySorted key_le s2 ->
    Permutation s1 s2 -> NoDup (map fst s1) -> s1 = s2.
Proof.
  induction s1 as [|x s1 IH]; intros s2 H1 H2 P Hn.
  - apply Permutation_nil in P. now subst.
  - destruct s2 as [|y s2];
      [apply Permutation_sym, Permutation_nil in P; discriminate |].
    apply StronglySorted_inv in H1 as [H1 Hx].
    apply StronglySorted_inv in H2 as [H2 Hy].
    rewrite Forall_forall in Hx, Hy.
    assert (Exy : x = y).
    { assert (Hyin : In y (x :: s1))
        by (eapply Permutation_in; [apply Permutation_sym, P | now left]).
      assert (Hxin : In x (y :: s2))
        by (eapply Permutation_in; [exact P | now left]).
      destruct Hyin as [E | Hyin]; [exact E |].
      destruct Hxin as [E | Hxin]; [now symmetry |].
      assert (K : fst x = fst y)
        by (apply key_leb_antisym; [apply Hx, Hyin | apply Hy, Hxin]).
      inversion Hn as [|? ? Hnx _]; subst. elim Hnx.
      rewrite K. now apply in_map. }
    subst y. f_equal. apply IH; try assumption.
    + now apply Permutation_cons_inv in P.
    + now inversion Hn.
Qed.

Lemma sort_items_permuted {V} (l1 l2 : list (bkey * V)) :
  Permutation l1 l2 -> NoDup (map fst l1) ->
  sort_items l1 = sort_items l2.
Proof.
  intros P Hn.
  assert (Hu : uniform l1 <-> uniform l2).
  { split; intros Hu x y Hx Hy; apply Hu;
      eapply Permutation_in; try eassumption;
      try (apply Permutation_sym; eassumption). }
  destruct (sort_items l1) as [s1|] eqn:E1.
  - destruct (proj2 (sort_items_uniform l2)) as (s2 & E2).
    { apply Hu, sort_items_uniform. eauto. }
    rewrite E2. f_equal.
    apply sorted_unique.
    + now apply (sort_items_sorted l1).
    + now apply (sort_items_sorted l2).
    + eapply perm_trans;
        [apply Permutation_sym, (sort_items_perm l1 s1 E1) |].
      eapply perm_trans; [exact P | apply (sort_items_perm l2 s2 E2)].
    + eapply Permutation_NoDup; [| exact Hn].
      apply Permutation_map, (sort_items_perm l1 s1 E1).
  - destruct (sort_items l2) as [s2|] eqn:E2; [| reflexivity].
    destruct (proj2 (sort_items_uniform l1)) as (s1 & E).
    { apply Hu, sort_items_uniform. eauto. }
    congruence.
Qed.

(** ** Equal values, equal bytes *)

Lemma py_equal_list_inv l1 :
  forall l2,
    py_equal (BList l1) (BList l2) = true ->
    Forall2 (fun a b => py_equal a b = true) l1 l2.
Proof.
  induction l1 as [|x l1 IH]; intros [|y l2] H; cbn [py_equal] in H;
    try discriminate; [constructor |].
  apply andb_true_iff in H as [Hxy H]. constructor; [exact Hxy |].
  apply IH. exact H.
Qed.

Lemma entries_get_In d k w :
  entries_get d k = Some w -> In (k, w) d.
Proof.
  induction d as [|[k' v] r IH]; simpl; [discriminate |].
  destruct (key_eqb k k') eqn:E.
  - apply key_eqb_eq in E. subst k'. intros [= ->]. now left.
  - intros H. right. now apply IH.
Qed.

Lemma entry_unique {V} (d : list (bkey * V)) k a b :
  NoDup (map fst d) -> In (k, a) d -> In (k, b) d -> a = b.
Proof.
  induction d as [|[k' v] r IH]; intros Hn Ha Hb; [contradiction |].
  inversion Hn as [|? ? Hk Hr]; subst. cbn [fst] in Hk.
  destruct Ha as [Ha | Ha], Hb as [Hb | Hb].
  - congruence.
  - injection Ha as -> _. elim Hk. change k with (fst (k, b)). now apply in_map.
  - injection Hb as -> _. elim Hk. change k with (fst (k, a)). now apply in_map.
  - now apply IH.
Qed.

Lemma Forall2_in_right {A B} (R : A -> B -> Prop) l1 l2 b :
  Forall2 R l1 l2 -> In b l2 -> exists a, In a l1 /\ R a b.
Proof.
  induction 1 as [|x y l1 l2 Hxy _ IH]; intros Hin; [destruct Hin |].
  destruct Hin as [-> | Hin].
  - exists x. split; [now left | exact Hxy].
  - destruct (IH Hin) as (a & Ha & HR). exists a. split; [now right | exact HR].
Qed.

Lemma encoded_keys d enc :
  Forall2 entry_encoded d enc -> map fst enc = map fst d.
Proof.
  induction 1 as [|x y d enc [Hk _] _ IH]; [reflexivity |].
  cbn [map]. now rewrite Hk, IH.
Qed.

Lemma NoDup_map_inv' {A B} (f : A -> B) l : NoDup (map f l) -> NoDup l.
Proof.
  induction l as [|x l IH]; intros H; [constructor |].
  inversion H as [|? ? Hx Hl]; subst. constructor; [| now apply IH].
  intros Hin. apply Hx. now apply in_map.
Qed.

Lemma encode_entries_all d :
  (forall k w, In (k, w) d -> exists a, _bencode_encode w = Returned a) ->
  exists enc, encode_entries d = Returned enc.
Proof.
  induction d as [|[k w] r IH]; intros H; [now exists [] |].
  rewrite encode_entries_cons.
  destruct (H k w (or_introl eq_refl)) as (a & ->).
  destruct IH as (enc & ->); [intros k' w' Hin; apply (H k' w'); now right |].
  cbn [bind]. eauto.
Qed.

Lemma encode_items_equal l1 :
  forall l2 b,
    Forall (fun v1 => forall v2 bs,
                well_formed v1 = true -> well_formed v2 = true ->
                py_equal v1 v2 = true ->
                _bencode_encode v1 = Returned bs ->
                _bencode_encode v2 = Returned bs) l1 ->
    Forall2 (fun a b => py_equal a b = true) l1 l2 ->
    forallb well_formed l1 = true -> forallb well_formed l2 = true ->
    encode_items l1 = Returned b -> encode_items l2 = Returned b.
Proof.
  induction l1 as [|x l1 IH]; intros l2 b HP H2 W1 W2 Henc;
    inversion H2 as [|? y ? l2' Hxy Hrest]; subst; [exact Henc |].
  inversion HP as [|? ? Hx HP']; subst.
  cbn [forallb] in W1, W2.
  apply andb_true_iff in W1 as [Wx W1]. apply andb_true_iff in W2 as [Wy W2].
  rewrite encode_items_cons in Henc |- *.
  apply bind_returned in Henc as (a & Ha & Henc).
  apply bind_returned in Henc as (c & Hc & [= <-]).
  rewrite (Hx y a Wx Wy Hxy Ha). cbn [bind].
  now rewrite (IH l2' c HP' Hrest W1 W2 Hc).
Qed.

Lemma encode_equal_all v1 :
  forall v2 bs,
    well_formed v1 = true -> well_formed v2 = true ->
    py_equal v1 v2 = true ->
    _bencode_encode v1 = Returned bs ->
    _bencode_encode v2 = Returned bs.
Proof.
  induction v1 as [x|x|x|l1 IH|d1 IH] using bval_induction;
    intros v2 bs W1 W2 Heq Henc.
  - destruct v2; try discriminate. cbn [py_equal] in Heq.
    apply Z.eqb_eq in Heq. now subst.
  - destruct v2; try discriminate. cbn [py_equal] in Heq.
    apply String.eqb_eq in Heq. now subst.
  - destruct v2; try discriminate. cbn [py_equal] in Heq.
    apply String.eqb_eq in Heq. now subst.
  - destruct v2 as [| | |l2|]; try discriminate.
    apply py_equal_list_inv in Heq.
    rewrite encode_list_eq in Henc |- *.
    apply bind_returned in Henc as (body & Hbody & [= <-]).
    cbn [well_formed] in W1, W2.
    now rewrite (encode_items_equal l1 l2 body IH Heq W1 W2 Hbody).
  - destruct v2 as [| | | |d2]; try discriminate.
    rewrite py_equal_dict in Heq. apply andb_true_iff in Heq as [Hlen Hall].
    apply Nat.eqb_eq in Hlen.
    cbn [well_formed] in W1, W2.
    apply andb_true_iff in W1 as [K1 W1]. apply andb_true_iff in W2 as [K2 W2].
    apply keys_distinct_NoDup in K1, K2.
    rewrite forallb_forall in Hall, W1, W2. rewrite Forall_forall in IH.
    rewrite encode_dict_eq in Henc |- *.
    apply bind_returned in Henc as (enc1 & Henc1 & Hsort).
    destruct (sort_items enc1) as [s1|] eqn:Hs1; [| discriminate].
    injection Hsort as <-.
    apply encode_entries_related in Henc1.
    (* entries of the first dict are matched in the second *)
    assert (Hmatch : forall k v, In (k, v) d1 ->
                       exists w, In (k, w) d2 /\ py_equal v w = true).
    { intros k v Hin. specialize (Hall (k, v) Hin). cbn [fst snd] in Hall.
      destruct (entries_get d2 k) as [w|] eqn:G; [| discriminate].
      exists w. split; [now apply entries_get_In | exact Hall]. }
    assert (Hkeys : incl (map fst d2) (map fst d1)).
    { apply NoDup_length_incl; [exact K1 | rewrite !length_map; lia |].
      intros k Hk. apply in_map_iff in Hk as ([k' v] & <- & Hin).
      destruct (Hmatch k' v Hin) as (w & Hw & _).
      apply in_map_iff. exists (k', w). split; [reflexivity | exact Hw]. }
    assert (Hrev : forall k w, In (k, w) d2 ->
                     exists v, In (k, v) d1 /\ py_equal v w = true).
    { intros k w Hin.
      assert (Hk : In k (map fst d1))
        by (apply Hkeys; change k with (fst (k, w)); now apply in_map).
      apply in_map_iff in Hk as ([k' v] & Ek & Hv). cbn [fst] in Ek. subst k'.
      destruct (Hmatch k v Hv) as (w' & Hw' & Heq).
      rewrite (entry_unique d2 k w w' K2 Hin Hw'). now exists v. }
    (* values of matched entries have the same bytes *)
    assert (Hval : forall k v w a,
               In (k, v) d1 -> In (k, w) d2 -> py_equal v w = true ->
               _bencode_encode v = Returned a ->
               _bencode_encode w = Returned a).
    { intros k v w a Hv Hw Heq Ha.
      apply (IH (k, v) Hv w a); try assumption.
      - apply (W1 (k, v) Hv).
      - apply (W2 (k, w) Hw). }
    assert (Hd1 : forall k v, In (k, v) d1 ->
                    exists a, _bencode_encode v = Returned a
                              /\ In (k, encode_key k ++ a) enc1).
    { intros k v Hin.
      destruct (Forall2_in_left _ _ _ _ Henc1 Hin) as ([k' e] & He & Hk & a & Ha & Hs).
      cbn [fst snd] in *. subst k' e. now exists a. }
    destruct (encode_entries_all d2) as (enc2 & Henc2).
    { intros k w Hin. destruct (Hrev k w Hin) as (v & Hv & Heq).
      destruct (Hd1 k v Hv) as (a & Ha & _).
      exists a. now apply (Hval k v w a). }
    rewrite Henc2. cbn [bind].
    pose proof (encode_entries_related d2 enc2 Henc2) as Hrel2.
    assert (P : Permutation enc1 enc2).
    { apply NoDup_Permutation_bis.
      - apply (NoDup_map_inv' fst). now rewrite (encoded_keys d1 enc1 Henc1).
      - rewrite <- (Forall2_length Henc1), <- (Forall2_length Hrel2). lia.
      - intros [k e] Hin.
        destruct (Forall2_in_right _ _ _ _ Henc1 Hin)
          as ([k' v] & Hv & Hk & a & Ha & Hs).
        cbn [fst snd] in *. subst k' e.
        destruct (Hmatch k v Hv) as (w & Hw & Heq).
        pose proof (Hval k v w a Hv Hw Heq Ha) as Hwa.
        destruct (Forall2_in_left _ _ _ _ Hrel2 Hw)
          as ([k' e'] & He' & Hk' & a' & Ha' & Hs').
        cbn [fst snd] in *. subst k' e'.
        rewrite Hwa in Ha'. injection Ha' as <-. exact He'. }
    rewrite <- (sort_items_permuted enc1 enc2 P), Hs1; [reflexivity |].
    now rewrite (encoded_keys d1 enc1 Henc1).
Qed.

(** X24.  Values that Python finds equal have the same
    encoding, in whatever order their dicts were filled: when
    [_bencode_encode] returns bytes for one of two equal values, it
    returns the same bytes for the other. *)
Theorem bencode_encode_canonical (v1 v2 : bval) (bs : string) :
  well_formed v1 = true ->
  well_formed v2 = true ->
  py_equal v1 v2 = true ->
  _bencode_encode v1 = Returned bs ->
  _bencode_encode v2 = Returned bs.
Proof. apply encode_equal_all. Qed.

Lemma bencode_encode_canonical_witness :
  let inner1 := BDict [(KBytes "id", BBytes "abc"); (KBytes "port", BInt 6881)] in
  let inner2 := BDict [(KBytes "port", BInt 6881); (KBytes "id", BBytes "abc")] in
  _bencode_encode (BDict [(KBytes "a", inner2); (KBytes "y", BBytes "q")])
  = Returned "d1:ad2:id3:abc4:porti6881ee1:y1:qe".
Proof.
  intros inner1 inner2.
  apply (bencode_encode_canonical
           (BDict [(KBytes "y", BBytes "q"); (KBytes "a", inner1)])
           (BDict [(KBytes "a", inner2); (KBytes "y", BBytes "q")]));
    reflexivity.
Defined.

End BencodeMoreFacts.

(** * More on the node *)

Module NodeMoreFacts.
Import Py P2P NodeSpec.

(** ** Topology links *)

Lemma has_link_In links source target :
  has_link links source target = true
  <-> In (source, target) (map link_key links).
Proof.
  unfold has_link. rewrite existsb_exists. split.
  - intros (l & Hin & H). apply andb_true_iff in H as [Hs Ht].
    apply String.eqb_eq in Hs, Ht. subst.
    apply in_map_iff. now exists l.
  - intros H. apply in_map_iff in H as (l & E & Hin).
    injection E as <- <-. exists l. split; [exact Hin |].
    now rewrite !String.eqb_refl.
Qed.

Lemma merge_fold links :
  forall existing,
    NoDup (map link_key existing) ->
    let merged :=
      fold_left (fun existing link =>
                   if has_link existing (link_source link) (link_target link)
                   then existing else (existing ++ [link])%list)
                links existing in
    (exists added, merged = (existing ++ added)%list /\ incl added links)
    /\ NoDup (map link_key merged)
    /\ (forall l, In l links -> In (link_key l) (map link_key merged)).
Proof.
  induction links as [|l r IH]; intros existing Hn; cbn [fold_left].
  - split; [exists []; split; [now rewrite app_nil_r | intros x []] |].
    split; [exact Hn | intros x []].
  - destruct (has_link existing (link_source l) (link_target l)) eqn:E.
    + destruct (IH existing Hn) as ((added & Hm & Hincl) & Hnd & Hall).
      cbn zeta in *. split; [| split].
      * exists added. split; [exact Hm |]. now apply incl_tl.
      * exact Hnd.
      * intros x [<- | Hx]; [| now apply Hall].
        rewrite Hm, map_app. apply in_or_app. left.
        now apply has_link_In.
    + assert (Hn' : NoDup (map link_key (existing ++ [l]))).
      { rewrite map_app. cbn [map].
        apply NoDup_app; [exact Hn | constructor; [intros [] | constructor] |].
        intros k Hk [<- | []].
        apply has_link_In in Hk. unfold link_key in Hk. cbn in Hk. congruence. }
      destruct (IH (existing ++ [l])%list Hn') as ((added & Hm & Hincl) & Hnd & Hall).
      cbn zeta in *. split; [| split].
      * exists (l :: added). split.
        -- rewrite Hm, <- app_assoc. reflexivity.
        -- intros x [<- | Hx]; [now left | right; now apply Hincl].
      * exact Hnd.
      * intros x [<- | Hx]; [| now apply Hall].
        rewrite Hm, !map_app. apply in_or_app. left. apply in_or_app. right.
        now left.
Qed.

(** X25.  Merging incoming links into a topology without two
    links of one source and target keeps every link it had, in place
    and unchanged, appends only links of the incoming list, and
    leaves a topology where no source and target occur twice and
    every incoming source and target occur. *)
Theorem merge_topology_links_keeps_first (self : P2PNode) (links : list Link) :
  NoDup (map link_key (_topology_links self)) ->
  (exists added,
      _merge_topology_links self links
      = (_topology_links self ++ added)%list
      /\ incl added links)
  /\ NoDup (map link_key (_merge_topology_links self links))
  /\ (forall l, In l links ->
                In (link_key l)
                   (map link_key (_merge_topology_links self links))).
Proof. intros Hn. exact (merge_fold links (_topology_links self) Hn). Qed.

Lemma merge_topology_links_keeps_first_witness :
  NoDup (map link_key
           (_merge_topology_links NodeFixtures.mapped_home
              [NodeFixtures.link_of "home" "peer-b" 40;
               NodeFixtures.link_of "peer-b" "home" 41;
               NodeFixtures.link_of "peer-b" "home" 42])).
Proof.
  apply (merge_topology_links_keeps_first NodeFixtures.mapped_home
           [NodeFixtures.link_of "home" "peer-b" 40;
            NodeFixtures.link_of "peer-b" "home" 41;
            NodeFixtures.link_of "peer-b" "home" 42]).
  simpl. constructor; [intros [] | constructor].
Defined.

(** ** Broadcasts *)

(** X26.  A trace is posted to [/p2p/broadcast] of exactly the
    peers that are not stale, and of none when sharing is disabled. *)
Theorem broadcast_to_peers_targets (now : Q) (self : P2PNode)
        (tr : SharedTraceroute) (e : effect) :
  In e (_broadcast_to_peers now self tr)
  <-> _share_data self = true
      /\ exists peer,
           In peer (dict_values (_peers self))
           /\ is_stale now peer = false
           /\ e = HttpPost ("http://" ++ address peer ++ "/p2p/broadcast")
                           (Broadcast tr).
Proof.
  unfold _broadcast_to_peers.
  destruct (_peers self) as [|kv r] eqn:Hp.
  - split; [intros [] | intros (_ & peer & [] & _)].
  - destruct (_share_data self); cbn [negb].
    + rewrite in_map_iff. split.
      * intros (peer & <- & Hin). apply filter_In in Hin as [Hin Hs].
        apply negb_true_iff in Hs. split; [reflexivity |]. now exists peer.
      * intros (_ & peer & Hin & Hs & ->). exists peer. split; [reflexivity |].
        apply filter_In. split; [exact Hin |]. now rewrite Hs.
    + split; [intros [] | intros (H & _); discriminate].
Qed.

(** ** Full sync *)

Lemma cleanup_members now self t :
  In t (dict_values (_shared_traceroutes (_cleanup_old_traceroutes now self)))
  <-> In t (dict_values (_shared_traceroutes self)) /\ recent now self t.
Proof.
  unfold _cleanup_old_traceroutes, dict_values, recent. cbn.
  rewrite !in_map_iff. split.
  - intros ([k v] & <- & Hin). apply filter_In in Hin as [Hin Hf].
    cbn [snd] in *. split; [now exists (k, v) |].
    apply negb_true_iff in Hf. apply Qnot_le_lt. intros Hle.
    apply Qle_bool_iff in Hle. congruence.
  - intros (([k v] & <- & Hin) & Hr). exists (k, v). split; [reflexivity |].
    apply filter_In. split; [exact Hin |]. cbn [snd] in *.
    apply negb_true_iff. destruct (Qle_bool _ _) eqn:E; [| reflexivity].
    apply Qle_bool_iff in E. exfalso. exact (Qlt_not_le _ _ Hr E).
Qed.

(** X27.  A full sync for a contributing caller answers with the
    stored traces whose timestamp is later than the clock reading
    minus the maximum age, and with no other; the same call drops
    the older traces from the node, whose store then holds the
    traces of the answer. *)
Theorem full_sync_answers_recent (now : Q) (self : P2PNode) (proof : string) :
  ContributionProof.is_contributing now proof 1 = Returned true ->
  exists traces,
    snd (_handle_full_sync now self proof)
    = Returned (SyncData traces (List.length (_peers self)) now)
    /\ (forall t, In t traces
                  <-> In t (dict_values (_shared_traceroutes self))
                      /\ recent now self t)
    /\ dict_values (_shared_traceroutes (fst (_handle_full_sync now self proof)))
       = traces.
Proof.
  intros Hc. unfold _handle_full_sync. rewrite Hc. cbn [fst snd].
  eexists. split; [reflexivity |]. split; [| reflexivity].
  intros t. apply cleanup_members.
Qed.

Lemma full_sync_answers_recent_witness :
  ContributionProof.is_contributing 100001 NodeFixtures.late_proof 1
  = Returned true
  /\ (In (NodeFixtures.trace_at "t-new" 99000)
         (dict_values
            (_shared_traceroutes
               (fst (_handle_full_sync 100001 NodeFixtures.busy_home
                       NodeFixtures.late_proof))))
      /\ ~ In (NodeFixtures.trace_at "t-old" 1000)
             (dict_values
                (_shared_traceroutes
                   (fst (_handle_full_sync 100001 NodeFixtures.busy_home
                           NodeFixtures.late_proof))))).
Proof.
  assert (Hc : ContributionProof.is_contributing 100001
                 NodeFixtures.late_proof 1 = Returned true)
    by (vm_compute; reflexivity).
  split; [exact Hc |].
  destruct (full_sync_answers_recent 100001 NodeFixtures.busy_home
              NodeFixtures.late_proof Hc) as (traces & _ & Hin & ->).
  split.
  - apply Hin. split; [right; now left | vm_compute; reflexivity].
  - intros H. apply Hin in H as [_ H]. vm_compute in H. discriminate.
Defined.

Lemma dict_set_value {V : Type} (d : dict V) (k : string) (v : V) :
  In v (dict_values (dict_set d k v)).
Proof.
  unfold dict_values. apply in_map_iff. exists (k, v). split; [reflexivity |].
  apply DictFacts.dict_get_In, PyFacts.dict_get_set_same.
Qed.

(** X28.  With sharing enabled, a trace taken by
    [/p2p/broadcast] is in the answer of a following full sync
    exactly when the timestamp it carries is later than the clock
    reading minus the maximum age. *)
Theorem broadcast_then_full_sync (now : Q) (self : P2PNode)
        (tr : SharedTraceroute) (proof : string) :
  _share_data self = true ->
  ContributionProof.is_contributing now proof 1 = Returned true ->
  exists traces,
    snd (_handle_full_sync now (fst (fst (_handle_broadcast self tr))) proof)
    = Returned (SyncData traces (List.length (_peers self)) now)
    /\ (In tr traces <-> recent now self tr).
Proof.
  intros Hs Hc. unfold _handle_broadcast. rewrite Hs. cbn [negb fst].
  unfold _handle_full_sync. rewrite Hc. cbn [snd].
  eexists. split; [reflexivity |].
  rewrite cleanup_members. cbn [with_shared _shared_traceroutes].
  split; [intros [_ H]; exact H |].
  intros H. split; [apply dict_set_value | exact H].
Qed.

Lemma broadcast_then_full_sync_witness :
  exists traces,
    snd (_handle_full_sync 100001
           (fst (fst (_handle_broadcast NodeFixtures.busy_home
                        (NodeFixtures.trace_at "t-sent" 50000))))
           NodeFixtures.late_proof)
    = Returned (SyncData traces 1 100001)
    /\ In (NodeFixtures.trace_at "t-sent" 50000) traces.
Proof.
  destruct (broadcast_then_full_sync 100001 NodeFixtures.busy_home
              (NodeFixtures.trace_at "t-sent" 50000) NodeFixtures.late_proof)
    as (traces & H & Hin).
  - reflexivity.
  - vm_compute. reflexivity.
  - exists traces. split; [exact H |]. apply Hin. vm_compute. reflexivity.
Defined.

(** ** Mobile tokens *)



End NodeMoreFacts.
